(** * License client of the Foxsight VMS: activation, validation, grace period

    A shallow embedding of [license_client.py] (class [LicenseClient]) over
    the tables of [database.py] and the settings of [config.py], with the
    fingerprint of [hardware_fingerprint.py] and the handlers of [main.py],
    followed by the properties of the license life cycle proved about it.

    Conventions of the embedding.
    - A naive UTC [datetime] is a number of seconds ([Z]); [timedelta(hours=h)]
      and [timedelta(days=d)] are [hours h] and [days d].  One call of a
      method reads the clock at one instant [now], which is an argument.
    - The SQLAlchemy session ([autocommit=False, autoflush=False]) is a
      record: what the database holds since the last commit, the open
      transaction's view of the rows, and the objects given to [db.add] that
      are not flushed yet (queries do not see those).
    - A mapped object is a reference into the identity map: the position of
      its row in the transaction's view.  Rows are never deleted, so a
      position keeps naming the same row.
    - What the licensing authority (or the network) answers is an argument of
      the method that posts the request; each post is recorded in the client's
      list of requests.
    - Python exceptions are the [Raise] outcome of a state-and-exception
      monad over the client.
    - The constructor of the client reads or creates the installation id in
      [system_config]; that table takes no part in the methods and is
      modelled on its own, and the client of a request is given its
      installation id and hardware fingerprint.  The timer behind the
      heartbeat scheduler is left out. *)

From Stdlib Require Import ZArith String List Bool Lia.
From Stdlib Require HexString.
From stdpp Require Import base list.
Import ListNotations.

Local Open Scope string_scope.
Local Open Scope Z_scope.

(** ** Time *)

Definition datetime := Z.

Definition hours (h : Z) : Z := h * 3600.
Definition days (d : Z) : Z := d * 86400.

(** Python's [datetime] covers the years 1 to 9999.  Counted in seconds from
    [datetime.min], the datetimes are the numbers below 3652059 days, and
    [datetime + timedelta] raises [OverflowError] when the sum is not one of
    them.  The methods are embedded where the sum is a datetime: a theorem
    about a call that computes
    [now + timedelta(hours=settings.OFFLINE_GRACE_PERIOD_HOURS)] states it
    as a hypothesis.  Thirty days after a reading of the clock are a
    datetime. *)
Definition representable (d : datetime) : Prop := 0 <= d < 315537897600.

(** ** config.py *)

Record Settings := {
  LICENSE_API_URL : string;
  LICENSE_API_TIMEOUT : Z;
  INSTALLATION_NAME : string;
  APP_VERSION : string;
  HEARTBEAT_INTERVAL_HOURS : Z;
  VALIDATION_INTERVAL_HOURS : Z;
  OFFLINE_GRACE_PERIOD_HOURS : Z;
  ALLOW_UNLICENSED_CORE_FEATURES : bool
}.

Definition default_settings : Settings := {|
  LICENSE_API_URL := "http://localhost:4000/api";
  LICENSE_API_TIMEOUT := 30;
  INSTALLATION_NAME := "Foxsight Central Command VMS";
  APP_VERSION := "1.0.0";
  HEARTBEAT_INTERVAL_HOURS := 4;
  VALIDATION_INTERVAL_HOURS := 24;
  OFFLINE_GRACE_PERIOD_HOURS := 72;
  ALLOW_UNLICENSED_CORE_FEATURES := true
|}.

(** ** The license object sent by the authority ([data["data"]])

    [enabledFeatures] is what [license_data.get("enabledFeatures", [])] is
    iterated over: the key may be missing, hold a list of keys, or hold a
    value that cannot be iterated (JSON [null], a number).

    The other fields are optional, [None] being a missing key.  A field that
    is present holds a value of the type the client stores: a string for
    [licenseKey] and [signature], strings in the list of [enabledFeatures].
    An answer with JSON [null] in one of these, which a NOT NULL column
    refuses at the commit, is not among the payloads of this type. *)

Inductive Features :=
| FeaturesAbsent
| FeaturesList (keys : list string)
| FeaturesNotIterable.

Record LicensePayload := {
  licenseKey : option string;
  enabledFeatures : Features;
  signature : option string;
  status : option string;
  tier : option string;
  expiresAt : option string;
  maxCameras : option Z;
  maxUsers : option Z
}.

(** ** database.py *)

Record LocalLicenseCache := {
  license_key : string;
  license_data : LicensePayload;
  cached_at : option datetime;
  valid_until : datetime;
  last_validated_at : option datetime;
  is_valid : bool;
  validation_error : option string;
  in_grace_period : bool;
  grace_period_started_at : option datetime;
  grace_period_expires_at : option datetime;
  license_signature : string
}.

Record LocalLicenseValidationAttempt := {
  attempt_license_key : string;
  result : string;
  error_message : option string;
  attempt_hardware_id : string;
  attempted_at : option datetime
}.

Record LocalFeatureFlag := {
  feature_key : string;
  enabled : bool;
  licensed : bool;
  system_enabled : bool;
  synced_at : option datetime
}.

Record Tables := {
  local_license_cache : list LocalLicenseCache;
  local_license_validation_attempts : list LocalLicenseValidationAttempt;
  local_feature_flags : list LocalFeatureFlag
}.

Definition no_tables : Tables := {|
  local_license_cache := [];
  local_license_validation_attempts := [];
  local_feature_flags := []
|}.

(** ** The session and the client *)

Record Session := {
  persisted : Tables;
  rows : Tables;
  pending : Tables;
  inactive : bool
}.

(** [get_db]: a new session on the database, one for each request. *)
Definition SessionLocal (t : Tables) : Session :=
  {| persisted := t; rows := t; pending := no_tables; inactive := false |}.

Record LicenseClient := {
  db : Session;
  hardware_id : string;
  installation_id : string;
  scheduler_running : bool;
  requests : list string
}.

(** ** Exceptions and the monad of the methods *)

Inductive Exn :=
| HTTPError (msg : string)
| Exception (msg : string).

Definition str (e : Exn) : string :=
  match e with HTTPError m => m | Exception m => m end.

Inductive Outcome (A : Type) :=
| Return (a : A)
| Raise (e : Exn).
Arguments Return {A} a.
Arguments Raise {A} e.

Definition M (A : Type) : Type := LicenseClient -> LicenseClient * Outcome A.

Definition ret {A} (a : A) : M A := fun c => (c, Return a).

Definition raise {A} (e : Exn) : M A := fun c => (c, Raise e).

Definition bind {A B} (m : M A) (k : A -> M B) : M B :=
  fun c =>
    match m c with
    | (c', Return a) => k a c'
    | (c', Raise e) => (c', Raise e)
    end.

(** [try: body except e: handler e]; what the handler raises escapes. *)
Definition try_except {A} (body : M A) (handler : Exn -> M A) : M A :=
  fun c =>
    match body c with
    | (c', Return a) => (c', Return a)
    | (c', Raise e) => handler e c'
    end.

Notation "x <- m ;; k" := (bind m (fun x => k))
  (at level 100, m at next level, right associativity).
Notation "m ;;; k" := (bind m (fun _ => k))
  (at level 100, right associativity).

Fixpoint for_each {A} (l : list A) (body : A -> M unit) : M unit :=
  match l with
  | [] => ret tt
  | x :: l' => body x ;;; for_each l' body
  end.

Definition set_db (s : Session) (c : LicenseClient) : LicenseClient :=
  {| db := s; hardware_id := hardware_id c; installation_id := installation_id c;
     scheduler_running := scheduler_running c; requests := requests c |}.

Definition read_db : M Session := fun c => (c, Return (db c)).

Definition write_db (s : Session) : M unit := fun c => (set_db s c, Return tt).

(** Every call that reaches the database raises once a flush has failed. *)
Definition connection : M Session :=
  s <- read_db ;;
  if inactive s then raise (Exception "PendingRollbackError") else ret s.

(** [await client.post(url)]: the request goes out. *)
Definition post (url : string) : M unit :=
  fun c =>
    ({| db := db c; hardware_id := hardware_id c; installation_id := installation_id c;
        scheduler_running := scheduler_running c; requests := requests c ++ [url] |},
     Return tt).

(** ** Session primitives *)

Fixpoint find_index {A} (p : A -> bool) (l : list A) : option nat :=
  match l with
  | [] => None
  | x :: l' => if p x then Some 0%nat else option_map S (find_index p l')
  end.

Definition set_rows (t : Tables) (s : Session) : Session :=
  {| persisted := persisted s; rows := t; pending := pending s; inactive := inactive s |}.

Definition set_pending (t : Tables) (s : Session) : Session :=
  {| persisted := persisted s; rows := rows s; pending := t; inactive := inactive s |}.

Definition with_licenses (l : list LocalLicenseCache) (t : Tables) : Tables :=
  {| local_license_cache := l;
     local_license_validation_attempts := local_license_validation_attempts t;
     local_feature_flags := local_feature_flags t |}.

Definition with_attempts (l : list LocalLicenseValidationAttempt) (t : Tables) : Tables :=
  {| local_license_cache := local_license_cache t;
     local_license_validation_attempts := l;
     local_feature_flags := local_feature_flags t |}.

Definition with_flags (l : list LocalFeatureFlag) (t : Tables) : Tables :=
  {| local_license_cache := local_license_cache t;
     local_license_validation_attempts := local_license_validation_attempts t;
     local_feature_flags := l |}.

(** [db.query(LocalLicenseCache).filter(license_key == k).first()] *)
Definition query_license_by_key (k : string) : M (option nat) :=
  s <- connection ;;
  ret (find_index (fun r => String.eqb (license_key r) k) (local_license_cache (rows s))).

(** [db.query(LocalLicenseCache).first()]: there is no ORDER BY, the rows
    are taken in the order of their insertion. *)
Definition query_license_first : M (option nat) :=
  s <- connection ;;
  ret (match local_license_cache (rows s) with [] => None | _ :: _ => Some 0%nat end).

(** [db.query(LocalFeatureFlag).filter(feature_key == k).first()] *)
Definition query_flag_by_key (k : string) : M (option nat) :=
  s <- connection ;;
  ret (find_index (fun f => String.eqb (feature_key f) k) (local_feature_flags (rows s))).

(** Reading the attributes of a loaded object. *)
Definition load_license (i : nat) : M LocalLicenseCache :=
  s <- read_db ;;
  match local_license_cache (rows s) !! i with
  | Some r => ret r
  | None => raise (Exception "ObjectDeletedError")
  end.

Definition load_flag (i : nat) : M LocalFeatureFlag :=
  s <- read_db ;;
  match local_feature_flags (rows s) !! i with
  | Some f => ret f
  | None => raise (Exception "ObjectDeletedError")
  end.

(** Assigning attributes of a loaded object: the change stays in the session
    until the next commit. *)
Definition store_license (i : nat) (r : LocalLicenseCache) : M unit :=
  s <- read_db ;;
  write_db (set_rows (with_licenses (<[i := r]> (local_license_cache (rows s))) (rows s)) s).

Definition store_flag (i : nat) (f : LocalFeatureFlag) : M unit :=
  s <- read_db ;;
  write_db (set_rows (with_flags (<[i := f]> (local_feature_flags (rows s))) (rows s)) s).

(** [db.add] *)
Definition add_license (r : LocalLicenseCache) : M unit :=
  s <- read_db ;;
  write_db (set_pending (with_licenses (local_license_cache (pending s) ++ [r]) (pending s)) s).

Definition add_attempt (a : LocalLicenseValidationAttempt) : M unit :=
  s <- read_db ;;
  write_db (set_pending
              (with_attempts (local_license_validation_attempts (pending s) ++ [a]) (pending s)) s).

Definition add_flag (f : LocalFeatureFlag) : M unit :=
  s <- read_db ;;
  write_db (set_pending (with_flags (local_feature_flags (pending s) ++ [f]) (pending s)) s).

(** The [unique=True] columns: the keys inserted by a flush must differ from
    each other and from the keys already in the table. *)
Fixpoint unique_insert (present fresh : list string) : bool :=
  match fresh with
  | [] => true
  | k :: fresh' =>
      negb (existsb (String.eqb k) present) && unique_insert (k :: present) fresh'
  end.

Definition flush_ok (s : Session) : bool :=
  unique_insert (map license_key (local_license_cache (rows s)))
                (map license_key (local_license_cache (pending s)))
  && unique_insert (map feature_key (local_feature_flags (rows s)))
                   (map feature_key (local_feature_flags (pending s))).

Definition flushed (s : Session) : Tables :=
  {| local_license_cache := local_license_cache (rows s) ++ local_license_cache (pending s);
     local_license_validation_attempts :=
       local_license_validation_attempts (rows s)
       ++ local_license_validation_attempts (pending s);
     local_feature_flags := local_feature_flags (rows s) ++ local_feature_flags (pending s) |}.

(** [db.commit()]: flush the pending objects and make the transaction's view
    the content of the database.  When the flush violates a unique column the
    transaction is rolled back in the database, the exception reaches the
    caller, and the session refuses further work. *)
Definition commit : M unit :=
  s <- connection ;;
  if flush_ok s then
    write_db {| persisted := flushed s; rows := flushed s;
                pending := no_tables; inactive := false |}
  else
    write_db {| persisted := persisted s; rows := rows s;
                pending := pending s; inactive := true |} ;;;
    raise (Exception "IntegrityError").

Definition unlicensed (f : LocalFeatureFlag) : LocalFeatureFlag :=
  {| feature_key := feature_key f; enabled := enabled f; licensed := false;
     system_enabled := system_enabled f; synced_at := synced_at f |}.

(** [db.query(LocalFeatureFlag).update({"licensed": False})]: the UPDATE is
    sent at once, inside the open transaction, and the loaded objects follow. *)
Definition update_flags_unlicensed : M unit :=
  s <- connection ;;
  write_db (set_rows (with_flags (map unlicensed (local_feature_flags (rows s))) (rows s)) s).

(** ** What the network answers *)

(** The [error] entry of a rejected activation, read by
    [data.get("error", {}).get("message", "Activation failed")]. *)
Inductive ErrorField :=
| ErrorAbsent
| ErrorDict (message : option string)
| ErrorNotDict.

(** The outcome of the activation request: [post] or [raise_for_status]
    raises an [httpx.HTTPError], or reading the body raises something else,
    or the body is a JSON object with [success], [data] and [error]. *)
Inductive ActivateResponse :=
| ActivateHTTPError (e : string)
| ActivateBadBody (e : string)
| ActivateBody (success : bool) (data : option LicensePayload) (error : ErrorField).

(** The [data] of a validation answer, as far as it is embedded: [isValid]
    is missing or a boolean, which is what the Boolean column [is_valid]
    takes at the commit, and [license] is missing or an object. *)
Record ValidationData := {
  isValid : option bool;
  license : option LicensePayload
}.

Inductive ValidateResponse :=
| ValidateHTTPError (e : string)
| ValidateBadBody (e : string)
| ValidateBody (success : bool) (data : option ValidationData).

(** A heartbeat: collecting the usage and system facts raises, or the post
    raises, or the post returns a response with some status code, which
    [send_heartbeat] does not look at (there is no [raise_for_status]). *)
Inductive HeartbeatResponse :=
| HeartbeatCollectError (e : string)
| HeartbeatHTTPError (e : string)
| HeartbeatReturned (status_code : Z).

(** ** What the methods return *)

Inductive ActivationResult :=
| Activated (activated_license : LicensePayload) (activated_message : string)
| ActivationFailed (error : string).

(** The dictionary returned by [validate_license]; a missing key is [None],
    and an ISO-formatted datetime is the datetime. *)
Record ValidationResult := {
  valid : bool;
  validated_license : option LicensePayload;
  inGracePeriod : option bool;
  validUntil : option datetime;
  gracePeriodExpires : option datetime;
  reason : option string;
  message : option string
}.

Inductive StatusSnapshot :=
| StatusNoLicense (status_message : string)
| StatusLicensed (license_status : string) (status_key : string) (status_tier : string)
    (status_expiresAt : option string) (status_maxCameras status_maxUsers : option Z)
    (status_inGracePeriod : bool) (status_gracePeriodExpires : option datetime)
    (status_lastValidated : option datetime)
| StatusInvalid (status_key : string) (status_message : string) (status_reason : option string).

Record UsageMetrics := {
  camerasInUse : Z;
  usersActive : Z;
  storageUsedGb : Z
}.

(** ** license_client.py *)

Section LicenseClient.

Variable settings : Settings.

(** [d[k]] on a key that may be missing. *)
Definition subscript {A} (k : string) (v : option A) : M A :=
  match v with
  | Some a => ret a
  | None => raise (Exception ("'" ++ k ++ "'"))
  end.

Definition _get_cached_license : M (option nat) := query_license_first.

Definition _log_validation_attempt (now : datetime) (key : string) (res : string)
    (err : option string) : M unit :=
  fun self =>
    (add_attempt {| attempt_license_key := key; result := res; error_message := err;
                    attempt_hardware_id := hardware_id self; attempted_at := Some now |} ;;;
     commit) self.

Definition _store_license_cache (now : datetime) (license_data' : LicensePayload) : M unit :=
  key <- subscript "licenseKey" (licenseKey license_data') ;;
  existing <- query_license_by_key key ;;
  let valid_until' := now + days 30 in
  match existing with
  | Some i =>
      r <- load_license i ;;
      store_license i
        {| license_key := license_key r;
           license_data := license_data';
           cached_at := Some now;
           valid_until := valid_until';
           last_validated_at := last_validated_at r;
           is_valid := true;
           validation_error := validation_error r;
           in_grace_period := in_grace_period r;
           grace_period_started_at := grace_period_started_at r;
           grace_period_expires_at := grace_period_expires_at r;
           license_signature := default "" (signature license_data') |}
  | None =>
      add_license
        {| license_key := key;
           license_data := license_data';
           cached_at := Some now;
           valid_until := valid_until';
           last_validated_at := None;
           is_valid := true;
           validation_error := None;
           in_grace_period := false;
           grace_period_started_at := None;
           grace_period_expires_at := None;
           license_signature := default "" (signature license_data') |}
  end ;;;
  commit.

Definition _update_license_cache (now : datetime) (validation_data : ValidationData) : M unit :=
  cached_license <- _get_cached_license ;;
  match cached_license with
  | None => ret tt
  | Some i =>
      r <- load_license i ;;
      store_license i
        {| license_key := license_key r;
           license_data := license_data r;
           cached_at := cached_at r;
           valid_until := valid_until r;
           last_validated_at := Some now;
           is_valid := default false (isValid validation_data);
           validation_error := validation_error r;
           in_grace_period := false;
           grace_period_started_at := grace_period_started_at r;
           grace_period_expires_at := grace_period_expires_at r;
           license_signature := license_signature r |} ;;;
      commit
  end.

(** The body of the loop of [_sync_feature_flags]. *)
Definition sync_feature_flag (now : datetime) (key : string) : M unit :=
  feature <- query_flag_by_key key ;;
  match feature with
  | Some i =>
      f <- load_flag i ;;
      store_flag i
        {| feature_key := feature_key f; enabled := enabled f; licensed := true;
           system_enabled := system_enabled f; synced_at := Some now |}
  | None =>
      add_flag
        {| feature_key := key; enabled := true; licensed := true;
           system_enabled := true; synced_at := Some now |}
  end.

Definition _sync_feature_flags (now : datetime) (license_data' : LicensePayload) : M unit :=
  update_flags_unlicensed ;;;
  enabled_features <-
    match enabledFeatures license_data' with
    | FeaturesAbsent => ret []
    | FeaturesList keys => ret keys
    | FeaturesNotIterable => raise (Exception "object is not iterable")
    end ;;
  for_each enabled_features (sync_feature_flag now) ;;;
  commit.

Definition _start_heartbeat : M unit :=
  fun self =>
    if scheduler_running self then (self, Return tt)
    else
      ({| db := db self; hardware_id := hardware_id self;
          installation_id := installation_id self;
          scheduler_running := true; requests := requests self |},
       Return tt).

Definition activate_license (now : datetime) (key : string) (response : ActivateResponse)
    : M ActivationResult :=
  try_except
    (post "/licenses/activate" ;;;
     match response with
     | ActivateHTTPError e => raise (HTTPError e)
     | ActivateBadBody e => raise (Exception e)
     | ActivateBody success data error =>
         if success then
           d <- subscript "data" data ;;
           _store_license_cache now d ;;;
           _sync_feature_flags now d ;;;
           _start_heartbeat ;;;
           _log_validation_attempt now key "success" None ;;;
           ret (Activated d "License activated successfully")
         else
           msg <-
             match error with
             | ErrorAbsent => ret "Activation failed"
             | ErrorDict m => ret (default "Activation failed" m)
             | ErrorNotDict => raise (Exception "object has no attribute 'get'")
             end ;;
           ret (ActivationFailed msg)
     end)
    (fun e =>
       match e with
       | HTTPError m =>
           let error_msg := "HTTP error during activation: " ++ m in
           _log_validation_attempt now key "failed" (Some error_msg) ;;;
           ret (ActivationFailed error_msg)
       | Exception m =>
           let error_msg := "Activation failed: " ++ m in
           _log_validation_attempt now key "failed" (Some error_msg) ;;;
           ret (ActivationFailed error_msg)
       end).

Definition grace_period_expired : ValidationResult :=
  {| valid := false; validated_license := None; inGracePeriod := None;
     validUntil := None; gracePeriodExpires := None;
     reason := Some "grace_period_expired";
     message := Some "License validation failed and grace period has expired" |}.

(** [valid_until] is a NOT NULL column and a datetime is never falsy, so the
    test [valid_until and valid_until > now] is the comparison.  The branch
    that starts the grace period is embedded where its expiry is a datetime
    ([representable]); where it is not, the addition raises. *)
Definition _check_grace_period (now : datetime) (cached_license : nat) : M ValidationResult :=
  r <- load_license cached_license ;;
  if valid_until r >? now then
    ret {| valid := true; validated_license := Some (license_data r);
           inGracePeriod := Some true; validUntil := Some (valid_until r);
           gracePeriodExpires := None; reason := None; message := None |}
  else if negb (in_grace_period r) then
    let grace_period_expires := now + hours (OFFLINE_GRACE_PERIOD_HOURS settings) in
    store_license cached_license
      {| license_key := license_key r;
         license_data := license_data r;
         cached_at := cached_at r;
         valid_until := valid_until r;
         last_validated_at := last_validated_at r;
         is_valid := is_valid r;
         validation_error := validation_error r;
         in_grace_period := true;
         grace_period_started_at := Some now;
         grace_period_expires_at := Some grace_period_expires;
         license_signature := license_signature r |} ;;;
    commit ;;;
    r' <- load_license cached_license ;;
    ret {| valid := true; validated_license := Some (license_data r');
           inGracePeriod := Some true; validUntil := None;
           gracePeriodExpires := Some grace_period_expires;
           reason := None; message := None |}
  else
    match grace_period_expires_at r with
    | Some expires =>
        if expires >? now then
          ret {| valid := true; validated_license := Some (license_data r);
                 inGracePeriod := Some true; validUntil := None;
                 gracePeriodExpires := Some expires; reason := None; message := None |}
        else ret grace_period_expired
    | None => ret grace_period_expired
    end.

Definition validate_license (now : datetime) (response : ValidateResponse)
    : M ValidationResult :=
  cached_license <- _get_cached_license ;;
  match cached_license with
  | None =>
      ret {| valid := false; validated_license := None; inGracePeriod := None;
             validUntil := None; gracePeriodExpires := None;
             reason := Some "no_license"; message := None |}
  | Some i =>
      try_except
        (r <- load_license i ;;
         post "/licenses/validate" ;;;
         match response with
         | ValidateHTTPError e => raise (HTTPError e)
         | ValidateBadBody e => raise (Exception e)
         | ValidateBody success data =>
             ok <- (if success then
                      d <- subscript "data" data ;; ret (default false (isValid d))
                    else ret false) ;;
             if ok then
               d <- subscript "data" data ;;
               _update_license_cache now d ;;;
               r' <- load_license i ;;
               _log_validation_attempt now (license_key r') "success" None ;;;
               l <- subscript "license" (license d) ;;
               ret {| valid := true; validated_license := Some l;
                      inGracePeriod := Some false; validUntil := None;
                      gracePeriodExpires := None; reason := None; message := None |}
             else _check_grace_period now i
         end)
        (fun e =>
           r <- load_license i ;;
           match e with
           | HTTPError m =>
               _log_validation_attempt now (license_key r) "offline" (Some m) ;;;
               _check_grace_period now i
           | Exception m =>
               _log_validation_attempt now (license_key r) "failed" (Some m) ;;;
               _check_grace_period now i
           end)
  end.

Definition _collect_usage_metrics : M UsageMetrics :=
  ret {| camerasInUse := 0; usersActive := 0; storageUsedGb := 0 |}.

Definition send_heartbeat (now : datetime) (response : HeartbeatResponse) : M unit :=
  cached_license <- _get_cached_license ;;
  match cached_license with
  | None => ret tt
  | Some i =>
      try_except
        (usage_metrics <- _collect_usage_metrics ;;
         match response with
         | HeartbeatCollectError e => raise (Exception e)
         | HeartbeatHTTPError e =>
             post "/licenses/heartbeat" ;;; raise (HTTPError e)
         | HeartbeatReturned _ =>
             post "/licenses/heartbeat" ;;;
             r <- load_license i ;;
             store_license i
               {| license_key := license_key r;
                  license_data := license_data r;
                  cached_at := cached_at r;
                  valid_until := valid_until r;
                  last_validated_at := Some now;
                  is_valid := is_valid r;
                  validation_error := validation_error r;
                  in_grace_period := in_grace_period r;
                  grace_period_started_at := grace_period_started_at r;
                  grace_period_expires_at := grace_period_expires_at r;
                  license_signature := license_signature r |} ;;;
             commit
         end)
        (fun e => ret tt)
  end.

Definition core_features : list string :=
  [ "module.camera_management";
    "module.live_view";
    "module.recording_basic";
    "module.playback";
    "module.user_management" ].

Definition _is_core_feature (key : string) : bool :=
  existsb (String.eqb key) core_features.

Definition is_feature_available (key : string) : M bool :=
  feature <- query_flag_by_key key ;;
  match feature with
  | None =>
      if ALLOW_UNLICENSED_CORE_FEATURES settings && _is_core_feature key
      then ret true
      else ret false
  | Some i =>
      f <- load_flag i ;;
      ret (licensed f && system_enabled f)
  end.

Definition get_license_status (now : datetime) (response : ValidateResponse)
    : M StatusSnapshot :=
  cached_license <- _get_cached_license ;;
  match cached_license with
  | None => ret (StatusNoLicense "No license activated")
  | Some i =>
      validation <- validate_license now response ;;
      r <- load_license i ;;
      if valid validation then
        let d := license_data r in
        ret (StatusLicensed (default "active" (status d)) (license_key r)
               (default "" (tier d)) (expiresAt d) (maxCameras d) (maxUsers d)
               (default false (inGracePeriod validation))
               (gracePeriodExpires validation) (last_validated_at r))
      else
        ret (StatusInvalid (license_key r)
               (default "License validation failed" (message validation))
               (reason validation))
  end.

End LicenseClient.

(** ** A request: main.py builds a client on a new session for each call *)

Definition new_client (hw inst : string) (t : Tables) : LicenseClient :=
  {| db := SessionLocal t; hardware_id := hw; installation_id := inst;
     scheduler_running := false; requests := [] |}.

(** The database after a call. *)
Definition database {A} (r : LicenseClient * Outcome A) : Tables := persisted (db (fst r)).

(** The cached license of an installation: [_get_cached_license] on its database. *)
Definition cached_license_of (t : Tables) : option LocalLicenseCache :=
  head (local_license_cache t).

(** ** hardware_fingerprint.py *)

(** [format(n, "x")] of a number that is not negative. *)
Definition hex (n : Z) : string :=
  match n with
  | Zpos p => HexString.Raw.of_pos p ""
  | _ => "0"
  end.

(** ['{:02x}'.format(n)]: lower-case hexadecimal, padded with a zero to two
    characters.  The argument is a byte here. *)
Definition format_02x (n : Z) : string :=
  let s := hex n in
  if (String.length s <? 2)%nat then "0" ++ s else s.

(** [sep.join(l)]. *)
Fixpoint join (sep : string) (l : list string) : string :=
  match l with
  | [] => ""
  | [s] => s
  | s :: l' => s ++ sep ++ join sep l'
  end.

(** The rendering of [uuid.getnode()]: [range(0, 2*6, 2)] gives the shifts,
    and the list of the six groups is reversed. *)
Definition mac (node : Z) : string :=
  join ":" (rev (map (fun elements => format_02x (Z.land (Z.shiftr node elements) 255))
                     [0; 2; 4; 6; 8; 10])).

Section HardwareFingerprint.

(** [hashlib.sha256(s.encode()).hexdigest()]. *)
Variable sha256_hexdigest : string -> string.

(** [node] is [uuid.getnode()], [cpu_count] is
    [str(psutil.cpu_count(logical=True))], [system] and [machine] are
    [platform.system()] and [platform.machine()]. *)
Definition get_hardware_fingerprint (node : Z) (cpu_count system machine : string)
    : string :=
  let fingerprint_data := mac node ++ "|" ++ cpu_count ++ "|" ++ system ++ "|" ++ machine in
  sha256_hexdigest fingerprint_data.

End HardwareFingerprint.

(** ** The installation id

    The constructor of [LicenseClient] runs [_get_or_create_installation_id]
    on the session it is given, which is new; [uuid4] is [str(uuid.uuid4())]
    and the table is [system_config], whose [key] column is unique. *)

Module system_config.

Record SystemConfig := {
  key : string;
  value : string;
  updated_at : option datetime
}.

(** The table after the call, and the id returned.  The commit inserts a row
    only when no row has the key, so it goes through. *)
Definition _get_or_create_installation_id (uuid4 : string) (now : datetime)
    (table : list SystemConfig) : list SystemConfig * string :=
  match find (fun c => String.eqb (key c) "installation_id") table with
  | Some config => (table, value config)
  | None =>
      let new_id := uuid4 in
      ((table ++ [{| key := "installation_id"; value := new_id; updated_at := Some now |}])%list,
       new_id)
  end.

(** The ids that successive constructions of the client get, each with its
    own random uuid and time. *)
Fixpoint installation_ids (calls : list (string * datetime)) (table : list SystemConfig)
    : list string :=
  match calls with
  | [] => []
  | (uuid4, now) :: calls' =>
      let (table', id) := _get_or_create_installation_id uuid4 now table in
      id :: installation_ids calls' table'
  end.

End system_config.

(** ** models.py and main.py: the endpoints *)

Module models.

Record HeartbeatResponse := {
  success : bool;
  message : string
}.

End models.

Module main.

(** What a handler gives back to FastAPI: a body, an [HTTPException], or an
    exception of the client that the handler does not catch. *)
Inductive Answer (A : Type) :=
| Respond (body : A)
| HTTPException (status_code : Z) (detail : string)
| Unhandled (e : Exn).
Arguments Respond {A} body.
Arguments HTTPException {A} status_code detail.
Arguments Unhandled {A} e.

(** Each handler builds its client on the session of the request; the client
    after the call is returned with the answer.  In the bodies below
    [activate_license] and [send_heartbeat] are the methods of the client. *)
Definition activate_license (hw inst : string) (now : datetime) (licenseKey : string)
    (response : ActivateResponse) (t : Tables) : LicenseClient * Answer ActivationResult :=
  let client := new_client hw inst t in
  match activate_license now licenseKey response client with
  | (client', Return (ActivationFailed error)) => (client', HTTPException 400 error)
  | (client', Return result) => (client', Respond result)
  | (client', Raise e) => (client', Unhandled e)
  end.

Definition send_heartbeat (hw inst : string) (now : datetime)
    (response : HeartbeatResponse) (t : Tables)
    : LicenseClient * Answer models.HeartbeatResponse :=
  let client := new_client hw inst t in
  match send_heartbeat now response client with
  | (client', Return _) =>
      (client', Respond {| models.success := true; models.message := "Heartbeat sent" |})
  | (client', Raise e) => (client', Unhandled e)
  end.

End main.

(** * Vocabulary of the properties *)

(** ** The audit table *)

(** The tables after a commit that only inserts validation attempts. *)
Definition logged (l : list LocalLicenseValidationAttempt) (t : Tables) : Tables :=
  with_attempts (local_license_validation_attempts t ++ l) t.

(** The attempt written by [_log_validation_attempt]. *)
Definition attempt (now : datetime) (hw key res : string) (err : option string)
    : LocalLicenseValidationAttempt :=
  {| attempt_license_key := key; result := res; error_message := err;
     attempt_hardware_id := hw; attempted_at := Some now |}.

(** ** The grace-period policy *)

(** The expiry of a grace period started at [now]. *)
Definition grace_expiry (settings : Settings) (now : datetime) : datetime :=
  now + hours (OFFLINE_GRACE_PERIOD_HOURS settings).

(** The record after step 2 of the policy. *)
Definition grace_started (settings : Settings) (now : datetime) (r : LocalLicenseCache)
    : LocalLicenseCache :=
  {| license_key := license_key r;
     license_data := license_data r;
     cached_at := cached_at r;
     valid_until := valid_until r;
     last_validated_at := last_validated_at r;
     is_valid := is_valid r;
     validation_error := validation_error r;
     in_grace_period := true;
     grace_period_started_at := Some now;
     grace_period_expires_at := Some (grace_expiry settings now);
     license_signature := license_signature r |}.

(** The answers of the policy that report a valid license. *)
Definition within_validity (r : LocalLicenseCache) : ValidationResult :=
  {| valid := true; validated_license := Some (license_data r);
     inGracePeriod := Some true; validUntil := Some (valid_until r);
     gracePeriodExpires := None; reason := None; message := None |}.

Definition within_grace (r : LocalLicenseCache) (expires : datetime) : ValidationResult :=
  {| valid := true; validated_license := Some (license_data r);
     inGracePeriod := Some true; validUntil := None;
     gracePeriodExpires := Some expires; reason := None; message := None |}.

(** The authority confirms the license: the body has a true [success] and a
    true [data.isValid]. *)
Definition authority_confirms (response : ValidateResponse) : bool :=
  match response with
  | ValidateBody true (Some d) => default false (isValid d)
  | _ => false
  end.

(** What a validation that is not confirmed writes to the audit table before
    the grace-period policy runs. *)
Definition failure_attempts (now : datetime) (hw key : string) (response : ValidateResponse)
    : list LocalLicenseValidationAttempt :=
  match response with
  | ValidateHTTPError e => [attempt now hw key "offline" (Some e)]
  | ValidateBadBody e => [attempt now hw key "failed" (Some e)]
  | ValidateBody true None => [attempt now hw key "failed" (Some "'data'")]
  | ValidateBody _ _ => []
  end.

(** The client once the request to [url] has gone out. *)
Definition posted (url : string) (c : LicenseClient) : LicenseClient := fst (post url c).

(** Validation requests served one after the other, each on a new session
    over the database left by the one before: the final database and the
    outcome of each call. *)
Fixpoint validations (settings : Settings) (hw inst : string)
    (calls : list (datetime * ValidateResponse)) (t : Tables)
    : Tables * list (Outcome ValidationResult) :=
  match calls with
  | [] => (t, [])
  | (now, response) :: calls' =>
      let out := validate_license settings now response (new_client hw inst t) in
      let (t', outs) := validations settings hw inst calls' (database out) in
      (t', snd out :: outs)
  end.

(** ** Sample data *)

Definition sample_payload (key : string) (features : Features) : LicensePayload :=
  {| licenseKey := Some key; enabledFeatures := features; signature := Some "sig";
     status := Some "active"; tier := Some "pro"; expiresAt := None;
     maxCameras := Some 16; maxUsers := Some 4 |}.

Definition sample_license (key : string) (until : datetime) (grace : bool)
    (started expires : option datetime) : LocalLicenseCache :=
  {| license_key := key;
     license_data := sample_payload key (FeaturesList []);
     cached_at := Some 0;
     valid_until := until;
     last_validated_at := None;
     is_valid := true;
     validation_error := None;
     in_grace_period := grace;
     grace_period_started_at := started;
     grace_period_expires_at := expires;
     license_signature := "sig" |}.

Definition sample_tables (r : LocalLicenseCache) : Tables :=
  {| local_license_cache := [r];
     local_license_validation_attempts := [];
     local_feature_flags := [] |}.

(** ** Activation as a function of the tables *)

(** The cached row after a re-activation with its own key, and the row
    inserted by a first activation. *)
Definition reactivated (now : datetime) (d : LicensePayload) (r : LocalLicenseCache)
    : LocalLicenseCache :=
  {| license_key := license_key r;
     license_data := d;
     cached_at := Some now;
     valid_until := now + days 30;
     last_validated_at := last_validated_at r;
     is_valid := true;
     validation_error := validation_error r;
     in_grace_period := in_grace_period r;
     grace_period_started_at := grace_period_started_at r;
     grace_period_expires_at := grace_period_expires_at r;
     license_signature := default "" (signature d) |}.

Definition activated (now : datetime) (key : string) (d : LicensePayload) : LocalLicenseCache :=
  {| license_key := key;
     license_data := d;
     cached_at := Some now;
     valid_until := now + days 30;
     last_validated_at := None;
     is_valid := true;
     validation_error := None;
     in_grace_period := false;
     grace_period_started_at := None;
     grace_period_expires_at := None;
     license_signature := default "" (signature d) |}.

(** The license table after [_store_license_cache]. *)
Definition upsert_license (now : datetime) (key : string) (d : LicensePayload)
    (ls : list LocalLicenseCache) : list LocalLicenseCache :=
  match find_index (fun r => String.eqb (license_key r) key) ls with
  | Some i => alter (reactivated now d) i ls
  | None => ls ++ [activated now key d]
  end.

(** A flag found by the loop of [_sync_feature_flags], and a flag it adds. *)
Definition relicensed (now : datetime) (f : LocalFeatureFlag) : LocalFeatureFlag :=
  {| feature_key := feature_key f; enabled := enabled f; licensed := true;
     system_enabled := system_enabled f; synced_at := Some now |}.

Definition new_flag (now : datetime) (key : string) : LocalFeatureFlag :=
  {| feature_key := key; enabled := true; licensed := true;
     system_enabled := true; synced_at := Some now |}.

(** The loaded flags and the pending flags after one turn of the loop of
    [_sync_feature_flags], and after the loop has gone through [keys]. *)
Definition sync_step (now : datetime) (st : list LocalFeatureFlag * list LocalFeatureFlag)
    (key : string) : list LocalFeatureFlag * list LocalFeatureFlag :=
  match find_index (fun f => String.eqb (feature_key f) key) (fst st) with
  | Some i => (alter (relicensed now) i (fst st), snd st)
  | None => (fst st, (snd st ++ [new_flag now key])%list)
  end.

Definition sync_loop (now : datetime) (keys : list string) (fs ps : list LocalFeatureFlag)
    : list LocalFeatureFlag * list LocalFeatureFlag :=
  fold_left (sync_step now) keys (fs, ps).

(** The keys that [_sync_feature_flags] iterates over, when it can. *)
Definition feature_keys (d : LicensePayload) : option (list string) :=
  match enabledFeatures d with
  | FeaturesAbsent => Some []
  | FeaturesList keys => Some keys
  | FeaturesNotIterable => None
  end.

(** The tables after the bulk update of [_sync_feature_flags]. *)
Definition reset_flags (t : Tables) : Tables :=
  with_flags (map unlicensed (local_feature_flags t)) t.

(** The flag table after the reset and the loop, as loaded and pending rows. *)
Definition synced (now : datetime) (keys : list string) (t : Tables)
    : list LocalFeatureFlag * list LocalFeatureFlag :=
  sync_loop now keys (map unlicensed (local_feature_flags t)) [].

(** The commit of [_sync_feature_flags] goes through. *)
Definition sync_flush_ok (now : datetime) (keys : list string) (t : Tables) : bool :=
  unique_insert (map feature_key (fst (synced now keys t)))
                (map feature_key (snd (synced now keys t))).

(** The database and the outcome of an activation request served on a new
    session, case by case. *)
Definition local_failure (now : datetime) (hw key : string) (t : Tables) (e : string)
    : Tables * Outcome ActivationResult :=
  let error_msg := ("Activation failed: " ++ e)%string in
  (logged [attempt now hw key "failed" (Some error_msg)] t,
   Return (ActivationFailed error_msg)).

Definition activation (now : datetime) (hw key : string) (response : ActivateResponse)
    (t : Tables) : Tables * Outcome ActivationResult :=
  match response with
  | ActivateHTTPError e =>
      let error_msg := ("HTTP error during activation: " ++ e)%string in
      (logged [attempt now hw key "failed" (Some error_msg)] t,
       Return (ActivationFailed error_msg))
  | ActivateBadBody e => local_failure now hw key t e
  | ActivateBody false _ ErrorAbsent => (t, Return (ActivationFailed "Activation failed"))
  | ActivateBody false _ (ErrorDict m) =>
      (t, Return (ActivationFailed (default "Activation failed" m)))
  | ActivateBody false _ ErrorNotDict =>
      local_failure now hw key t "object has no attribute 'get'"
  | ActivateBody true None _ => local_failure now hw key t "'data'"
  | ActivateBody true (Some d) _ =>
      match licenseKey d with
      | None => local_failure now hw key t "'licenseKey'"
      | Some k =>
          let t1 := with_licenses (upsert_license now k d (local_license_cache t)) t in
          match feature_keys d with
          | None => local_failure now hw key (reset_flags t1) "object is not iterable"
          | Some keys =>
              if sync_flush_ok now keys t1 then
                (logged [attempt now hw key "success" None]
                   (with_flags (fst (synced now keys t1) ++ snd (synced now keys t1)) t1),
                 Return (Activated d "License activated successfully"))
              else (t1, Raise (Exception "PendingRollbackError"))
          end
      end
  end.

(** An answer of the authority that accepts the activation of [key]. *)
Definition accepts (key : string) (features : Features) : ActivateResponse :=
  ActivateBody true (Some (sample_payload key features)) ErrorAbsent.

(** The flags agree with the keys gone through so far: a licensed flag has
    one of these keys, and each of these keys has a licensed flag. *)
Definition flags_agree (done : list string) (flags : list LocalFeatureFlag) : Prop :=
  (forall f, In f flags -> licensed f = true -> In (feature_key f) done)
  /\ (forall k, In k done ->
        exists f, In f flags /\ feature_key f = k /\ licensed f = true).

(** A stored flag, for the examples. *)
Definition sample_flag (key : string) (is_licensed : bool) : LocalFeatureFlag :=
  {| feature_key := key; enabled := true; licensed := is_licensed;
     system_enabled := true; synced_at := Some 0 |}.

(** The record after [_update_license_cache] on a confirmed validation. *)
Definition validated (now : datetime) (r : LocalLicenseCache) : LocalLicenseCache :=
  {| license_key := license_key r;
     license_data := license_data r;
     cached_at := cached_at r;
     valid_until := valid_until r;
     last_validated_at := Some now;
     is_valid := true;
     validation_error := validation_error r;
     in_grace_period := false;
     grace_period_started_at := grace_period_started_at r;
     grace_period_expires_at := grace_period_expires_at r;
     license_signature := license_signature r |}.

(** The answer of a confirmed validation. *)
Definition valid_online (l : LicensePayload) : ValidationResult :=
  {| valid := true; validated_license := Some l; inGracePeriod := Some false;
     validUntil := None; gracePeriodExpires := None; reason := None; message := None |}.

(** The audit table after a call, and the results an attempt may record. *)
Definition attempts_of {A} (out : LicenseClient * Outcome A)
    : list LocalLicenseValidationAttempt :=
  local_license_validation_attempts (database out).

Definition recorded (a : LocalLicenseValidationAttempt) : Prop :=
  In (result a) ["success"; "failed"; "offline"].

(** ** The requests of the service *)

Inductive Operation :=
| Activate (key : string) (response : ActivateResponse)
| Validate (response : ValidateResponse)
| SendHeartbeat (response : HeartbeatResponse)
| IsFeatureAvailable (key : string)
| GetLicenseStatus (response : ValidateResponse).

(** The database after one request served at [now] on a new session. *)
Definition serve (settings : Settings) (hw inst : string) (now : datetime) (op : Operation)
    (t : Tables) : Tables :=
  match op with
  | Activate key response =>
      database (activate_license now key response (new_client hw inst t))
  | Validate response =>
      database (validate_license settings now response (new_client hw inst t))
  | SendHeartbeat response =>
      database (send_heartbeat now response (new_client hw inst t))
  | IsFeatureAvailable key =>
      database (is_feature_available settings key (new_client hw inst t))
  | GetLicenseStatus response =>
      database (get_license_status settings now response (new_client hw inst t))
  end.

(** Requests served one after the other, each at its own time. *)
Fixpoint serve_all (settings : Settings) (hw inst : string)
    (calls : list (datetime * Operation)) (t : Tables) : Tables :=
  match calls with
  | [] => t
  | (now, op) :: calls' =>
      serve_all settings hw inst calls' (serve settings hw inst now op t)
  end.

(** [r'] is the row [r] later on, with no grace timestamp cleared. *)
Definition grace_kept (r r' : LocalLicenseCache) : Prop :=
  license_key r' = license_key r
  /\ (grace_period_started_at r <> None -> grace_period_started_at r' <> None)
  /\ (grace_period_expires_at r <> None -> grace_period_expires_at r' <> None).

(** Every cached row of [t] is still at its place in [t'], with no grace
    timestamp cleared. *)
Definition keeps_grace_timestamps (t t' : Tables) : Prop :=
  forall (i : nat) r,
    local_license_cache t !! i = Some r ->
    exists r', local_license_cache t' !! i = Some r' /\ grace_kept r r'.

(** ** Validation, heartbeat and status as functions of the record *)

(** The record after a heartbeat that was sent. *)
Definition touched (now : datetime) (r : LocalLicenseCache) : LocalLicenseCache :=
  {| license_key := license_key r;
     license_data := license_data r;
     cached_at := cached_at r;
     valid_until := valid_until r;
     last_validated_at := Some now;
     is_valid := is_valid r;
     validation_error := validation_error r;
     in_grace_period := in_grace_period r;
     grace_period_started_at := grace_period_started_at r;
     grace_period_expires_at := grace_period_expires_at r;
     license_signature := license_signature r |}.

(** The answer of [validate_license] without a cached license. *)
Definition no_license : ValidationResult :=
  {| valid := false; validated_license := None; inGracePeriod := None;
     validUntil := None; gracePeriodExpires := None;
     reason := Some "no_license"; message := None |}.

(** What the grace-period policy decides at [now] from the record [r]:
    still valid, or refused. *)
Definition tolerated (now : datetime) (r : LocalLicenseCache) : bool :=
  (now <? valid_until r)
  || negb (in_grace_period r)
  || match grace_period_expires_at r with
     | Some expires => now <? expires
     | None => false
     end.

(** ** What the requests keep *)

(** Every element of [l] is still at its place in [l'], related by [R]. *)
Definition kept_at {A} (R : A -> A -> Prop) (l l' : list A) : Prop :=
  forall (i : nat) x, l !! i = Some x -> exists x', l' !! i = Some x' /\ R x x'.

(** The parts of a flag that [_sync_feature_flags] never assigns on a stored
    flag: its key, [enabled] and the local override [system_enabled]. *)
Definition same_settings (f f' : LocalFeatureFlag) : Prop :=
  feature_key f' = feature_key f
  /\ enabled f' = enabled f
  /\ system_enabled f' = system_enabled f.

(** The invariant of the data model: a record in grace period has both grace
    timestamps, the expiry being the start plus the configured hours. *)
Definition grace_consistent (settings : Settings) (r : LocalLicenseCache) : Prop :=
  in_grace_period r = true ->
  exists started,
    grace_period_started_at r = Some started
    /\ grace_period_expires_at r
       = Some (started + hours (OFFLINE_GRACE_PERIOD_HOURS settings)).

(** The keys of the two tables with a unique column. *)
Definition license_keys (t : Tables) : list string :=
  map license_key (local_license_cache t).

Definition flag_keys (t : Tables) : list string :=
  map feature_key (local_feature_flags t).

(** The stored flag that a query by key returns. *)
Definition flag_of (k : string) (flags : list LocalFeatureFlag) : option LocalFeatureFlag :=
  find (fun f => String.eqb (feature_key f) k) flags.

(** ** The status shown to the user *)

(** The status of a license that validation accepts, with the limits read
    from the cached payload. *)
Definition licensed_status (r : LocalLicenseCache) (grace : bool)
    (expires : option datetime) : StatusSnapshot :=
  StatusLicensed (default "active" (status (license_data r))) (license_key r)
    (default "" (tier (license_data r))) (expiresAt (license_data r))
    (maxCameras (license_data r)) (maxUsers (license_data r))
    grace expires (last_validated_at r).

(** The status built from the answer of the validation and from the cached
    record as the validation left it. *)
Definition status_of (validation : ValidationResult) (r : LocalLicenseCache)
    : StatusSnapshot :=
  if valid validation then
    licensed_status r (default false (inGracePeriod validation))
      (gracePeriodExpires validation)
  else
    StatusInvalid (license_key r)
      (default "License validation failed" (message validation))
      (reason validation).

(** ** The bytes of a MAC address *)

Definition all_bytes : list Z := map Z.of_nat (seq 0 256).

(** * Properties *)

(** ** The session primitives on a session that has just been opened *)

Create HintDb session.

#[local] Hint Unfold bind ret raise try_except read_db write_db connection post
  set_db set_rows set_pending with_licenses with_attempts with_flags
  query_license_by_key query_license_first query_flag_by_key
  load_license load_flag store_license store_flag
  add_license add_attempt add_flag flushed commit update_flags_unlicensed
  SessionLocal no_tables subscript : session.

Ltac run := repeat (autounfold with session; cbn).

Lemma find_index_lookup {A} (p : A -> bool) (l : list A) (i : nat) :
  find_index p l = Some i -> exists x, l !! i = Some x /\ p x = true.
Proof.
  revert i. induction l as [|y l IH]; intros i H; simpl in H; [discriminate|].
  destruct (p y) eqn:Hp.
  - injection H as <-. exists y. split; [reflexivity | exact Hp].
  - destruct (find_index p l) as [j|]; [|discriminate].
    injection H as <-. destruct (IH j eq_refl) as (x & Hx & Hpx).
    exists x. split; [exact Hx | exact Hpx].
Qed.

Lemma find_index_none {A} (p : A -> bool) (l : list A) :
  find_index p l = None -> existsb p l = false.
Proof.
  induction l as [|y l IH]; simpl; intros H; [reflexivity|].
  destruct (p y); [discriminate|].
  destruct (find_index p l); [discriminate|]. simpl. apply IH. reflexivity.
Qed.

Lemma commit_ok (c : LicenseClient) :
  inactive (db c) = false ->
  flush_ok (db c) = true ->
  commit c = (set_db (SessionLocal (flushed (db c))) c, Return tt).
Proof.
  intros Hi Hf. unfold commit, connection, bind, read_db, write_db, ret, raise.
  rewrite Hi, Hf. reflexivity.
Qed.

Lemma commit_inactive (c : LicenseClient) :
  inactive (db c) = true ->
  commit c = (c, Raise (Exception "PendingRollbackError")).
Proof.
  intros Hi. unfold commit, connection, bind, read_db, raise. rewrite Hi. reflexivity.
Qed.

Lemma log_validation_attempt_ok now key res err (c : LicenseClient) :
  inactive (db c) = false ->
  pending (db c) = no_tables ->
  _log_validation_attempt now key res err c
  = (set_db (SessionLocal (logged [attempt now (hardware_id c) key res err] (rows (db c)))) c,
     Return tt).
Proof.
  intros Hi Hp. destruct c as [[p r pd ia] hw inst run reqs]. simpl in Hi, Hp. subst ia pd.
  destruct r as [ls ats fs].
  unfold _log_validation_attempt, logged, attempt. run.
  rewrite !app_nil_r. reflexivity.
Qed.

Lemma log_validation_attempt_fresh now key res err (c : LicenseClient) (t : Tables) :
  db c = SessionLocal t ->
  _log_validation_attempt now key res err c
  = (set_db (SessionLocal (logged [attempt now (hardware_id c) key res err] t)) c, Return tt).
Proof.
  intros Hdb. rewrite log_validation_attempt_ok by (rewrite Hdb; reflexivity).
  rewrite Hdb. reflexivity.
Qed.

Lemma log_validation_attempt_inactive now key res err (c : LicenseClient) :
  inactive (db c) = true ->
  snd (_log_validation_attempt now key res err c) = Raise (Exception "PendingRollbackError")
  /\ persisted (db (fst (_log_validation_attempt now key res err c))) = persisted (db c).
Proof.
  intros Hi. destruct c as [s hw inst run reqs]. simpl in Hi.
  unfold _log_validation_attempt. run. rewrite Hi. split; reflexivity.
Qed.

(** ** The grace-period policy, branch by branch *)

Section GracePolicy.

Variable settings : Settings.

Ltac fresh_client c t r rest :=
  let Hdb := fresh "Hdb" in
  let Hl := fresh "Hl" in
  intros Hdb Hl;
  destruct c as [? ? ? ? ?]; simpl in Hdb; subst;
  destruct t as [? ? ?]; simpl in Hl; subst.

Lemma check_grace_period_within now (c : LicenseClient) (t : Tables) r rest :
  db c = SessionLocal t ->
  local_license_cache t = r :: rest ->
  now < valid_until r ->
  _check_grace_period settings now 0 c = (c, Return (within_validity r)).
Proof.
  fresh_client c t r rest. intros Hv.
  apply Z.gtb_lt in Hv. unfold _check_grace_period. run. rewrite Hv. reflexivity.
Qed.

Lemma check_grace_period_start now (c : LicenseClient) (t : Tables) r rest :
  db c = SessionLocal t ->
  local_license_cache t = r :: rest ->
  valid_until r <= now ->
  in_grace_period r = false ->
  _check_grace_period settings now 0 c
  = (set_db (SessionLocal (with_licenses (grace_started settings now r :: rest) t)) c,
     Return (within_grace r (grace_expiry settings now))).
Proof.
  fresh_client c t r rest. intros Hv Hg.
  assert (Hle : (valid_until r >? now) = false) by (rewrite Z.gtb_ltb; apply Z.ltb_ge; lia).
  unfold _check_grace_period. run. rewrite Hle, Hg. run.
  rewrite !app_nil_r. reflexivity.
Qed.

Lemma check_grace_period_running now (c : LicenseClient) (t : Tables) r rest expires :
  db c = SessionLocal t ->
  local_license_cache t = r :: rest ->
  valid_until r <= now ->
  in_grace_period r = true ->
  grace_period_expires_at r = Some expires ->
  now < expires ->
  _check_grace_period settings now 0 c = (c, Return (within_grace r expires)).
Proof.
  fresh_client c t r rest. intros Hv Hg He Hlt.
  assert (Hle : (valid_until r >? now) = false) by (rewrite Z.gtb_ltb; apply Z.ltb_ge; lia).
  apply Z.gtb_lt in Hlt.
  unfold _check_grace_period. run. rewrite Hle, Hg, He. run. rewrite Hlt. reflexivity.
Qed.

Lemma check_grace_period_expired now (c : LicenseClient) (t : Tables) r rest :
  db c = SessionLocal t ->
  local_license_cache t = r :: rest ->
  valid_until r <= now ->
  in_grace_period r = true ->
  (forall expires, grace_period_expires_at r = Some expires -> expires <= now) ->
  _check_grace_period settings now 0 c = (c, Return grace_period_expired).
Proof.
  fresh_client c t r rest. intros Hv Hg He.
  assert (Hle : (valid_until r >? now) = false) by (rewrite Z.gtb_ltb; apply Z.ltb_ge; lia).
  unfold _check_grace_period. run. rewrite Hle, Hg. run.
  destruct (grace_period_expires_at r) as [e|]; [|reflexivity].
  assert (He' : (e >? now) = false)
    by (rewrite Z.gtb_ltb; apply Z.ltb_ge; apply He; reflexivity).
  rewrite He'. reflexivity.
Qed.

(** On a session that was just opened the policy never raises, it keeps the
    session open and clean, and it changes nothing but the cached license. *)
Lemma check_grace_period_returns now (c : LicenseClient) (t : Tables) r rest :
  db c = SessionLocal t ->
  local_license_cache t = r :: rest ->
  exists r' res,
    _check_grace_period settings now 0 c
    = (set_db (SessionLocal (with_licenses (r' :: rest) t)) c, Return res)
    /\ (r' = r \/ r' = grace_started settings now r).
Proof.
  intros Hdb Hl.
  assert (Hsame : set_db (SessionLocal (with_licenses (r :: rest) t)) c = c).
  { destruct c, t; simpl in *; subst; reflexivity. }
  destruct (Z_lt_le_dec now (valid_until r)) as [Hv|Hv].
  - exists r. eexists. rewrite Hsame. split; [|left; reflexivity].
    eapply check_grace_period_within; eassumption.
  - destruct (in_grace_period r) eqn:Hg.
    + destruct (grace_period_expires_at r) as [e|] eqn:He.
      * destruct (Z_lt_le_dec now e) as [Hlt|Hge].
        -- exists r. eexists. rewrite Hsame. split; [|left; reflexivity].
           eapply check_grace_period_running; eassumption.
        -- exists r. eexists. rewrite Hsame. split; [|left; reflexivity].
           eapply check_grace_period_expired; try eassumption.
           intros e' He'. rewrite He in He'. injection He' as <-. exact Hge.
      * exists r. eexists. rewrite Hsame. split; [|left; reflexivity].
        eapply check_grace_period_expired; try eassumption.
        intros e' He'. rewrite He in He'. discriminate.
    + exists (grace_started settings now r). eexists. split; [|right; reflexivity].
      eapply check_grace_period_start; eassumption.
Qed.

End GracePolicy.

(** ** A validation that the authority does not confirm *)

Arguments _check_grace_period : simpl never.
Arguments _log_validation_attempt : simpl never.

Lemma validate_license_failing settings now response (c : LicenseClient) (t : Tables) r rest :
  db c = SessionLocal t ->
  local_license_cache t = r :: rest ->
  authority_confirms response = false ->
  validate_license settings now response c
  = _check_grace_period settings now 0
      (set_db (SessionLocal
                 (logged (failure_attempts now (hardware_id c) (license_key r) response) t))
              (posted "/licenses/validate" c)).
Proof.
  intros Hdb Hl Hc.
  destruct c as [s hw inst run reqs]. simpl in Hdb. subst s.
  destruct t as [ls ats fs]. simpl in Hl. subst ls.
  unfold validate_license, _get_cached_license, posted, logged, failure_attempts, attempt.
  assert (Hbody : forall c' : LicenseClient,
             db c' = SessionLocal
                       {| local_license_cache := r :: rest;
                          local_license_validation_attempts := ats;
                          local_feature_flags := fs |} ->
             match _check_grace_period settings now 0 c' with
             | (c'', Return a) => (c'', Return a)
             | (c'', Raise e) =>
                 (r0 <- load_license 0 ;;
                  match e with
                  | HTTPError m =>
                      _log_validation_attempt now (license_key r0) "offline" (Some m) ;;;
                      _check_grace_period settings now 0
                  | Exception m =>
                      _log_validation_attempt now (license_key r0) "failed" (Some m) ;;;
                      _check_grace_period settings now 0
                  end) c''
             end = _check_grace_period settings now 0 c').
  { intros c' Hc'.
    destruct (check_grace_period_returns settings now c' _ r rest Hc' eq_refl)
      as (r' & res & Heq & _).
    rewrite Heq. reflexivity. }
  destruct response as [e|e|success data]; simpl in Hc.
  - run. unfold _log_validation_attempt. run. rewrite !app_nil_r. reflexivity.
  - run. unfold _log_validation_attempt. run. rewrite !app_nil_r. reflexivity.
  - destruct success.
    + destruct data as [d|].
      * run. rewrite Hc. rewrite !app_nil_r. apply Hbody. reflexivity.
      * run. unfold _log_validation_attempt. run. rewrite !app_nil_r. reflexivity.
    + run. rewrite !app_nil_r.
      destruct data; apply Hbody; reflexivity.
Qed.

(** ** Requests in sequence *)

Lemma cached_license_cons (t : Tables) r :
  cached_license_of t = Some r -> exists rest, local_license_cache t = r :: rest.
Proof.
  unfold cached_license_of. destruct (local_license_cache t) as [|x rest]; simpl; intros H.
  - discriminate.
  - injection H as ->. exists rest. reflexivity.
Qed.

Lemma cached_license_logged l (t : Tables) :
  cached_license_of (logged l t) = cached_license_of t.
Proof. reflexivity. Qed.

(** A validation that is not confirmed, on a license still within its local
    validity: the policy answers from the record and writes nothing to it. *)
Lemma validate_request_within settings hw inst (t : Tables) now response r :
  cached_license_of t = Some r ->
  now < valid_until r ->
  authority_confirms response = false ->
  let out := validate_license settings now response (new_client hw inst t) in
  snd out = Return (within_validity r)
  /\ database out = logged (failure_attempts now hw (license_key r) response) t.
Proof.
  intros Hc Hv Hf. destruct (cached_license_cons t r Hc) as (rest & Hl). cbv zeta.
  rewrite (validate_license_failing settings now response (new_client hw inst t) t r rest
             eq_refl Hl Hf).
  erewrite check_grace_period_within; [ | reflexivity | simpl; exact Hl | exact Hv ].
  split; reflexivity.
Qed.

Lemma validate_request_start settings hw inst (t : Tables) now response r :
  cached_license_of t = Some r ->
  valid_until r <= now ->
  in_grace_period r = false ->
  authority_confirms response = false ->
  let out := validate_license settings now response (new_client hw inst t) in
  snd out = Return (within_grace r (grace_expiry settings now))
  /\ cached_license_of (database out) = Some (grace_started settings now r)
  /\ local_license_validation_attempts (database out)
     = (local_license_validation_attempts t
        ++ failure_attempts now hw (license_key r) response)%list
  /\ local_feature_flags (database out) = local_feature_flags t.
Proof.
  intros Hc Hv Hg Hf. destruct (cached_license_cons t r Hc) as (rest & Hl). cbv zeta.
  rewrite (validate_license_failing settings now response (new_client hw inst t) t r rest
             eq_refl Hl Hf).
  erewrite check_grace_period_start;
    [ | reflexivity | simpl; exact Hl | exact Hv | exact Hg ].
  repeat split; reflexivity.
Qed.

Lemma validate_request_running settings hw inst (t : Tables) now response r expires :
  cached_license_of t = Some r ->
  valid_until r <= now ->
  in_grace_period r = true ->
  grace_period_expires_at r = Some expires ->
  now < expires ->
  authority_confirms response = false ->
  let out := validate_license settings now response (new_client hw inst t) in
  snd out = Return (within_grace r expires)
  /\ database out = logged (failure_attempts now hw (license_key r) response) t.
Proof.
  intros Hc Hv Hg He Hlt Hf. destruct (cached_license_cons t r Hc) as (rest & Hl). cbv zeta.
  rewrite (validate_license_failing settings now response (new_client hw inst t) t r rest
             eq_refl Hl Hf).
  erewrite check_grace_period_running;
    [ | reflexivity | simpl; exact Hl | exact Hv | exact Hg | exact He | exact Hlt ].
  split; reflexivity.
Qed.

Lemma validate_request_expired settings hw inst (t : Tables) now response r :
  cached_license_of t = Some r ->
  valid_until r <= now ->
  in_grace_period r = true ->
  (forall expires, grace_period_expires_at r = Some expires -> expires <= now) ->
  authority_confirms response = false ->
  let out := validate_license settings now response (new_client hw inst t) in
  snd out = Return grace_period_expired
  /\ database out = logged (failure_attempts now hw (license_key r) response) t.
Proof.
  intros Hc Hv Hg He Hf. destruct (cached_license_cons t r Hc) as (rest & Hl). cbv zeta.
  rewrite (validate_license_failing settings now response (new_client hw inst t) t r rest
             eq_refl Hl Hf).
  erewrite check_grace_period_expired;
    [ | reflexivity | simpl; exact Hl | exact Hv | exact Hg | exact He ].
  split; reflexivity.
Qed.

(** Validations that are not confirmed, all before the expiry of a running
    grace period: each reports that expiry, and the record stays as it is. *)
Lemma validations_running settings hw inst calls : forall (t : Tables) r expires since,
  cached_license_of t = Some r ->
  valid_until r <= since ->
  in_grace_period r = true ->
  grace_period_expires_at r = Some expires ->
  Forall (fun call => since <= fst call < expires
                      /\ authority_confirms (snd call) = false) calls ->
  cached_license_of (fst (validations settings hw inst calls t)) = Some r
  /\ snd (validations settings hw inst calls t)
     = map (fun _ => Return (within_grace r expires)) calls.
Proof.
  induction calls as [|[now response] calls IH]; intros t r expires since Hc Hv Hg He Hall.
  - split; [exact Hc | reflexivity].
  - inversion Hall as [|? ? [Hnow Hf] Hall']; subst. simpl in Hnow, Hf.
    destruct (validate_request_running settings hw inst t now response r expires)
      as [Hres Hdb]; try assumption; try lia.
    simpl.
    destruct (validations settings hw inst calls
                (database (validate_license settings now response (new_client hw inst t))))
      as [t' outs] eqn:Hrest.
    specialize (IH (database (validate_license settings now response (new_client hw inst t)))
                   r expires since).
    rewrite Hrest in IH. simpl in IH.
    destruct IH as [IHc IHo]; try assumption.
    { rewrite Hdb. rewrite cached_license_logged. exact Hc. }
    simpl. split; [exact IHc|]. rewrite Hres, IHo. reflexivity.
Qed.


(** ** The grace period *)

(** C3. Grace-period short circuit: when the cached license has a
    [valid_until] strictly after [now], a validation that the authority does
    not confirm (a rejection, or the authority cannot be reached) returns
    [valid: true, inGracePeriod: true] with the existing [validUntil] and no
    grace expiry, and the stored record, with its [in_grace_period],
    [grace_period_started_at] and [grace_period_expires_at], is the one that
    was there before: no grace clock is started. *)
Theorem grace_short_circuit_priority settings hw inst (t : Tables) now response r :
  cached_license_of t = Some r ->
  now < valid_until r ->
  authority_confirms response = false ->
  let out := validate_license settings now response (new_client hw inst t) in
  (exists res,
      snd out = Return res
      /\ valid res = true
      /\ inGracePeriod res = Some true
      /\ validUntil res = Some (valid_until r)
      /\ gracePeriodExpires res = None)
  /\ cached_license_of (database out) = Some r
  /\ local_license_cache (database out) = local_license_cache t.
Proof.
  intros Hc Hv Hf.
  destruct (validate_request_within settings hw inst t now response r Hc Hv Hf)
    as [Hres Hdb].
  cbv zeta. split.
  - exists (within_validity r). rewrite Hres. repeat split; reflexivity.
  - rewrite Hdb. split; [exact Hc | reflexivity].
Qed.

Lemma grace_short_circuit_priority_witness :
  let t := sample_tables (sample_license "FOX-1" 864000 false None None) in
  let out := validate_license default_settings 100 (ValidateBody false None)
               (new_client "hw" "inst" t) in
  (exists res,
      snd out = Return res
      /\ valid res = true
      /\ inGracePeriod res = Some true
      /\ validUntil res = Some 864000
      /\ gracePeriodExpires res = None)
  /\ cached_license_of (database out) = Some (sample_license "FOX-1" 864000 false None None)
  /\ local_license_cache (database out) = local_license_cache t.
Proof.
  apply (grace_short_circuit_priority default_settings "hw" "inst"
           (sample_tables (sample_license "FOX-1" 864000 false None None)) 100
           (ValidateBody false None) (sample_license "FOX-1" 864000 false None None)).
  - reflexivity.
  - simpl. lia.
  - reflexivity.
Defined.

(** C4. Start and persistence of the grace clock: when the cached license has
    a [valid_until] that has passed and is not in grace period, a validation
    that is not confirmed sets [in_grace_period], sets
    [grace_period_started_at] to [now] and [grace_period_expires_at] to [now]
    plus [OFFLINE_GRACE_PERIOD_HOURS], and reports [valid: true] with that
    expiry; every later unconfirmed validation before that expiry returns the
    same expiry and leaves the stored grace window as it is.  The expiry is
    a datetime: [now] plus the configured hours does not leave the range of
    Python's [datetime]. *)
Theorem grace_clock_start_and_persistence settings hw inst (t : Tables) now response r later :
  cached_license_of t = Some r ->
  valid_until r <= now ->
  in_grace_period r = false ->
  authority_confirms response = false ->
  representable now ->
  representable (now + hours (OFFLINE_GRACE_PERIOD_HOURS settings)) ->
  Forall (fun call =>
            now <= fst call < now + hours (OFFLINE_GRACE_PERIOD_HOURS settings)
            /\ authority_confirms (snd call) = false) later ->
  let out := validate_license settings now response (new_client hw inst t) in
  let expires := now + hours (OFFLINE_GRACE_PERIOD_HOURS settings) in
  let outs := validations settings hw inst later (database out) in
  (exists res,
      snd out = Return res
      /\ valid res = true
      /\ inGracePeriod res = Some true
      /\ gracePeriodExpires res = Some expires)
  /\ (exists r',
         cached_license_of (database out) = Some r'
         /\ in_grace_period r' = true
         /\ grace_period_started_at r' = Some now
         /\ grace_period_expires_at r' = Some expires
         /\ cached_license_of (fst outs) = Some r')
  /\ length (snd outs) = length later
  /\ Forall (fun o => exists res,
                 o = Return res
                 /\ valid res = true
                 /\ inGracePeriod res = Some true
                 /\ gracePeriodExpires res = Some expires) (snd outs).
Proof.
  intros Hc Hv Hg Hf _ _ Hlater.
  destruct (validate_request_start settings hw inst t now response r Hc Hv Hg Hf)
    as (Hres & Hdb & _ & _).
  destruct (validations_running settings hw inst later
              (database (validate_license settings now response (new_client hw inst t)))
              (grace_started settings now r) (grace_expiry settings now) now)
    as [Hkeep Houts]; try assumption; try reflexivity.
  cbv zeta. split; [|split; [|split]].
  - exists (within_grace r (grace_expiry settings now)). rewrite Hres.
    repeat split; reflexivity.
  - exists (grace_started settings now r). repeat split; try reflexivity; assumption.
  - rewrite Houts. rewrite length_map. reflexivity.
  - rewrite Houts. apply Forall_map. apply Forall_forall. intros call _.
    eexists. split; [reflexivity|]. repeat split; reflexivity.
Qed.

Lemma grace_clock_start_and_persistence_witness :
  let t := sample_tables (sample_license "FOX-1" 100 false None None) in
  let later := [(300, ValidateHTTPError "timed out"); (259000, ValidateBody false None)] in
  let out := validate_license default_settings 200 (ValidateHTTPError "timed out")
               (new_client "hw" "inst" t) in
  let outs := validations default_settings "hw" "inst" later (database out) in
  (exists res,
      snd out = Return res
      /\ valid res = true
      /\ inGracePeriod res = Some true
      /\ gracePeriodExpires res = Some 259400)
  /\ (exists r',
         cached_license_of (database out) = Some r'
         /\ in_grace_period r' = true
         /\ grace_period_started_at r' = Some 200
         /\ grace_period_expires_at r' = Some 259400
         /\ cached_license_of (fst outs) = Some r')
  /\ length (snd outs) = 2%nat
  /\ Forall (fun o => exists res,
                 o = Return res
                 /\ valid res = true
                 /\ inGracePeriod res = Some true
                 /\ gracePeriodExpires res = Some 259400) (snd outs).
Proof.
  apply (grace_clock_start_and_persistence default_settings "hw" "inst"
           (sample_tables (sample_license "FOX-1" 100 false None None)) 200
           (ValidateHTTPError "timed out") (sample_license "FOX-1" 100 false None None)
           [(300, ValidateHTTPError "timed out"); (259000, ValidateBody false None)]).
  - reflexivity.
  - simpl. lia.
  - reflexivity.
  - reflexivity.
  - unfold representable. lia.
  - unfold representable, hours. simpl. lia.
  - repeat constructor; simpl; lia.
Defined.



(** ** Heartbeats *)

(** A heartbeat that raises is inert: when collecting the system facts raises
    or the post to the authority raises, [send_heartbeat] returns normally,
    and the database and the objects of the session, the cached license with
    [is_valid], [in_grace_period], the grace timestamps, [last_validated_at]
    and every other field among them, are what they were; with no cached
    license it returns at once, whatever the network would answer, without
    posting and without writing. *)
Theorem heartbeat_failure_is_inert hw inst (t : Tables) now e :
  let collect := send_heartbeat now (HeartbeatCollectError e) (new_client hw inst t) in
  let http := send_heartbeat now (HeartbeatHTTPError e) (new_client hw inst t) in
  (snd collect = Return tt /\ db (fst collect) = SessionLocal t /\ database collect = t)
  /\ (snd http = Return tt /\ db (fst http) = SessionLocal t /\ database http = t)
  /\ (forall response,
         send_heartbeat now response (new_client hw inst (with_licenses [] t))
         = (new_client hw inst (with_licenses [] t), Return tt)).
Proof.
  destruct t as [ls ats fs]. cbv zeta.
  split; [|split].
  - destruct ls as [|r rest]; unfold send_heartbeat, _get_cached_license, database; run;
      repeat split; reflexivity.
  - destruct ls as [|r rest]; unfold send_heartbeat, _get_cached_license, database; run;
      repeat split; reflexivity.
  - intros response. unfold send_heartbeat, _get_cached_license. run. reflexivity.
Qed.

(** A post that returns counts as a heartbeat sent, whatever its status:
    [last_validated_at] becomes [now], and nothing else changes. *)
Lemma heartbeat_returned hw inst now code r :
  let out := send_heartbeat now (HeartbeatReturned code)
               (new_client hw inst (sample_tables r)) in
  snd out = Return tt
  /\ exists r',
       cached_license_of (database out) = Some r'
       /\ last_validated_at r' = Some now
       /\ is_valid r' = is_valid r
       /\ in_grace_period r' = in_grace_period r
       /\ grace_period_started_at r' = grace_period_started_at r
       /\ grace_period_expires_at r' = grace_period_expires_at r.
Proof.
  cbv zeta. unfold send_heartbeat, _get_cached_license, database, sample_tables. run.
  split; [reflexivity|]. eexists. split; [reflexivity|]. repeat split.
Qed.

(** C7 on the code.  An installation has a cached license that was never
    validated, and the authority answers the heartbeat with the status 500.
    [send_heartbeat] does not call [raise_for_status], which
    [activate_license] and [validate_license] do: the failed call counts as
    a heartbeat sent.  The method returns normally, the validity and the
    grace state of the record are what they were, and [last_validated_at]
    has become [now].  A validation that meets the same failure of the
    authority leaves [last_validated_at] as it was. *)
Lemma heartbeat_error_status_counts_as_sent :
  let r := sample_license "FOX-1" 1000 false None None in
  let out := send_heartbeat 700 (HeartbeatReturned 500)
               (new_client "hw" "inst" (sample_tables r)) in
  let sibling := validate_license default_settings 700
                   (ValidateHTTPError "500 Internal Server Error")
                   (new_client "hw" "inst" (sample_tables r)) in
  last_validated_at r = None
  /\ snd out = Return tt
  /\ requests (fst out) = ["/licenses/heartbeat"]
  /\ (exists r',
         local_license_cache (database out) = [r']
         /\ last_validated_at r' = Some 700
         /\ last_validated_at r' <> last_validated_at r
         /\ is_valid r' = is_valid r
         /\ in_grace_period r' = in_grace_period r
         /\ grace_period_started_at r' = grace_period_started_at r
         /\ grace_period_expires_at r' = grace_period_expires_at r)
  /\ local_license_cache (database sibling) = [r].
Proof.
  vm_compute. split; [reflexivity|]. split; [reflexivity|]. split; [reflexivity|].
  split; [|reflexivity].
  eexists. split; [reflexivity|]. split; [reflexivity|]. split; [discriminate|].
  repeat split.
Qed.

(** ** Feature availability *)

Lemma find_index_find {A} (p : A -> bool) (l : list A) :
  match find_index p l with
  | Some i => l !! i = find p l /\ exists x, find p l = Some x
  | None => find p l = None
  end.
Proof.
  induction l as [|y l IH]; simpl; [reflexivity|].
  destruct (p y) eqn:Hp.
  - split; [reflexivity | exists y; reflexivity].
  - destruct (find_index p l) as [i|]; simpl.
    + exact IH.
    + exact IH.
Qed.

(** C8. [is_feature_available] is a local read: it posts no request and
    leaves the client and its session as they were.  For a key with a stored
    flag it returns [licensed and system_enabled]; for a key without one it
    returns true exactly when [ALLOW_UNLICENSED_CORE_FEATURES] is set and the
    key is one of the five core features. *)
Theorem feature_availability_is_local_read settings hw inst (t : Tables) key :
  let out := is_feature_available settings key (new_client hw inst t) in
  fst out = new_client hw inst t
  /\ requests (fst out) = []
  /\ snd out
     = Return
         match find (fun f => String.eqb (feature_key f) key) (local_feature_flags t) with
         | Some f => licensed f && system_enabled f
         | None =>
             ALLOW_UNLICENSED_CORE_FEATURES settings
             && (String.eqb key "module.camera_management"
                 || String.eqb key "module.live_view"
                 || String.eqb key "module.recording_basic"
                 || String.eqb key "module.playback"
                 || String.eqb key "module.user_management")
         end.
Proof.
  destruct t as [ls ats fs]. cbv zeta.
  unfold is_feature_available. run.
  pose proof (find_index_find (fun f => String.eqb (feature_key f) key) fs) as Hfind.
  destruct (find_index (fun f => String.eqb (feature_key f) key) fs) as [i|].
  - destruct Hfind as [Hi [f Hf]]. run. rewrite Hi, Hf. run.
    repeat split; reflexivity.
  - rewrite Hfind. unfold _is_core_feature, core_features. simpl existsb.
    rewrite orb_false_r, !orb_assoc.
    destruct (ALLOW_UNLICENSED_CORE_FEATURES settings); simpl.
    + destruct (_ || _ || _ || _ || _); repeat split; reflexivity.
    + repeat split; reflexivity.
Qed.

(** ** Activation, step by step *)

Lemma insert_as_alter {A} (g : A -> A) (l : list A) (i : nat) (x : A) :
  l !! i = Some x -> <[i := g x]> l = alter g i l.
Proof.
  revert i. induction l as [|y l IH]; intros [|i] H; simpl in *; try discriminate.
  - injection H as ->. reflexivity.
  - f_equal. apply IH. exact H.
Qed.

Lemma existsb_key_map {A} (key_of : A -> string) (k : string) (l : list A) :
  existsb (String.eqb k) (map key_of l) = existsb (fun x => String.eqb (key_of x) k) l.
Proof.
  induction l as [|x l IH]; simpl; [reflexivity|].
  rewrite IH, (String.eqb_sym k). reflexivity.
Qed.

Lemma store_license_cache_fresh now d key (c : LicenseClient) (t : Tables) :
  db c = SessionLocal t ->
  licenseKey d = Some key ->
  _store_license_cache now d c
  = (set_db (SessionLocal (with_licenses (upsert_license now key d (local_license_cache t)) t)) c,
     Return tt).
Proof.
  intros Hdb Hk. destruct c as [s hw inst run reqs]. simpl in Hdb. subst s.
  destruct t as [ls ats fs].
  unfold _store_license_cache, upsert_license. rewrite Hk. run.
  destruct (find_index (fun r => String.eqb (license_key r) key) ls) as [i|] eqn:Hfind.
  - destruct (find_index_lookup _ _ _ Hfind) as (r & Hr & _).
    run. rewrite Hr. run. rewrite !app_nil_r.
    rewrite <- (insert_as_alter (reactivated now d) ls i r Hr). reflexivity.
  - run. unfold flush_ok. cbn.
    rewrite existsb_key_map, (find_index_none _ _ Hfind). run.
    rewrite !app_nil_r. reflexivity.
Qed.

Lemma store_license_cache_no_key now d (c : LicenseClient) :
  licenseKey d = None ->
  _store_license_cache now d c = (c, Raise (Exception "'licenseKey'")).
Proof. intros Hk. unfold _store_license_cache. rewrite Hk. reflexivity. Qed.

Arguments sync_feature_flag : simpl never.

Lemma sync_feature_flag_run now key (c : LicenseClient) :
  inactive (db c) = false ->
  sync_feature_flag now key c
  = (let st := sync_step now (local_feature_flags (rows (db c)),
                             local_feature_flags (pending (db c))) key in
     set_db {| persisted := persisted (db c);
               rows := with_flags (fst st) (rows (db c));
               pending := with_flags (snd st) (pending (db c));
               inactive := false |} c,
     Return tt).
Proof.
  intros Hi. destruct c as [[p r pd ia] hw inst run reqs]. simpl in Hi. subst ia.
  destruct r as [ls ats fs], pd as [pls pats pfs].
  unfold sync_feature_flag, sync_step. run.
  destruct (find_index (fun f => String.eqb (feature_key f) key) fs) as [i|] eqn:Hfind.
  - destruct (find_index_lookup _ _ _ Hfind) as (f & Hf & _).
    run. rewrite Hf. run.
    rewrite <- (insert_as_alter (relicensed now) fs i f Hf). reflexivity.
  - run. reflexivity.
Qed.

Lemma sync_loop_run now keys : forall c : LicenseClient,
  inactive (db c) = false ->
  for_each keys (sync_feature_flag now) c
  = (let st := sync_loop now keys (local_feature_flags (rows (db c)))
                         (local_feature_flags (pending (db c))) in
     set_db {| persisted := persisted (db c);
               rows := with_flags (fst st) (rows (db c));
               pending := with_flags (snd st) (pending (db c));
               inactive := false |} c,
     Return tt).
Proof.
  induction keys as [|key keys IH]; intros c Hi.
  - destruct c as [[p r pd ia] hw inst run reqs]. simpl in Hi. subst ia.
    destruct r, pd. reflexivity.
  - simpl for_each. unfold bind at 1. rewrite (sync_feature_flag_run now key c Hi).
    cbv zeta. rewrite IH by reflexivity.
    destruct c as [[p r pd ia] hw inst run reqs]. simpl in Hi. subst ia.
    destruct r as [ls ats fs], pd as [pls pats pfs].
    unfold sync_loop. simpl.
    destruct (sync_step now (fs, pfs) key) as [fs' pfs']. reflexivity.
Qed.

Lemma sync_feature_flags_fresh now d keys (c : LicenseClient) (t : Tables) :
  db c = SessionLocal t ->
  feature_keys d = Some keys ->
  _sync_feature_flags now d c
  = if sync_flush_ok now keys t then
      (set_db (SessionLocal
                 (with_flags (fst (synced now keys t) ++ snd (synced now keys t)) t)) c,
       Return tt)
    else
      (set_db {| persisted := t;
                 rows := with_flags (fst (synced now keys t)) t;
                 pending := with_flags (snd (synced now keys t)) no_tables;
                 inactive := true |} c,
       Raise (Exception "IntegrityError")).
Proof.
  intros Hdb Hkeys. destruct c as [s hw inst run reqs]. simpl in Hdb. subst s.
  destruct t as [ls ats fs].
  unfold _sync_feature_flags, sync_flush_ok, synced.
  assert (Hret : match enabledFeatures d with
                 | FeaturesAbsent => ret []
                 | FeaturesList keys0 => ret keys0
                 | FeaturesNotIterable => raise (Exception "object is not iterable")
                 end = ret keys).
  { unfold feature_keys in Hkeys. destruct (enabledFeatures d); congruence. }
  rewrite Hret. clear Hret.
  unfold bind at 1. unfold update_flags_unlicensed. run.
  rewrite sync_loop_run by reflexivity. run.
  destruct (sync_loop now keys (map unlicensed fs) []) as [fs' ps'] eqn:Hloop.
  unfold flush_ok. cbn.
  destruct (unique_insert (map feature_key fs') (map feature_key ps')); run.
  - rewrite !app_nil_r. reflexivity.
  - reflexivity.
Qed.

Lemma sync_feature_flags_not_iterable now d (c : LicenseClient) (t : Tables) :
  db c = SessionLocal t ->
  feature_keys d = None ->
  _sync_feature_flags now d c
  = (set_db {| persisted := t; rows := reset_flags t;
               pending := no_tables; inactive := false |} c,
     Raise (Exception "object is not iterable")).
Proof.
  intros Hdb Hkeys. destruct c as [s hw inst run reqs]. simpl in Hdb. subst s.
  destruct t as [ls ats fs].
  unfold feature_keys in Hkeys. unfold _sync_feature_flags, reset_flags.
  destruct (enabledFeatures d); try discriminate. run. reflexivity.
Qed.

Arguments _store_license_cache : simpl never.
Arguments _sync_feature_flags : simpl never.

Lemma activate_license_request now hw inst key response (t : Tables) :
  let out := activate_license now key response (new_client hw inst t) in
  (database out, snd out) = activation now hw key response t.
Proof.
  cbv zeta. unfold database, new_client. destruct t as [ls ats fs].
  destruct response as [e|e|success data error];
    unfold activate_license, activation, local_failure.
  - run. erewrite log_validation_attempt_fresh by reflexivity. reflexivity.
  - run. erewrite log_validation_attempt_fresh by reflexivity. reflexivity.
  - destruct success.
    + destruct data as [d|].
      * destruct (licenseKey d) as [k|] eqn:Hk.
        -- run.
           erewrite (store_license_cache_fresh now d k) by (reflexivity || exact Hk).
           run.
           destruct (feature_keys d) as [keys|] eqn:Hkeys.
           ++ erewrite (sync_feature_flags_fresh now d keys)
                by (reflexivity || exact Hkeys).
              run.
              match goal with
              | |- context [sync_flush_ok ?n ?ks ?tt] =>
                  destruct (sync_flush_ok n ks tt)
              end.
              ** run. unfold _start_heartbeat. run.
                 erewrite log_validation_attempt_fresh by reflexivity.
                 reflexivity.
              ** run.
                 match goal with
                 | |- context [_log_validation_attempt ?n ?k ?r ?e ?c] =>
                     destruct (log_validation_attempt_inactive n k r e c eq_refl)
                       as [Hraise Hkeep];
                     destruct (_log_validation_attempt n k r e c) as [c' o]
                 end.
                 simpl in Hraise, Hkeep. subst o. simpl. rewrite Hkeep. reflexivity.
           ++ erewrite (sync_feature_flags_not_iterable now d)
                by (reflexivity || exact Hkeys).
              run. rewrite log_validation_attempt_ok by reflexivity. reflexivity.
        -- run. rewrite (store_license_cache_no_key now d _ Hk).
           erewrite log_validation_attempt_fresh by reflexivity. reflexivity.
      * run. erewrite log_validation_attempt_fresh by reflexivity. reflexivity.
    + destruct error as [|m|]; run.
      * reflexivity.
      * reflexivity.
      * erewrite log_validation_attempt_fresh by reflexivity. reflexivity.
Qed.

Lemma activate_license_database now hw inst key response (t : Tables) :
  database (activate_license now key response (new_client hw inst t))
  = fst (activation now hw key response t).
Proof. rewrite <- (activate_license_request now hw inst). reflexivity. Qed.

Lemma activate_license_outcome now hw inst key response (t : Tables) :
  snd (activate_license now key response (new_client hw inst t))
  = snd (activation now hw key response t).
Proof. rewrite <- (activate_license_request now hw inst). reflexivity. Qed.

(** ** The tables after an activation *)

Lemma find_index_alter {A} (p : A -> bool) (g : A -> A) (l : list A) (i : nat) :
  (forall x, p (g x) = p x) ->
  find_index p (alter g i l) = find_index p l.
Proof.
  intros Hg. revert i. induction l as [|y l IH]; intros [|i]; try reflexivity.
  - change (alter g 0%nat (y :: l)) with (g y :: l). simpl. rewrite Hg. reflexivity.
  - change (alter g (S i) (y :: l)) with (y :: alter g i l). simpl.
    rewrite IH. reflexivity.
Qed.

Lemma find_index_app_last {A} (p : A -> bool) (l : list A) (x : A) :
  p x = true -> exists i, find_index p (l ++ [x]) = Some i.
Proof.
  intros Hx. induction l as [|y l [i IH]]; simpl.
  - rewrite Hx. exists 0%nat. reflexivity.
  - destruct (p y); [exists 0%nat; reflexivity|]. rewrite IH. exists (S i). reflexivity.
Qed.

Lemma upsert_license_present now key d ls :
  exists i, find_index (fun r => String.eqb (license_key r) key) (upsert_license now key d ls)
            = Some i.
Proof.
  unfold upsert_license.
  destruct (find_index (fun r => String.eqb (license_key r) key) ls) as [i|] eqn:Hfind.
  - exists i. rewrite find_index_alter; [exact Hfind | reflexivity].
  - apply find_index_app_last. simpl. apply String.eqb_refl.
Qed.

Lemma upsert_license_again now key d ls i :
  find_index (fun r => String.eqb (license_key r) key) ls = Some i ->
  upsert_license now key d ls = alter (reactivated now d) i ls.
Proof. intros Hfind. unfold upsert_license. rewrite Hfind. reflexivity. Qed.

(** What a returned activation tells about the answer and about the database. *)
Lemma activation_accepted now hw key response (t : Tables) d m :
  snd (activation now hw key response t) = Return (Activated d m) ->
  exists k keys,
    licenseKey d = Some k
    /\ feature_keys d = Some keys
    /\ fst (activation now hw key response t)
       = logged [attempt now hw key "success" None]
           (with_flags
              (fst (synced now keys
                      (with_licenses (upsert_license now k d (local_license_cache t)) t))
               ++ snd (synced now keys
                         (with_licenses (upsert_license now k d (local_license_cache t)) t)))
              (with_licenses (upsert_license now k d (local_license_cache t)) t)).
Proof.
  unfold activation, local_failure.
  destruct response as [e|e|[] [d'|] [|em|]]; simpl; try discriminate;
    destruct (licenseKey d') as [k|] eqn:Hk; simpl; try discriminate;
    destruct (feature_keys d') as [keys|] eqn:Hkeys; simpl; try discriminate;
    destruct (sync_flush_ok now keys _); simpl; try discriminate;
    intros H; injection H as <- <-; exists k, keys; repeat split; assumption.
Qed.

Lemma activate_license_accepted now hw inst key response (t : Tables) d m :
  let out := activate_license now key response (new_client hw inst t) in
  snd out = Return (Activated d m) ->
  exists k keys,
    licenseKey d = Some k
    /\ feature_keys d = Some keys
    /\ local_license_cache (database out) = upsert_license now k d (local_license_cache t)
    /\ local_license_validation_attempts (database out)
       = (local_license_validation_attempts t ++ [attempt now hw key "success" None])%list
    /\ local_feature_flags (database out)
       = (fst (synced now keys t) ++ snd (synced now keys t))%list.
Proof.
  cbv zeta. intros Hout.
  pose proof (activate_license_request now hw inst key response t) as Hreq.
  cbv zeta in Hreq.
  assert (Hsnd : snd (activation now hw key response t) = Return (Activated d m))
    by (rewrite <- Hreq; exact Hout).
  destruct (activation_accepted now hw key response t d m Hsnd) as (k & keys & Hk & Hks & Hdb).
  exists k, keys. rewrite <- Hreq in Hdb. simpl in Hdb. rewrite Hdb.
  repeat split; try assumption; reflexivity.
Qed.

(** ** One cached license *)

(** Two accepted activations with different keys, on an installation without
    a license: the table then holds two rows, and the cached license that
    [_get_cached_license] reads is still the first one. *)
Lemma second_key_adds_a_row :
  let out1 := activate_license 0 "FOX-A" (accepts "FOX-A" (FeaturesList []))
                (new_client "hw" "inst" no_tables) in
  let out2 := activate_license 10 "FOX-B" (accepts "FOX-B" (FeaturesList []))
                (new_client "hw" "inst" (database out1)) in
  snd out1 = Return (Activated (sample_payload "FOX-A" (FeaturesList []))
                       "License activated successfully")
  /\ snd out2 = Return (Activated (sample_payload "FOX-B" (FeaturesList []))
                          "License activated successfully")
  /\ map license_key (local_license_cache (database out2)) = ["FOX-A"; "FOX-B"]
  /\ ~ (length (local_license_cache (database out2)) <= 1)%nat.
Proof.
  vm_compute. repeat split. intros H. inversion H as [|? H']. inversion H'.
Qed.

(** C1, as the code has it: the cache is keyed by the license key.  Two
    successful activations whose accepted licenses carry the same
    [licenseKey]: the second leaves the number of rows as it was, and on an
    installation that had no cached license the table then holds exactly one
    row, with the second payload and its own thirty days of validity. *)
Theorem reactivation_overwrites hw inst (t : Tables) now1 now2 key1 key2 response1 response2
    d1 d2 m1 m2 k :
  let out1 := activate_license now1 key1 response1 (new_client hw inst t) in
  let out2 := activate_license now2 key2 response2 (new_client hw inst (database out1)) in
  snd out1 = Return (Activated d1 m1) ->
  snd out2 = Return (Activated d2 m2) ->
  licenseKey d1 = Some k ->
  licenseKey d2 = Some k ->
  length (local_license_cache (database out2)) = length (local_license_cache (database out1))
  /\ (local_license_cache t = [] ->
      local_license_cache (database out2) = [reactivated now2 d2 (activated now1 k d1)]).
Proof.
  cbv zeta. intros H1 H2 Hk1 Hk2.
  destruct (activate_license_accepted now1 hw inst key1 response1 t d1 m1 H1)
    as (k1 & keys1 & Hk1' & _ & Hl1 & _).
  destruct (activate_license_accepted now2 hw inst key2 response2 _ d2 m2 H2)
    as (k2 & keys2 & Hk2' & _ & Hl2 & _).
  rewrite Hk1 in Hk1'. injection Hk1' as <-.
  rewrite Hk2 in Hk2'. injection Hk2' as <-.
  rewrite Hl2, Hl1.
  destruct (upsert_license_present now1 k d1 (local_license_cache t)) as [i Hi].
  rewrite (upsert_license_again now2 k d2 _ i Hi). split.
  - apply length_alter.
  - intros Hempty. rewrite Hempty in *. unfold upsert_license in *. simpl in *.
    rewrite String.eqb_refl in Hi. injection Hi as <-. reflexivity.
Qed.

Lemma reactivation_overwrites_witness :
  let out1 := activate_license 0 "FOX-A" (accepts "FOX-A" (FeaturesList []))
                (new_client "hw" "inst" no_tables) in
  let out2 := activate_license 10 "FOX-A" (accepts "FOX-A" (FeaturesList ["module.x"]))
                (new_client "hw" "inst" (database out1)) in
  length (local_license_cache (database out2)) = length (local_license_cache (database out1))
  /\ local_license_cache (database out2)
     = [reactivated 10 (sample_payload "FOX-A" (FeaturesList ["module.x"]))
          (activated 0 "FOX-A" (sample_payload "FOX-A" (FeaturesList [])))].
Proof.
  destruct (reactivation_overwrites "hw" "inst" no_tables 0 10 "FOX-A" "FOX-A"
              (accepts "FOX-A" (FeaturesList []))
              (accepts "FOX-A" (FeaturesList ["module.x"]))
              (sample_payload "FOX-A" (FeaturesList []))
              (sample_payload "FOX-A" (FeaturesList ["module.x"]))
              "License activated successfully" "License activated successfully" "FOX-A")
    as [Hlength Hone].
  - vm_compute. reflexivity.
  - vm_compute. reflexivity.
  - reflexivity.
  - reflexivity.
  - split; [exact Hlength | exact (Hone eq_refl)].
Defined.

(** ** The feature flags after a sync *)

Lemma in_alter_inv {A} (g : A -> A) (l : list A) : forall (i : nat) (y : A),
  In y (alter g i l) -> In y l \/ exists x, l !! i = Some x /\ y = g x.
Proof.
  induction l as [|a l IH]; intros [|i] y Hy; try (left; exact Hy).
  - change (alter g 0%nat (a :: l)) with (g a :: l) in Hy. destruct Hy as [<-|Hy].
    + right. exists a. split; reflexivity.
    + left. right. exact Hy.
  - change (alter g (S i) (a :: l)) with (a :: alter g i l) in Hy. destruct Hy as [<-|Hy].
    + left. left. reflexivity.
    + destruct (IH i y Hy) as [Hin|(x & Hx & ->)].
      * left. right. exact Hin.
      * right. exists x. split; [exact Hx | reflexivity].
Qed.

Lemma in_alter {A} (g : A -> A) (l : list A) : forall (i : nat) (x : A),
  In x l -> In x (alter g i l) \/ In (g x) (alter g i l).
Proof.
  induction l as [|a l IH]; intros [|i] x Hx; try (left; exact Hx).
  - change (alter g 0%nat (a :: l)) with (g a :: l). destruct Hx as [<-|Hx].
    + right. left. reflexivity.
    + left. right. exact Hx.
  - change (alter g (S i) (a :: l)) with (a :: alter g i l). destruct Hx as [<-|Hx].
    + left. left. reflexivity.
    + destruct (IH i x Hx) as [H|H]; [left|right]; right; exact H.
Qed.

Lemma in_alter_at {A} (g : A -> A) (l : list A) : forall (i : nat) (x : A),
  l !! i = Some x -> In (g x) (alter g i l).
Proof.
  induction l as [|a l IH]; intros [|i] x Hx; simpl in Hx; try discriminate.
  - injection Hx as ->. left. reflexivity.
  - change (alter g (S i) (a :: l)) with (a :: alter g i l). right. apply IH. exact Hx.
Qed.

Lemma sync_step_agree now done st key :
  flags_agree done (fst st ++ snd st) ->
  flags_agree (done ++ [key])
    (fst (sync_step now st key) ++ snd (sync_step now st key)).
Proof.
  destruct st as [fs ps]. intros [Hb Hc]. simpl in Hb, Hc.
  unfold sync_step. simpl fst. simpl snd.
  destruct (find_index (fun f => String.eqb (feature_key f) key) fs) as [i|] eqn:Hfind;
    simpl fst; simpl snd.
  - destruct (find_index_lookup _ _ _ Hfind) as (x & Hx & Hkey).
    apply String.eqb_eq in Hkey. split.
    + intros f Hf Hlic. apply in_app_iff. apply in_app_iff in Hf.
      destruct Hf as [Hf|Hf].
      * destruct (in_alter_inv _ _ _ _ Hf) as [Hin|(x' & Hx' & ->)].
        -- left. apply Hb; [apply in_app_iff; left; exact Hin | exact Hlic].
        -- right. rewrite Hx in Hx'. injection Hx' as <-. left. symmetry. exact Hkey.
      * left. apply Hb; [apply in_app_iff; right; exact Hf | exact Hlic].
    + intros k Hk. apply in_app_iff in Hk. destruct Hk as [Hk|[<-|[]]].
      * destruct (Hc k Hk) as (f & Hf & Hfk & Hlic). apply in_app_iff in Hf.
        destruct Hf as [Hf|Hf].
        -- destruct (in_alter (relicensed now) fs i f Hf) as [H|H].
           ++ exists f. split; [apply in_app_iff; left; exact H|]. split; assumption.
           ++ exists (relicensed now f).
              split; [apply in_app_iff; left; exact H|]. split; [exact Hfk | reflexivity].
        -- exists f. split; [apply in_app_iff; right; exact Hf|]. split; assumption.
      * exists (relicensed now x).
        split; [apply in_app_iff; left; apply in_alter_at; exact Hx|].
        split; [exact Hkey | reflexivity].
  - split.
    + intros f Hf Hlic. apply in_app_iff. rewrite app_assoc in Hf.
      apply in_app_iff in Hf. destruct Hf as [Hf|[<-|[]]].
      * left. apply Hb; assumption.
      * right. left. reflexivity.
    + intros k Hk. apply in_app_iff in Hk. rewrite app_assoc.
      destruct Hk as [Hk|[<-|[]]].
      * destruct (Hc k Hk) as (f & Hf & Hfk & Hlic).
        exists f. split; [apply in_app_iff; left; exact Hf|]. split; assumption.
      * exists (new_flag now key).
        split; [apply in_app_iff; right; left; reflexivity|]. split; reflexivity.
Qed.

Lemma sync_loop_agree now keys : forall done fs ps,
  flags_agree done (fs ++ ps) ->
  flags_agree (done ++ keys)
    (fst (sync_loop now keys fs ps) ++ snd (sync_loop now keys fs ps)).
Proof.
  unfold sync_loop.
  induction keys as [|key keys IH]; intros done fs ps Hagree; simpl.
  - rewrite app_nil_r. exact Hagree.
  - pose proof (sync_step_agree now done (fs, ps) key Hagree) as Hstep.
    destruct (sync_step now (fs, ps) key) as [fs' ps'].
    specialize (IH (done ++ [key])%list fs' ps' Hstep).
    rewrite <- app_assoc in IH. exact IH.
Qed.

Lemma synced_agree now keys (t : Tables) :
  flags_agree keys (fst (synced now keys t) ++ snd (synced now keys t)).
Proof.
  unfold synced.
  apply (sync_loop_agree now keys [] (map unlicensed (local_feature_flags t)) []).
  split.
  - intros f Hf Hlic. rewrite app_nil_r in Hf. apply in_map_iff in Hf.
    destruct Hf as (x & <- & _). discriminate.
  - intros k [].
Qed.

Lemma upsert_license_row now key d ls :
  exists r,
    In r (upsert_license now key d ls)
    /\ license_key r = key
    /\ license_data r = d
    /\ valid_until r = now + days 30
    /\ is_valid r = true.
Proof.
  unfold upsert_license.
  destruct (find_index (fun r => String.eqb (license_key r) key) ls) as [i|] eqn:Hfind.
  - destruct (find_index_lookup _ _ _ Hfind) as (x & Hx & Hkey).
    apply String.eqb_eq in Hkey.
    exists (reactivated now d x). split; [apply in_alter_at; exact Hx|].
    repeat split; try reflexivity. exact Hkey.
  - exists (activated now key d). split; [apply in_app_iff; right; left; reflexivity|].
    repeat split; reflexivity.
Qed.

(** ** Activation is not atomic *)

(** An accepted activation whose [enabledFeatures] cannot be iterated, on an
    installation with one licensed flag and no cached license: the call
    reports a failure, and yet the license row is stored and the flag has
    lost its license. *)
Lemma activation_partly_applied :
  let t := {| local_license_cache := [];
              local_license_validation_attempts := [];
              local_feature_flags := [sample_flag "module.analytics" true] |} in
  let out := activate_license 0 "FOX-A" (accepts "FOX-A" FeaturesNotIterable)
               (new_client "hw" "inst" t) in
  snd out = Return (ActivationFailed "Activation failed: object is not iterable")
  /\ local_license_cache (database out)
     = [activated 0 "FOX-A" (sample_payload "FOX-A" FeaturesNotIterable)]
  /\ local_license_cache (database out) <> local_license_cache t
  /\ local_feature_flags (database out) = [sample_flag "module.analytics" false]
  /\ local_feature_flags (database out) <> local_feature_flags t.
Proof.
  vm_compute. repeat split; discriminate.
Qed.

(** The same with a well-formed answer: [enabledFeatures] names a new key
    twice.  The second turn of the loop does not see the pending flag of the
    first ([autoflush=False]), the commit of the flags violates the unique
    key and is rolled back, the log entry of the except branch cannot be
    committed either, and the exception leaves [activate_license]: the
    license row is stored, the flags are not synced, nothing is logged. *)
Lemma activation_stops_after_the_cache :
  let t := {| local_license_cache := [];
              local_license_validation_attempts := [];
              local_feature_flags := [sample_flag "module.analytics" true] |} in
  let out := activate_license 0 "FOX-A"
               (accepts "FOX-A" (FeaturesList ["module.x"; "module.x"]))
               (new_client "hw" "inst" t) in
  snd out = Raise (Exception "PendingRollbackError")
  /\ map license_key (local_license_cache (database out)) = ["FOX-A"]
  /\ local_feature_flags (database out) = local_feature_flags t
  /\ local_license_validation_attempts (database out) = [].
Proof.
  vm_compute. repeat split.
Qed.

(** C2, as the code has it.  When the transport fails or the authority
    rejects the activation, the call reports a failure and the cached
    licenses and the feature flags in the database are what they were.  When
    the call reports success, the three mutations have all been applied: the
    license row is upserted under the returned key with thirty days of
    validity, every flag outside [enabledFeatures] is unlicensed, and every
    key of [enabledFeatures] has a licensed flag. *)
Theorem activation_failure_and_success hw inst (t : Tables) now key :
  (forall e,
      let out := activate_license now key (ActivateHTTPError e) (new_client hw inst t) in
      (exists m, snd out = Return (ActivationFailed m))
      /\ local_license_cache (database out) = local_license_cache t
      /\ local_feature_flags (database out) = local_feature_flags t)
  /\ (forall data error,
         let out := activate_license now key (ActivateBody false data error)
                      (new_client hw inst t) in
         (exists m, snd out = Return (ActivationFailed m))
         /\ local_license_cache (database out) = local_license_cache t
         /\ local_feature_flags (database out) = local_feature_flags t)
  /\ (forall response d m,
         let out := activate_license now key response (new_client hw inst t) in
         snd out = Return (Activated d m) ->
         exists k keys,
           licenseKey d = Some k
           /\ feature_keys d = Some keys
           /\ local_license_cache (database out)
              = upsert_license now k d (local_license_cache t)
           /\ (exists r,
                  In r (local_license_cache (database out))
                  /\ license_key r = k
                  /\ license_data r = d
                  /\ valid_until r = now + days 30)
           /\ (forall f, In f (local_feature_flags (database out)) ->
                         licensed f = true -> In (feature_key f) keys)
           /\ (forall k', In k' keys ->
                 exists f, In f (local_feature_flags (database out))
                           /\ feature_key f = k' /\ licensed f = true)).
Proof.
  split; [|split].
  - intros e. cbv zeta.
    rewrite activate_license_database, activate_license_outcome.
    split; [eexists; reflexivity | split; reflexivity].
  - intros data error. cbv zeta.
    rewrite activate_license_database, activate_license_outcome.
    destruct error as [|em|];
      (split; [eexists; reflexivity | split; reflexivity]).
  - intros response d m. cbv zeta. intros Hout.
    destruct (activate_license_accepted now hw inst key response t d m Hout)
      as (k & keys & Hk & Hkeys & Hl & _ & Hflags).
    exists k, keys. rewrite Hl, Hflags.
    destruct (upsert_license_row now k d (local_license_cache t))
      as (r & Hr & Hrk & Hrd & Hrv & _).
    destruct (synced_agree now keys t) as [Hb Hc].
    repeat split; try assumption.
    exists r. repeat split; assumption.
Qed.

Lemma activation_failure_and_success_witness :
  let t := {| local_license_cache := [];
              local_license_validation_attempts := [];
              local_feature_flags := [sample_flag "module.analytics" true] |} in
  let out := activate_license 0 "FOX-A" (accepts "FOX-A" (FeaturesList ["module.x"]))
               (new_client "hw" "inst" t) in
  exists k keys,
    licenseKey (sample_payload "FOX-A" (FeaturesList ["module.x"])) = Some k
    /\ feature_keys (sample_payload "FOX-A" (FeaturesList ["module.x"])) = Some keys
    /\ local_license_cache (database out)
       = upsert_license 0 k (sample_payload "FOX-A" (FeaturesList ["module.x"]))
           (local_license_cache t)
    /\ (exists r,
           In r (local_license_cache (database out))
           /\ license_key r = k
           /\ license_data r = sample_payload "FOX-A" (FeaturesList ["module.x"])
           /\ valid_until r = 0 + days 30)
    /\ (forall f, In f (local_feature_flags (database out)) ->
                  licensed f = true -> In (feature_key f) keys)
    /\ (forall k', In k' keys ->
          exists f, In f (local_feature_flags (database out))
                    /\ feature_key f = k' /\ licensed f = true).
Proof.
  destruct (activation_failure_and_success "hw" "inst"
              {| local_license_cache := [];
                 local_license_validation_attempts := [];
                 local_feature_flags := [sample_flag "module.analytics" true] |}
              0 "FOX-A") as (_ & _ & Haccepted).
  apply (Haccepted (accepts "FOX-A" (FeaturesList ["module.x"]))
           (sample_payload "FOX-A" (FeaturesList ["module.x"]))
           "License activated successfully").
  vm_compute. reflexivity.
Defined.

(** ** A validation that the authority confirms *)

Lemma validate_license_confirmed settings now d l (c : LicenseClient) (t : Tables) r rest :
  db c = SessionLocal t ->
  local_license_cache t = r :: rest ->
  isValid d = Some true ->
  license d = Some l ->
  validate_license settings now (ValidateBody true (Some d)) c
  = (set_db (SessionLocal
               (logged [attempt now (hardware_id c) (license_key r) "success" None]
                  (with_licenses (validated now r :: rest) t)))
            (posted "/licenses/validate" c),
     Return (valid_online l)).
Proof.
  intros Hdb Hl Hv Hlic.
  destruct c as [s hw inst run reqs]. simpl in Hdb. subst s.
  destruct t as [ls ats fs]. simpl in Hl. subst ls.
  unfold validate_license, _get_cached_license, _update_license_cache, posted.
  run. rewrite Hv. run.
  erewrite log_validation_attempt_fresh by reflexivity.
  rewrite Hlic. run. rewrite !app_nil_r. reflexivity.
Qed.

(** The authority confirms, but the body has no [license] entry: the record
    is updated, a success is logged, building the answer raises, a failure
    is logged, and the grace-period policy decides. *)
Lemma validate_license_confirmed_without_license settings now d (c : LicenseClient)
    (t : Tables) r rest :
  db c = SessionLocal t ->
  local_license_cache t = r :: rest ->
  isValid d = Some true ->
  license d = None ->
  validate_license settings now (ValidateBody true (Some d)) c
  = _check_grace_period settings now 0
      (set_db (SessionLocal
                 (logged [attempt now (hardware_id c) (license_key r) "success" None;
                          attempt now (hardware_id c) (license_key r) "failed"
                            (Some "'license'")]
                    (with_licenses (validated now r :: rest) t)))
              (posted "/licenses/validate" c)).
Proof.
  intros Hdb Hl Hv Hlic.
  destruct c as [s hw inst run reqs]. simpl in Hdb. subst s.
  destruct t as [ls ats fs]. simpl in Hl. subst ls.
  unfold validate_license, _get_cached_license, _update_license_cache, posted.
  run. rewrite Hv. run.
  erewrite log_validation_attempt_fresh by reflexivity.
  rewrite Hlic. run.
  erewrite log_validation_attempt_fresh by reflexivity.
  run. unfold logged. run. rewrite !app_nil_r, <- !app_assoc. reflexivity.
Qed.

Lemma validate_license_no_license settings now response (c : LicenseClient) (t : Tables) :
  db c = SessionLocal t ->
  local_license_cache t = [] ->
  validate_license settings now response c
  = (c, Return {| valid := false; validated_license := None; inGracePeriod := None;
                  validUntil := None; gracePeriodExpires := None;
                  reason := Some "no_license"; message := None |}).
Proof.
  intros Hdb Hl.
  destruct c as [s hw inst run reqs]. simpl in Hdb. subst s.
  destruct t as [ls ats fs]. simpl in Hl. subst ls.
  unfold validate_license, _get_cached_license. run. reflexivity.
Qed.

(** ** What an activation and a failed validation append *)

Lemma activation_appends now hw key response (t : Tables) :
  exists new,
    local_license_validation_attempts (fst (activation now hw key response t))
    = (local_license_validation_attempts t ++ new)%list
    /\ Forall recorded new.
Proof.
  assert (Hnone : forall t' : Tables,
             local_license_validation_attempts t' = local_license_validation_attempts t ->
             exists new,
               local_license_validation_attempts t'
               = (local_license_validation_attempts t ++ new)%list
               /\ Forall recorded new).
  { intros t' Heq. exists []. rewrite app_nil_r. split; [exact Heq | constructor]. }
  assert (Hone : forall (t' : Tables) res err,
             local_license_validation_attempts t' = local_license_validation_attempts t ->
             recorded (attempt now hw key res err) ->
             exists new,
               local_license_validation_attempts (logged [attempt now hw key res err] t')
               = (local_license_validation_attempts t ++ new)%list
               /\ Forall recorded new).
  { intros t' res err Heq Hrec. exists [attempt now hw key res err].
    simpl. rewrite Heq. split; [reflexivity | constructor; [exact Hrec | constructor]]. }
  assert (Hfailed : forall err, recorded (attempt now hw key "failed" err)).
  { intros err. right. left. reflexivity. }
  unfold activation, local_failure.
  destruct response as [e|e|[] [d|] [|em|]];
    try destruct (licenseKey d) as [k|];
    try destruct (feature_keys d) as [keys|];
    try destruct (sync_flush_ok now keys _);
    first [ apply Hnone; reflexivity
          | apply Hone; [reflexivity | first [apply Hfailed | left; reflexivity]] ].
Qed.

Lemma failure_attempts_recorded now hw key response :
  Forall recorded (failure_attempts now hw key response).
Proof.
  assert (Hoffline : forall err, recorded (attempt now hw key "offline" err)).
  { intros err. right. right. left. reflexivity. }
  assert (Hfailed : forall err, recorded (attempt now hw key "failed" err)).
  { intros err. right. left. reflexivity. }
  destruct response as [e|e|[] [d|]]; simpl.
  - constructor; [apply Hoffline | constructor].
  - constructor; [apply Hfailed | constructor].
  - constructor.
  - constructor; [apply Hfailed | constructor].
  - constructor.
  - constructor.
Qed.

(** ** Re-activation and the grace flag *)

(** C9 on the code.  An installation activates FOX-1, loses the authority
    after its thirty days, goes through its grace period to the terminal
    expiry, and is then activated again with the same key.  The activation
    succeeds, and the stored record is still in grace period, with the old
    grace window: the branch of [_store_license_cache] for an existing row
    does not reset [in_grace_period], while the branch that inserts a row
    and [_update_license_cache] do.  Once the new thirty days are over, the
    first validation that is not confirmed is refused at once. *)
Lemma reactivation_keeps_grace_flag :
  let down := ValidateHTTPError "timed out" in
  let before :=
    serve_all default_settings "hw" "inst"
      [(0, Activate "FOX-1" (accepts "FOX-1" (FeaturesList [])));
       (days 30 + 100, Validate down);
       (days 30 + 100 + hours 72, Validate down)]
      no_tables in
  let out := activate_license (days 34) "FOX-1" (accepts "FOX-1" (FeaturesList []))
               (new_client "hw" "inst" before) in
  (exists r,
      cached_license_of before = Some r
      /\ valid_until r = days 30
      /\ in_grace_period r = true
      /\ grace_period_expires_at r = Some (days 30 + 100 + hours 72))
  /\ snd out = Return (Activated (sample_payload "FOX-1" (FeaturesList []))
                         "License activated successfully")
  /\ (exists r',
         local_license_cache (database out) = [r']
         /\ license_key r' = "FOX-1"
         /\ valid_until r' = days 34 + days 30
         /\ in_grace_period r' = true
         /\ grace_period_started_at r' = Some (days 30 + 100)
         /\ grace_period_expires_at r' = Some (days 30 + 100 + hours 72))
  /\ snd (validate_license default_settings (days 64) down
            (new_client "hw" "inst" (database out)))
     = Return grace_period_expired.
Proof.
  vm_compute. split; [|split; [reflexivity|split; [|reflexivity]]].
  - eexists. repeat split.
  - eexists. repeat split.
Qed.

(** ** The operations of the service, and the grace timestamps *)

Lemma grace_kept_refl r : grace_kept r r.
Proof. repeat split; intros H; exact H. Qed.

Lemma grace_kept_trans r1 r2 r3 : grace_kept r1 r2 -> grace_kept r2 r3 -> grace_kept r1 r3.
Proof.
  intros (Hk & Hs & He) (Hk' & Hs' & He'). repeat split.
  - rewrite Hk'. exact Hk.
  - intros H. apply Hs', Hs, H.
  - intros H. apply He', He, H.
Qed.

Lemma keeps_grace_timestamps_refl (t t' : Tables) :
  local_license_cache t' = local_license_cache t -> keeps_grace_timestamps t t'.
Proof.
  intros Heq i r Hr. exists r. rewrite Heq. split; [exact Hr | apply grace_kept_refl].
Qed.

Lemma keeps_grace_timestamps_trans (t1 t2 t3 : Tables) :
  keeps_grace_timestamps t1 t2 -> keeps_grace_timestamps t2 t3 ->
  keeps_grace_timestamps t1 t3.
Proof.
  intros H12 H23 i r Hr.
  destruct (H12 i r Hr) as (r2 & Hr2 & Hk2).
  destruct (H23 i r2 Hr2) as (r3 & Hr3 & Hk3).
  exists r3. split; [exact Hr3 | eapply grace_kept_trans; eassumption].
Qed.

Lemma keeps_grace_timestamps_head (t t' : Tables) r r' rest :
  local_license_cache t = r :: rest ->
  local_license_cache t' = r' :: rest ->
  grace_kept r r' ->
  keeps_grace_timestamps t t'.
Proof.
  intros Hl Hl' Hk [|i] x Hx; rewrite Hl in Hx; rewrite Hl'; simpl in *.
  - injection Hx as <-. exists r'. split; [reflexivity | exact Hk].
  - exists x. split; [exact Hx | apply grace_kept_refl].
Qed.

Lemma keeps_grace_timestamps_alter (g : LocalLicenseCache -> LocalLicenseCache)
    (t t' : Tables) (i : nat) :
  (forall r, grace_kept r (g r)) ->
  local_license_cache t' = alter g i (local_license_cache t) ->
  keeps_grace_timestamps t t'.
Proof.
  intros Hg Hl j r Hr. rewrite Hl.
  destruct (decide (i = j)) as [<-|Hne].
  - exists (g r). split; [|apply Hg].
    rewrite list_lookup_alter_eq, Hr. reflexivity.
  - exists r. split; [|apply grace_kept_refl].
    rewrite list_lookup_alter_ne by exact Hne. exact Hr.
Qed.

Lemma keeps_grace_timestamps_app (t t' : Tables) more :
  local_license_cache t' = (local_license_cache t ++ more)%list ->
  keeps_grace_timestamps t t'.
Proof.
  intros Hl i r Hr. exists r. split; [|apply grace_kept_refl].
  rewrite Hl. apply lookup_app_l_Some. exact Hr.
Qed.

Lemma grace_kept_started settings now r : grace_kept r (grace_started settings now r).
Proof. repeat split; intros _; discriminate. Qed.

Lemma grace_kept_validated now r : grace_kept r (validated now r).
Proof. repeat split; intros H; exact H. Qed.

Lemma grace_kept_reactivated now d r : grace_kept r (reactivated now d r).
Proof. repeat split; intros H; exact H. Qed.

Arguments validate_license : simpl never.

Lemma confirms_inv response :
  authority_confirms response = true ->
  exists d, response = ValidateBody true (Some d) /\ isValid d = Some true.
Proof.
  destruct response as [e|e|[] [d|]]; simpl; try discriminate.
  intros H. exists d. split; [reflexivity|].
  destruct (isValid d) as [[]|]; simpl in H; try discriminate. reflexivity.
Qed.

Lemma validate_license_keeps settings hw inst now response (t : Tables) :
  keeps_grace_timestamps t
    (database (validate_license settings now response (new_client hw inst t))).
Proof.
  destruct (local_license_cache t) as [|r rest] eqn:Hl.
  - rewrite (validate_license_no_license settings now response (new_client hw inst t) t
               eq_refl Hl).
    apply keeps_grace_timestamps_refl. reflexivity.
  - destruct (authority_confirms response) eqn:Hc.
    + destruct (confirms_inv response Hc) as (d & -> & Hv).
      destruct (license d) as [l|] eqn:Hlic.
      * rewrite (validate_license_confirmed settings now d l (new_client hw inst t) t r rest
                   eq_refl Hl Hv Hlic).
        eapply keeps_grace_timestamps_head with (r := r) (r' := validated now r) (rest := rest);
          [exact Hl | reflexivity | apply grace_kept_validated].
      * rewrite (validate_license_confirmed_without_license settings now d
                   (new_client hw inst t) t r rest eq_refl Hl Hv Hlic).
        match goal with
        | |- context [_check_grace_period _ _ _ (set_db (SessionLocal ?t2) ?c2)] =>
            destruct (check_grace_period_returns settings now
                        (set_db (SessionLocal t2) c2) t2 (validated now r) rest
                        eq_refl eq_refl) as (r' & res & Heq & Hr')
        end.
        rewrite Heq.
        eapply keeps_grace_timestamps_head with (r := r) (r' := r') (rest := rest);
          [exact Hl | reflexivity | ].
        destruct Hr' as [->| ->].
        -- apply grace_kept_validated.
        -- eapply grace_kept_trans;
             [apply grace_kept_validated | apply grace_kept_started].
    + rewrite (validate_license_failing settings now response (new_client hw inst t) t r rest
                 eq_refl Hl Hc).
      match goal with
      | |- context [_check_grace_period _ _ _ (set_db (SessionLocal ?t2) ?c2)] =>
          destruct (check_grace_period_returns settings now
                      (set_db (SessionLocal t2) c2) t2 r rest eq_refl Hl)
            as (r' & res & Heq & Hr')
      end.
      rewrite Heq.
      eapply keeps_grace_timestamps_head with (r := r) (r' := r') (rest := rest);
        [exact Hl | reflexivity | ].
      destruct Hr' as [->| ->]; [apply grace_kept_refl | apply grace_kept_started].
Qed.

Lemma get_license_status_database settings hw inst now response (t : Tables) :
  database (get_license_status settings now response (new_client hw inst t))
  = database (validate_license settings now response (new_client hw inst t)).
Proof.
  destruct t as [[|r rest] ats fs].
  - erewrite validate_license_no_license by reflexivity.
    reflexivity.
  - unfold get_license_status, _get_cached_license, database. run.
    destruct (validate_license settings now response _) as [c' [v|e]]; run; [|reflexivity].
    destruct (local_license_cache (rows (db c')) !! 0%nat); run; [|reflexivity].
    destruct (valid v); reflexivity.
Qed.

Lemma send_heartbeat_keeps hw inst now response (t : Tables) :
  keeps_grace_timestamps t (database (send_heartbeat now response (new_client hw inst t))).
Proof.
  destruct t as [[|r rest] ats fs].
  - apply keeps_grace_timestamps_refl. unfold send_heartbeat, _get_cached_license. run.
    reflexivity.
  - destruct response as [e|e|code].
    + apply keeps_grace_timestamps_refl. unfold send_heartbeat, _get_cached_license. run.
      reflexivity.
    + apply keeps_grace_timestamps_refl. unfold send_heartbeat, _get_cached_license. run.
      reflexivity.
    + eapply keeps_grace_timestamps_head with (r := r) (rest := rest).
      * reflexivity.
      * unfold send_heartbeat, _get_cached_license, database. run.
        rewrite app_nil_r. reflexivity.
      * repeat split; intros H; exact H.
Qed.

Lemma is_feature_available_reads settings hw inst key (t : Tables) :
  fst (is_feature_available settings key (new_client hw inst t)) = new_client hw inst t.
Proof.
  destruct t as [ls ats fs]. unfold is_feature_available. run.
  destruct (find_index (fun f => String.eqb (feature_key f) key) fs) as [i|] eqn:Hfind.
  - destruct (find_index_lookup _ _ _ Hfind) as (f & Hf & _). run. rewrite Hf. reflexivity.
  - match goal with |- context [if ?b then _ else _] => destruct b end; reflexivity.
Qed.

Lemma activation_licenses now hw key response (t : Tables) :
  local_license_cache (fst (activation now hw key response t)) = local_license_cache t
  \/ exists k d,
       local_license_cache (fst (activation now hw key response t))
       = upsert_license now k d (local_license_cache t).
Proof.
  unfold activation, local_failure.
  destruct response as [e|e|[] [d|] [|em|]]; try (left; reflexivity);
    destruct (licenseKey d) as [k|]; try (left; reflexivity);
    right; exists k, d;
    destruct (feature_keys d) as [keys|]; try reflexivity;
    destruct (sync_flush_ok now keys _); reflexivity.
Qed.

Lemma upsert_license_keeps now k d (t t' : Tables) :
  local_license_cache t' = upsert_license now k d (local_license_cache t) ->
  keeps_grace_timestamps t t'.
Proof.
  unfold upsert_license.
  destruct (find_index (fun r => String.eqb (license_key r) k) (local_license_cache t))
    as [i|]; intros Hl.
  - eapply keeps_grace_timestamps_alter; [|exact Hl]. apply grace_kept_reactivated.
  - eapply keeps_grace_timestamps_app. exact Hl.
Qed.

Lemma serve_keeps settings hw inst now op (t : Tables) :
  keeps_grace_timestamps t (serve settings hw inst now op t).
Proof.
  destruct op as [key response|response|response|key|response]; simpl.
  - rewrite activate_license_database.
    destruct (activation_licenses now hw key response t) as [Heq|(k & d & Heq)].
    + apply keeps_grace_timestamps_refl. exact Heq.
    + eapply upsert_license_keeps. exact Heq.
  - apply validate_license_keeps.
  - apply send_heartbeat_keeps.
  - unfold database. rewrite is_feature_available_reads.
    apply keeps_grace_timestamps_refl. reflexivity.
  - rewrite get_license_status_database. apply validate_license_keeps.
Qed.

Lemma serve_all_keeps settings hw inst calls : forall t : Tables,
  keeps_grace_timestamps t (serve_all settings hw inst calls t).
Proof.
  induction calls as [|[now op] calls IH]; intros t; simpl.
  - apply keeps_grace_timestamps_refl. reflexivity.
  - eapply keeps_grace_timestamps_trans; [apply serve_keeps | apply IH].
Qed.

(** C10. Grace timestamps are sticky.  Whatever requests are served, a
    cached row keeps its place and its key, and a grace timestamp that was
    set on it is still set afterwards.  In particular a confirmed validation
    returns [valid: true, inGracePeriod: false], sets [in_grace_period] to
    false and [last_validated_at] to [now], and leaves
    [grace_period_started_at] and [grace_period_expires_at] as they were, so
    that a record out of grace period can carry the timestamps of an old
    grace window. *)
Theorem grace_timestamps_are_sticky settings hw inst :
  (forall calls (t : Tables) (i : nat) r,
      local_license_cache t !! i = Some r ->
      exists r',
        local_license_cache (serve_all settings hw inst calls t) !! i = Some r'
        /\ license_key r' = license_key r
        /\ (grace_period_started_at r <> None -> grace_period_started_at r' <> None)
        /\ (grace_period_expires_at r <> None -> grace_period_expires_at r' <> None))
  /\ (forall (t : Tables) now r d l,
         cached_license_of t = Some r ->
         isValid d = Some true ->
         license d = Some l ->
         let out := validate_license settings now (ValidateBody true (Some d))
                      (new_client hw inst t) in
         snd out = Return (valid_online l)
         /\ exists r',
              cached_license_of (database out) = Some r'
              /\ in_grace_period r' = false
              /\ last_validated_at r' = Some now
              /\ grace_period_started_at r' = grace_period_started_at r
              /\ grace_period_expires_at r' = grace_period_expires_at r).
Proof.
  split.
  - intros calls t i r Hr.
    destruct (serve_all_keeps settings hw inst calls t i r Hr) as (r' & Hr' & Hk & Hs & He).
    exists r'. repeat split; assumption.
  - intros t now r d l Hc Hv Hlic. cbv zeta.
    destruct (cached_license_cons t r Hc) as (rest & Hl).
    rewrite (validate_license_confirmed settings now d l (new_client hw inst t) t r rest
               eq_refl Hl Hv Hlic).
    split; [reflexivity|].
    exists (validated now r). repeat split; reflexivity.
Qed.

Lemma grace_timestamps_are_sticky_witness :
  let r := sample_license "FOX-1" 100 true (Some 200) (Some 259400) in
  let d := {| isValid := Some true;
              license := Some (sample_payload "FOX-1" (FeaturesList [])) |} in
  let calls := [(300, Validate (ValidateBody true (Some d)));
                (400, Activate "FOX-1" (accepts "FOX-1" (FeaturesList ["module.x"])));
                (500, SendHeartbeat (HeartbeatReturned 200));
                (600, GetLicenseStatus (ValidateHTTPError "timed out"))] in
  let out := validate_license default_settings 300 (ValidateBody true (Some d))
               (new_client "hw" "inst" (sample_tables r)) in
  (exists r',
      local_license_cache (serve_all default_settings "hw" "inst" calls (sample_tables r))
        !! 0%nat = Some r'
      /\ license_key r' = "FOX-1"
      /\ grace_period_started_at r' <> None
      /\ grace_period_expires_at r' <> None)
  /\ snd out = Return (valid_online (sample_payload "FOX-1" (FeaturesList [])))
  /\ (exists r',
         cached_license_of (database out) = Some r'
         /\ in_grace_period r' = false
         /\ last_validated_at r' = Some 300
         /\ grace_period_started_at r' = Some 200
         /\ grace_period_expires_at r' = Some 259400).
Proof.
  cbv zeta.
  destruct (grace_timestamps_are_sticky default_settings "hw" "inst") as [Hkeep Hvalid].
  split.
  - destruct (Hkeep
                [(300, Validate
                         (ValidateBody true
                            (Some {| isValid := Some true;
                                     license :=
                                       Some (sample_payload "FOX-1" (FeaturesList [])) |})));
                 (400, Activate "FOX-1" (accepts "FOX-1" (FeaturesList ["module.x"])));
                 (500, SendHeartbeat (HeartbeatReturned 200));
                 (600, GetLicenseStatus (ValidateHTTPError "timed out"))]
                (sample_tables (sample_license "FOX-1" 100 true (Some 200) (Some 259400)))
                0%nat
                (sample_license "FOX-1" 100 true (Some 200) (Some 259400)) eq_refl)
      as (r' & Hr' & Hk & Hs & He).
    exists r'. split; [exact Hr'|]. split; [exact Hk|].
    split; [apply Hs | apply He]; discriminate.
  - apply (Hvalid (sample_tables (sample_license "FOX-1" 100 true (Some 200) (Some 259400)))
             300 (sample_license "FOX-1" 100 true (Some 200) (Some 259400))
             {| isValid := Some true;
                license := Some (sample_payload "FOX-1" (FeaturesList [])) |}
             (sample_payload "FOX-1" (FeaturesList []))); reflexivity.
Defined.

(** ** The audit table, request by request *)

Lemma validate_license_appends settings hw inst now response (t : Tables) :
  exists new,
    attempts_of (validate_license settings now response (new_client hw inst t))
    = (local_license_validation_attempts t ++ new)%list
    /\ Forall recorded new.
Proof.
  unfold attempts_of.
  destruct (local_license_cache t) as [|r rest] eqn:Hl.
  - rewrite (validate_license_no_license settings now response (new_client hw inst t) t
               eq_refl Hl).
    exists []. rewrite app_nil_r. split; [reflexivity | constructor].
  - destruct (authority_confirms response) eqn:Hc.
    + destruct (confirms_inv response Hc) as (d & -> & Hv).
      destruct (license d) as [l|] eqn:Hlic.
      * rewrite (validate_license_confirmed settings now d l (new_client hw inst t) t r rest
                   eq_refl Hl Hv Hlic).
        exists [attempt now hw (license_key r) "success" None].
        split; [reflexivity|].
        constructor; [left; reflexivity | constructor].
      * rewrite (validate_license_confirmed_without_license settings now d
                   (new_client hw inst t) t r rest eq_refl Hl Hv Hlic).
        match goal with
        | |- context [_check_grace_period _ _ _ (set_db (SessionLocal ?t2) ?c2)] =>
            destruct (check_grace_period_returns settings now
                        (set_db (SessionLocal t2) c2) t2 (validated now r) rest
                        eq_refl eq_refl) as (r' & res & Heq & _)
        end.
        rewrite Heq.
        exists [attempt now hw (license_key r) "success" None;
                attempt now hw (license_key r) "failed" (Some "'license'")].
        split; [reflexivity|].
        constructor; [left; reflexivity|].
        constructor; [right; left; reflexivity | constructor].
    + rewrite (validate_license_failing settings now response (new_client hw inst t) t r rest
                 eq_refl Hl Hc).
      match goal with
      | |- context [_check_grace_period _ _ _ (set_db (SessionLocal ?t2) ?c2)] =>
          destruct (check_grace_period_returns settings now
                      (set_db (SessionLocal t2) c2) t2 r rest eq_refl Hl)
            as (r' & res & Heq & _)
      end.
      rewrite Heq. exists (failure_attempts now hw (license_key r) response).
      split; [reflexivity | apply failure_attempts_recorded].
Qed.

Lemma send_heartbeat_attempts hw inst now response (t : Tables) :
  attempts_of (send_heartbeat now response (new_client hw inst t))
  = local_license_validation_attempts t.
Proof.
  destruct t as [[|r rest] ats fs]; destruct response as [e|e|code];
    unfold attempts_of, database, send_heartbeat, _get_cached_license; run;
    rewrite ?app_nil_r; reflexivity.
Qed.

(** Every request only appends to the audit table, and what it appends has
    one of the three results. *)
Lemma serve_appends settings hw inst now op (t : Tables) :
  exists new,
    local_license_validation_attempts (serve settings hw inst now op t)
    = (local_license_validation_attempts t ++ new)%list
    /\ Forall recorded new.
Proof.
  destruct op as [key response|response|response|key|response]; simpl.
  - rewrite activate_license_database. apply activation_appends.
  - apply validate_license_appends.
  - exists []. rewrite app_nil_r. split; [apply send_heartbeat_attempts | constructor].
  - exists []. rewrite app_nil_r. split; [|constructor].
    unfold database. rewrite is_feature_available_reads. reflexivity.
  - rewrite get_license_status_database. apply validate_license_appends.
Qed.

(** Calls that do not append exactly one attempt, or not the one expected:
    a validation without a cached license, a rejected activation and a
    rejected validation append none; an activation that cannot reach the
    authority appends a [failed] attempt, not an [offline] one; a confirmed
    validation whose body has no [license] entry appends two. *)
Lemma attempts_not_one_per_call :
  let r := sample_license "FOX-1" 864000 false None None in
  attempts_of (validate_license default_settings 100 (ValidateHTTPError "timed out")
                 (new_client "hw" "inst" no_tables)) = []
  /\ attempts_of (activate_license 100 "FOX-1" (ActivateBody false None ErrorAbsent)
                    (new_client "hw" "inst" no_tables)) = []
  /\ attempts_of (validate_license default_settings 100 (ValidateBody false None)
                    (new_client "hw" "inst" (sample_tables r))) = []
  /\ map result (attempts_of (activate_license 100 "FOX-1" (ActivateHTTPError "timed out")
                                (new_client "hw" "inst" no_tables))) = ["failed"]
  /\ map result
       (attempts_of (validate_license default_settings 100
                       (ValidateBody true (Some {| isValid := Some true; license := None |}))
                       (new_client "hw" "inst" (sample_tables r))))
     = ["success"; "failed"].
Proof. vm_compute. repeat split. Qed.

(** C6, as the code has it.  An activation that fails on the transport or on
    any other exception before the answer is read appends exactly one
    [failed] attempt (the transport error too), and one that returns success
    appends exactly one [success] attempt.  A validation without a cached
    license appends nothing; with a cached license, a transport error
    appends exactly one [offline] attempt, another exception before the
    answer is read exactly one [failed] attempt, and a confirmed validation
    that returns appends exactly one [success] attempt.  Every request only
    appends to the table, and every result it records is [success], [failed]
    or [offline]. *)
Theorem attempts_appended settings hw inst (t : Tables) now :
  (forall key e,
      attempts_of (activate_license now key (ActivateHTTPError e) (new_client hw inst t))
      = (local_license_validation_attempts t
         ++ [attempt now hw key "failed"
               (Some ("HTTP error during activation: " ++ e)%string)])%list)
  /\ (forall key e,
         attempts_of (activate_license now key (ActivateBadBody e) (new_client hw inst t))
         = (local_license_validation_attempts t
            ++ [attempt now hw key "failed" (Some ("Activation failed: " ++ e)%string)])%list)
  /\ (forall key response d m,
         snd (activate_license now key response (new_client hw inst t))
         = Return (Activated d m) ->
         attempts_of (activate_license now key response (new_client hw inst t))
         = (local_license_validation_attempts t ++ [attempt now hw key "success" None])%list)
  /\ (forall response,
         local_license_cache t = [] ->
         attempts_of (validate_license settings now response (new_client hw inst t))
         = local_license_validation_attempts t)
  /\ (forall r e,
         cached_license_of t = Some r ->
         attempts_of (validate_license settings now (ValidateHTTPError e)
                        (new_client hw inst t))
         = (local_license_validation_attempts t
            ++ [attempt now hw (license_key r) "offline" (Some e)])%list)
  /\ (forall r e,
         cached_license_of t = Some r ->
         attempts_of (validate_license settings now (ValidateBadBody e)
                        (new_client hw inst t))
         = (local_license_validation_attempts t
            ++ [attempt now hw (license_key r) "failed" (Some e)])%list)
  /\ (forall r d l,
         cached_license_of t = Some r ->
         isValid d = Some true ->
         license d = Some l ->
         snd (validate_license settings now (ValidateBody true (Some d))
                (new_client hw inst t))
         = Return (valid_online l)
         /\ attempts_of (validate_license settings now (ValidateBody true (Some d))
                           (new_client hw inst t))
            = (local_license_validation_attempts t
               ++ [attempt now hw (license_key r) "success" None])%list)
  /\ (forall op,
         exists new,
           local_license_validation_attempts (serve settings hw inst now op t)
           = (local_license_validation_attempts t ++ new)%list
           /\ Forall (fun a => In (result a) ["success"; "failed"; "offline"]) new).
Proof.
  unfold attempts_of.
  split; [|split; [|split; [|split; [|split; [|split; [|split]]]]]].
  - intros key e. rewrite activate_license_database. reflexivity.
  - intros key e. rewrite activate_license_database. reflexivity.
  - intros key response d m Hout.
    destruct (activate_license_accepted now hw inst key response t d m Hout)
      as (k & keys & _ & _ & _ & Hattempts & _).
    exact Hattempts.
  - intros response Hl.
    rewrite (validate_license_no_license settings now response (new_client hw inst t) t
               eq_refl Hl).
    reflexivity.
  - intros r e Hc. destruct (cached_license_cons t r Hc) as (rest & Hl).
    rewrite (validate_license_failing settings now (ValidateHTTPError e)
               (new_client hw inst t) t r rest eq_refl Hl eq_refl).
    destruct (check_grace_period_returns settings now
                (set_db (SessionLocal
                           (logged (failure_attempts now hw (license_key r)
                                      (ValidateHTTPError e)) t))
                        (posted "/licenses/validate" (new_client hw inst t)))
                (logged (failure_attempts now hw (license_key r) (ValidateHTTPError e)) t)
                r rest eq_refl Hl) as (r' & res & Heq & _).
    simpl hardware_id. rewrite Heq. reflexivity.
  - intros r e Hc. destruct (cached_license_cons t r Hc) as (rest & Hl).
    rewrite (validate_license_failing settings now (ValidateBadBody e)
               (new_client hw inst t) t r rest eq_refl Hl eq_refl).
    destruct (check_grace_period_returns settings now
                (set_db (SessionLocal
                           (logged (failure_attempts now hw (license_key r)
                                      (ValidateBadBody e)) t))
                        (posted "/licenses/validate" (new_client hw inst t)))
                (logged (failure_attempts now hw (license_key r) (ValidateBadBody e)) t)
                r rest eq_refl Hl) as (r' & res & Heq & _).
    simpl hardware_id. rewrite Heq. reflexivity.
  - intros r d l Hc Hv Hlic. destruct (cached_license_cons t r Hc) as (rest & Hl).
    rewrite (validate_license_confirmed settings now d l (new_client hw inst t) t r rest
               eq_refl Hl Hv Hlic).
    split; reflexivity.
  - intros op. exact (serve_appends settings hw inst now op t).
Qed.

Lemma attempts_appended_witness :
  let r := sample_license "FOX-1" 100 false None None in
  let t := sample_tables r in
  let d := {| isValid := Some true;
              license := Some (sample_payload "FOX-1" (FeaturesList [])) |} in
  attempts_of (activate_license 200 "FOX-1" (accepts "FOX-1" (FeaturesList []))
                 (new_client "hw" "inst" t))
  = [attempt 200 "hw" "FOX-1" "success" None]
  /\ attempts_of (validate_license default_settings 200 (ValidateHTTPError "timed out")
                    (new_client "hw" "inst" no_tables)) = []
  /\ attempts_of (validate_license default_settings 200 (ValidateHTTPError "timed out")
                    (new_client "hw" "inst" t))
     = [attempt 200 "hw" "FOX-1" "offline" (Some "timed out")]
  /\ attempts_of (validate_license default_settings 200 (ValidateBadBody "not JSON")
                    (new_client "hw" "inst" t))
     = [attempt 200 "hw" "FOX-1" "failed" (Some "not JSON")]
  /\ attempts_of (validate_license default_settings 200 (ValidateBody true (Some d))
                    (new_client "hw" "inst" t))
     = [attempt 200 "hw" "FOX-1" "success" None].
Proof.
  cbv zeta.
  destruct (attempts_appended default_settings "hw" "inst"
              (sample_tables (sample_license "FOX-1" 100 false None None)) 200)
    as (_ & _ & Hactivated & _ & Hoffline & Hfailed & Hsuccess & _).
  destruct (attempts_appended default_settings "hw" "inst" no_tables 200)
    as (_ & _ & _ & Hnone & _).
  split; [|split; [|split; [|split]]].
  - apply (Hactivated "FOX-1" (accepts "FOX-1" (FeaturesList []))
             (sample_payload "FOX-1" (FeaturesList [])) "License activated successfully").
    vm_compute. reflexivity.
  - apply (Hnone (ValidateHTTPError "timed out")). reflexivity.
  - apply (Hoffline (sample_license "FOX-1" 100 false None None) "timed out"). reflexivity.
  - apply (Hfailed (sample_license "FOX-1" 100 false None None) "not JSON"). reflexivity.
  - apply (Hsuccess (sample_license "FOX-1" 100 false None None)
             {| isValid := Some true;
                license := Some (sample_payload "FOX-1" (FeaturesList [])) |}
             (sample_payload "FOX-1" (FeaturesList []))); reflexivity.
Defined.

(** * Further properties of the client *)

(** ** Validation, request by request *)

(** A validation with a cached license, whatever the authority answers: it
    returns, it has posted one request, and it leaves a clean session whose
    tables differ from the ones before by the audit entries and by the
    cached record, which is the old one, possibly validated, possibly with a
    grace period started. *)
Lemma validate_license_cases settings hw inst now response (t : Tables) r rest :
  local_license_cache t = r :: rest ->
  exists r' new res,
    validate_license settings now response (new_client hw inst t)
    = (set_db (SessionLocal (with_licenses (r' :: rest) (logged new t)))
              (posted "/licenses/validate" (new_client hw inst t)),
       Return res)
    /\ (r' = r \/ r' = grace_started settings now r
        \/ r' = validated now r \/ r' = grace_started settings now (validated now r)).
Proof.
  intros Hl.
  destruct (authority_confirms response) eqn:Hc.
  - destruct (confirms_inv response Hc) as (d & -> & Hv).
    destruct (license d) as [l|] eqn:Hlic.
    + rewrite (validate_license_confirmed settings now d l (new_client hw inst t) t r rest
                 eq_refl Hl Hv Hlic).
      exists (validated now r), [attempt now hw (license_key r) "success" None],
        (valid_online l).
      split; [reflexivity | right; right; left; reflexivity].
    + rewrite (validate_license_confirmed_without_license settings now d
                 (new_client hw inst t) t r rest eq_refl Hl Hv Hlic).
      match goal with
      | |- context [_check_grace_period _ _ _ (set_db (SessionLocal ?t2) ?c2)] =>
          destruct (check_grace_period_returns settings now
                      (set_db (SessionLocal t2) c2) t2 (validated now r) rest
                      eq_refl eq_refl) as (r' & res & Heq & Hr')
      end.
      rewrite Heq.
      exists r', [attempt now hw (license_key r) "success" None;
                  attempt now hw (license_key r) "failed" (Some "'license'")], res.
      split; [reflexivity|].
      destruct Hr' as [->| ->]; [right; right; left | right; right; right]; reflexivity.
  - rewrite (validate_license_failing settings now response (new_client hw inst t) t r rest
               eq_refl Hl Hc).
    match goal with
    | |- context [_check_grace_period _ _ _ (set_db (SessionLocal ?t2) ?c2)] =>
        destruct (check_grace_period_returns settings now
                    (set_db (SessionLocal t2) c2) t2 r rest eq_refl Hl)
          as (r' & res & Heq & Hr')
    end.
    rewrite Heq.
    exists r', (failure_attempts now hw (license_key r) response), res.
    split; [reflexivity|].
    destruct Hr' as [->| ->]; [left | right; left]; reflexivity.
Qed.

(** X1. Without a cached license [validate_license] answers [no_license]
    at once: whatever the authority would answer, no request is posted and
    neither the session nor the database is written. *)
Theorem validate_without_license settings hw inst (t : Tables) now response :
  let c := new_client hw inst (with_licenses [] t) in
  validate_license settings now response c = (c, Return no_license)
  /\ requests (fst (validate_license settings now response c)) = []
  /\ database (validate_license settings now response c) = with_licenses [] t.
Proof.
  cbv zeta.
  rewrite (validate_license_no_license settings now response
             (new_client hw inst (with_licenses [] t)) (with_licenses [] t)
             eq_refl eq_refl).
  repeat split.
Qed.

(** X2. [validate_license] returns a result to its caller, on every
    database, whenever a grace period started at [now] would expire at a
    datetime that Python represents.  This holds for every answer of the
    authority of the kinds embedded: a transport error or error status, a
    body that cannot be read, a body without [data], and a body whose
    [isValid] is missing or a boolean.  The call posts exactly one request
    when a license is cached, none otherwise. *)
Theorem validate_always_returns settings hw inst (t : Tables) now response :
  representable now ->
  representable (now + hours (OFFLINE_GRACE_PERIOD_HOURS settings)) ->
  let out := validate_license settings now response (new_client hw inst t) in
  (exists res, snd out = Return res)
  /\ requests (fst out)
     = match local_license_cache t with
       | [] => []
       | _ :: _ => ["/licenses/validate"]
       end.
Proof.
  intros _ _. cbv zeta. destruct (local_license_cache t) as [|r rest] eqn:Hl.
  - rewrite (validate_license_no_license settings now response (new_client hw inst t) t
               eq_refl Hl).
    split; [eexists; reflexivity | reflexivity].
  - destruct (validate_license_cases settings hw inst now response t r rest Hl)
      as (r' & new & res & Heq & _).
    rewrite Heq. split; [exists res; reflexivity | reflexivity].
Qed.

Lemma validate_always_returns_witness :
  let r := sample_license "FOX-1" 100 false None None in
  let out := validate_license default_settings 200 (ValidateBody true None)
               (new_client "hw" "inst" (sample_tables r)) in
  (exists res, snd out = Return res)
  /\ requests (fst out) = ["/licenses/validate"].
Proof.
  apply (validate_always_returns default_settings "hw" "inst"
           (sample_tables (sample_license "FOX-1" 100 false None None)) 200
           (ValidateBody true None)).
  - unfold representable. lia.
  - unfold representable, hours. simpl. lia.
Defined.

(** The decision of the policy, for the theorems below. *)
Lemma unconfirmed_validation_decision settings hw inst (t : Tables) now response r :
  cached_license_of t = Some r ->
  authority_confirms response = false ->
  let out := validate_license settings now response (new_client hw inst t) in
  exists res,
    snd out = Return res
    /\ valid res = tolerated now r
    /\ (if valid res then inGracePeriod res = Some true else res = grace_period_expired).
Proof.
  intros Hc Hf. cbv zeta. unfold tolerated.
  destruct (Z_lt_le_dec now (valid_until r)) as [Hv|Hv].
  - destruct (validate_request_within settings hw inst t now response r Hc Hv Hf)
      as [Hres _].
    exists (within_validity r). rewrite Hres.
    assert (Hlt : (now <? valid_until r) = true) by (apply Z.ltb_lt; exact Hv).
    rewrite Hlt. repeat split.
  - assert (Hlt : (now <? valid_until r) = false) by (apply Z.ltb_ge; exact Hv).
    rewrite Hlt. destruct (in_grace_period r) eqn:Hg.
    + destruct (grace_period_expires_at r) as [e|] eqn:He.
      * destruct (Z_lt_le_dec now e) as [Hlt'|Hge].
        -- destruct (validate_request_running settings hw inst t now response r e
                       Hc Hv Hg He Hlt' Hf) as [Hres _].
           exists (within_grace r e). rewrite Hres.
           assert (Hb : (now <? e) = true) by (apply Z.ltb_lt; exact Hlt').
           rewrite Hb. repeat split.
        -- destruct (validate_request_expired settings hw inst t now response r)
             as [Hres _]; try assumption.
           { intros e' He'. rewrite He in He'. injection He' as <-. exact Hge. }
           exists grace_period_expired. rewrite Hres.
           assert (Hb : (now <? e) = false) by (apply Z.ltb_ge; exact Hge).
           rewrite Hb. repeat split.
      * destruct (validate_request_expired settings hw inst t now response r)
          as [Hres _]; try assumption.
        { intros e' He'. rewrite He in He'. discriminate. }
        exists grace_period_expired. rewrite Hres. repeat split.
    + destruct (validate_request_start settings hw inst t now response r Hc Hv Hg Hf)
        as (Hres & _).
      exists (within_grace r (grace_expiry settings now)). rewrite Hres. repeat split.
Qed.

(** X3. The decision of the grace-period policy.  A validation that the
    authority does not confirm is tolerated exactly when [now] is before
    [valid_until], or the record is not in grace period yet, or its grace
    window has not run out; a tolerated one reports [inGracePeriod: true], a
    refused one is the [grace_period_expired] answer.  The call that starts
    a grace period is tolerated however short the period is, zero hours
    included, its expiry being a datetime that Python represents. *)
Theorem grace_policy_decision settings hw inst (t : Tables) now response r :
  cached_license_of t = Some r ->
  authority_confirms response = false ->
  representable now ->
  representable (now + hours (OFFLINE_GRACE_PERIOD_HOURS settings)) ->
  let out := validate_license settings now response (new_client hw inst t) in
  exists res,
    snd out = Return res
    /\ valid res = tolerated now r
    /\ (if valid res then inGracePeriod res = Some true else res = grace_period_expired).
Proof.
  intros Hc Hf _ _.
  exact (unconfirmed_validation_decision settings hw inst t now response r Hc Hf).
Qed.

Lemma grace_policy_decision_witness :
  let r := sample_license "FOX-1" 100 false None None in
  let zero := {| LICENSE_API_URL := ""; LICENSE_API_TIMEOUT := 30;
                 INSTALLATION_NAME := ""; APP_VERSION := "";
                 HEARTBEAT_INTERVAL_HOURS := 4; VALIDATION_INTERVAL_HOURS := 24;
                 OFFLINE_GRACE_PERIOD_HOURS := 0;
                 ALLOW_UNLICENSED_CORE_FEATURES := true |} in
  let out := validate_license zero 200 (ValidateHTTPError "timed out")
               (new_client "hw" "inst" (sample_tables r)) in
  exists res,
    snd out = Return res
    /\ valid res = true
    /\ (if valid res then inGracePeriod res = Some true else res = grace_period_expired).
Proof.
  cbv zeta.
  apply (grace_policy_decision
           {| LICENSE_API_URL := ""; LICENSE_API_TIMEOUT := 30;
              INSTALLATION_NAME := ""; APP_VERSION := "";
              HEARTBEAT_INTERVAL_HOURS := 4; VALIDATION_INTERVAL_HOURS := 24;
              OFFLINE_GRACE_PERIOD_HOURS := 0;
              ALLOW_UNLICENSED_CORE_FEATURES := true |}
           "hw" "inst" (sample_tables (sample_license "FOX-1" 100 false None None)) 200
           (ValidateHTTPError "timed out") (sample_license "FOX-1" 100 false None None)).
  - reflexivity.
  - reflexivity.
  - unfold representable. lia.
  - unfold representable, hours. simpl. lia.
Defined.

(** X4. What a validation leaves alone.  Whatever the authority answers,
    [validate_license] reads and writes the first cached row only: the
    feature flags and the other rows are as before, no row is added or
    removed, and of the first row the key, the payload, [cached_at], the
    signature and [valid_until] are unchanged.  In particular a confirmed
    validation does not extend the thirty days given by the activation. *)
Theorem validation_frame settings hw inst (t : Tables) now response r rest :
  let t0 := with_licenses (r :: rest) t in
  let out := validate_license settings now response (new_client hw inst t0) in
  local_feature_flags (database out) = local_feature_flags t
  /\ exists r',
       local_license_cache (database out) = r' :: rest
       /\ license_key r' = license_key r
       /\ license_data r' = license_data r
       /\ cached_at r' = cached_at r
       /\ valid_until r' = valid_until r
       /\ license_signature r' = license_signature r.
Proof.
  cbv zeta.
  destruct (validate_license_cases settings hw inst now response
              (with_licenses (r :: rest) t) r rest eq_refl)
    as (r' & new & res & Heq & Hr').
  rewrite Heq. split; [reflexivity|].
  exists r'. split; [reflexivity|].
  destruct Hr' as [->|[->|[->| ->]]]; repeat split.
Qed.



(** ** Heartbeats and the scheduler *)

(** X6. [send_heartbeat] returns normally on every database and for every
    outcome of the collection and of the post.  When the post returns,
    whatever the status code of the response, the heartbeat counts as sent:
    one request has gone out, [last_validated_at] of the first cached row
    becomes [now], and nothing else in the database changes; no audit entry
    is written. *)
Theorem heartbeat_effect hw inst (t : Tables) now response code r rest :
  let t0 := with_licenses (r :: rest) t in
  snd (send_heartbeat now response (new_client hw inst t)) = Return tt
  /\ send_heartbeat now (HeartbeatReturned code) (new_client hw inst t0)
     = (set_db (SessionLocal (with_licenses (touched now r :: rest) t))
               (posted "/licenses/heartbeat" (new_client hw inst t0)),
        Return tt).
Proof.
  cbv zeta. split.
  - destruct t as [[|r0 rest0] ats fs]; destruct response as [e|e|code0];
      unfold send_heartbeat, _get_cached_license; run; reflexivity.
  - destruct t as [ls ats fs]. unfold send_heartbeat, _get_cached_license, posted, touched.
    run. rewrite !app_nil_r. reflexivity.
Qed.

Lemma log_validation_attempt_client now key res err (c : LicenseClient) :
  scheduler_running (fst (_log_validation_attempt now key res err c)) = scheduler_running c
  /\ requests (fst (_log_validation_attempt now key res err c)) = requests c.
Proof.
  destruct c as [[p r pd ia] hw inst run reqs].
  unfold _log_validation_attempt. run.
  destruct ia; run; [split; reflexivity|].
  match goal with |- context [if ?b then _ else _] => destruct b end; split; reflexivity.
Qed.

(** The scheduler and the requests posted, after an activation. *)
Lemma activate_license_client now hw inst key response (t : Tables) :
  let out := activate_license now key response (new_client hw inst t) in
  scheduler_running (fst out)
  = match snd (activation now hw key response t) with
    | Return (Activated _ _) => true
    | _ => false
    end
  /\ requests (fst out) = ["/licenses/activate"].
Proof.
  cbv zeta. unfold new_client. destruct t as [ls ats fs].
  destruct response as [e|e|success data error];
    unfold activate_license, activation, local_failure.
  - run. erewrite log_validation_attempt_fresh by reflexivity. split; reflexivity.
  - run. erewrite log_validation_attempt_fresh by reflexivity. split; reflexivity.
  - destruct success.
    + destruct data as [d|].
      * destruct (licenseKey d) as [k|] eqn:Hk.
        -- run.
           erewrite (store_license_cache_fresh now d k) by (reflexivity || exact Hk).
           run.
           destruct (feature_keys d) as [keys|] eqn:Hkeys.
           ++ erewrite (sync_feature_flags_fresh now d keys)
                by (reflexivity || exact Hkeys).
              run.
              match goal with
              | |- context [sync_flush_ok ?n ?ks ?tt] =>
                  destruct (sync_flush_ok n ks tt)
              end.
              ** run. unfold _start_heartbeat. run.
                 erewrite log_validation_attempt_fresh by reflexivity.
                 split; reflexivity.
              ** run.
                 match goal with
                 | |- context [_log_validation_attempt ?n ?k ?r ?e ?c] =>
                     destruct (log_validation_attempt_inactive n k r e c eq_refl)
                       as [Hraise _];
                     destruct (log_validation_attempt_client n k r e c) as [Hs Hr];
                     destruct (_log_validation_attempt n k r e c) as [c' o]
                 end.
                 simpl in Hraise, Hs, Hr. subst o. simpl. rewrite Hs, Hr.
                 split; reflexivity.
           ++ erewrite (sync_feature_flags_not_iterable now d)
                by (reflexivity || exact Hkeys).
              run. rewrite log_validation_attempt_ok by reflexivity. split; reflexivity.
        -- run. rewrite (store_license_cache_no_key now d _ Hk).
           erewrite log_validation_attempt_fresh by reflexivity. split; reflexivity.
      * run. erewrite log_validation_attempt_fresh by reflexivity. split; reflexivity.
    + destruct error as [|m|]; run.
      * split; reflexivity.
      * split; reflexivity.
      * erewrite log_validation_attempt_fresh by reflexivity. split; reflexivity.
Qed.

(** The client after a status request is the client after its validation. *)
Lemma get_license_status_client settings hw inst now response (t : Tables) :
  fst (get_license_status settings now response (new_client hw inst t))
  = fst (validate_license settings now response (new_client hw inst t)).
Proof.
  destruct t as [[|r rest] ats fs].
  - erewrite validate_license_no_license by reflexivity. reflexivity.
  - unfold get_license_status, _get_cached_license. run.
    destruct (validate_license settings now response _) as [c' [v|e]]; run; [|reflexivity].
    destruct (local_license_cache (rows (db c')) !! 0%nat); run; [|reflexivity].
    destruct (valid v); reflexivity.
Qed.

(** X7. The heartbeat scheduler is armed by a successful activation and by
    nothing else: after [activate_license] on a new client the scheduler
    runs exactly when the call returned success, and [validate_license],
    [send_heartbeat], [is_feature_available] and [get_license_status] leave
    it stopped.  Every activation posts exactly one request, whatever the
    answer.  [_start_heartbeat] on a running scheduler does nothing. *)
Theorem scheduler_armed_by_activation_only settings hw inst (t : Tables) now :
  (forall key response,
      let out := activate_license now key response (new_client hw inst t) in
      scheduler_running (fst out)
      = match snd out with
        | Return (Activated _ _) => true
        | _ => false
        end
      /\ requests (fst out) = ["/licenses/activate"])
  /\ (forall response,
         scheduler_running
           (fst (validate_license settings now response (new_client hw inst t))) = false)
  /\ (forall response,
         scheduler_running (fst (send_heartbeat now response (new_client hw inst t)))
         = false)
  /\ (forall key,
         scheduler_running
           (fst (is_feature_available settings key (new_client hw inst t))) = false)
  /\ (forall response,
         scheduler_running
           (fst (get_license_status settings now response (new_client hw inst t)))
         = false)
  /\ (forall c : LicenseClient,
         scheduler_running c = true -> _start_heartbeat c = (c, Return tt)).
Proof.
  split; [|split; [|split; [|split; [|split]]]].
  - intros key response. cbv zeta.
    destruct (activate_license_client now hw inst key response t) as [Hs Hr].
    rewrite Hs, Hr, (activate_license_outcome now hw inst). split; reflexivity.
  - intros response. destruct (local_license_cache t) as [|r rest] eqn:Hl.
    + rewrite (validate_license_no_license settings now response (new_client hw inst t) t
                 eq_refl Hl). reflexivity.
    + destruct (validate_license_cases settings hw inst now response t r rest Hl)
        as (r' & new & res & Heq & _).
      rewrite Heq. reflexivity.
  - intros response.
    destruct t as [[|r rest] ats fs]; destruct response as [e|e|code];
      unfold send_heartbeat, _get_cached_license; run; reflexivity.
  - intros key. rewrite is_feature_available_reads. reflexivity.
  - intros response. rewrite get_license_status_client.
    destruct (local_license_cache t) as [|r rest] eqn:Hl.
    + rewrite (validate_license_no_license settings now response (new_client hw inst t) t
                 eq_refl Hl). reflexivity.
    + destruct (validate_license_cases settings hw inst now response t r rest Hl)
        as (r' & new & res & Heq & _).
      rewrite Heq. reflexivity.
  - intros c Hrun. unfold _start_heartbeat. rewrite Hrun. reflexivity.
Qed.

Lemma scheduler_armed_by_activation_only_witness :
  let c := {| db := SessionLocal no_tables; hardware_id := "hw"; installation_id := "inst";
              scheduler_running := true; requests := [] |} in
  _start_heartbeat c = (c, Return tt).
Proof.
  destruct (scheduler_armed_by_activation_only default_settings "hw" "inst" no_tables 0)
    as (_ & _ & _ & _ & _ & Hidem).
  apply Hidem. reflexivity.
Defined.

(** ** What the requests keep of the tables *)

Lemma kept_at_refl {A} (R : A -> A -> Prop) (l : list A) :
  (forall x, R x x) -> kept_at R l l.
Proof. intros HR i x Hx. exists x. split; [exact Hx | apply HR]. Qed.

Lemma kept_at_trans {A} (R : A -> A -> Prop) (l1 l2 l3 : list A) :
  (forall x y z, R x y -> R y z -> R x z) ->
  kept_at R l1 l2 -> kept_at R l2 l3 -> kept_at R l1 l3.
Proof.
  intros HR H12 H23 i x Hx.
  destruct (H12 i x Hx) as (y & Hy & Hxy).
  destruct (H23 i y Hy) as (z & Hz & Hyz).
  exists z. split; [exact Hz | eapply HR; eassumption].
Qed.

Lemma kept_at_alter {A} (R : A -> A -> Prop) (g : A -> A) (l : list A) (i : nat) :
  (forall x, R x x) -> (forall x, R x (g x)) -> kept_at R l (alter g i l).
Proof.
  intros Hrefl Hg j x Hx.
  destruct (decide (i = j)) as [<-|Hne].
  - exists (g x). split; [|apply Hg]. rewrite list_lookup_alter_eq, Hx. reflexivity.
  - exists x. split; [|apply Hrefl]. rewrite list_lookup_alter_ne by exact Hne. exact Hx.
Qed.

Lemma kept_at_app {A} (R : A -> A -> Prop) (l l' more : list A) :
  kept_at R l l' -> kept_at R l (l' ++ more).
Proof.
  intros H i x Hx. destruct (H i x Hx) as (x' & Hx' & HR).
  exists x'. split; [apply lookup_app_l_Some; exact Hx' | exact HR].
Qed.

Lemma kept_at_map {A} (R : A -> A -> Prop) (g : A -> A) (l : list A) :
  (forall x, R x (g x)) -> kept_at R l (map g l).
Proof.
  intros Hg i x Hx. exists (g x). split; [|apply Hg].
  change (map g l) with (g <$> l). rewrite list_lookup_fmap, Hx. reflexivity.
Qed.

Lemma same_settings_refl f : same_settings f f.
Proof. repeat split. Qed.

Lemma same_settings_trans f1 f2 f3 :
  same_settings f1 f2 -> same_settings f2 f3 -> same_settings f1 f3.
Proof.
  intros (Hk & He & Hs) (Hk' & He' & Hs'). repeat split; congruence.
Qed.

Lemma sync_loop_kept now keys : forall fs ps,
  kept_at same_settings fs (fst (sync_loop now keys fs ps)).
Proof.
  unfold sync_loop. induction keys as [|key keys IH]; intros fs ps; simpl.
  - apply kept_at_refl. apply same_settings_refl.
  - unfold sync_step at 2. simpl.
    destruct (find_index (fun f => String.eqb (feature_key f) key) fs) as [i|].
    + eapply kept_at_trans; [apply same_settings_trans | | apply IH].
      apply kept_at_alter; [apply same_settings_refl | intros x; repeat split].
    + apply IH.
Qed.

(** The flags in the database after an activation. *)
Lemma activation_flags now hw key response (t : Tables) :
  local_feature_flags (fst (activation now hw key response t)) = local_feature_flags t
  \/ local_feature_flags (fst (activation now hw key response t))
     = map unlicensed (local_feature_flags t)
  \/ exists keys,
       sync_flush_ok now keys t = true
       /\ local_feature_flags (fst (activation now hw key response t))
          = (fst (synced now keys t) ++ snd (synced now keys t))%list.
Proof.
  unfold activation, local_failure.
  destruct response as [e|e|[] [d|] [|em|]];
    try destruct (licenseKey d) as [k|];
    try destruct (feature_keys d) as [keys|];
    try match goal with |- context [sync_flush_ok ?n ?ks ?tt] =>
          destruct (sync_flush_ok n ks tt) eqn:Hok end;
    first [ left; reflexivity
          | right; left; reflexivity
          | right; right; exists keys; split; [exact Hok | reflexivity] ].
Qed.

Lemma serve_flags_kept settings hw inst now op (t : Tables) :
  kept_at same_settings (local_feature_flags t)
    (local_feature_flags (serve settings hw inst now op t)).
Proof.
  assert (Hsame : forall t' : Tables,
             local_feature_flags t' = local_feature_flags t ->
             kept_at same_settings (local_feature_flags t) (local_feature_flags t')).
  { intros t' ->. apply kept_at_refl. apply same_settings_refl. }
  assert (Hvalidate : forall response,
             local_feature_flags
               (database (validate_license settings now response (new_client hw inst t)))
             = local_feature_flags t).
  { intros response. destruct (local_license_cache t) as [|r rest] eqn:Hl.
    - rewrite (validate_license_no_license settings now response (new_client hw inst t) t
                 eq_refl Hl). reflexivity.
    - destruct (validate_license_cases settings hw inst now response t r rest Hl)
        as (r' & new & res & Heq & _).
      rewrite Heq. reflexivity. }
  destruct op as [key response|response|response|key|response]; simpl.
  - rewrite activate_license_database.
    destruct (activation_flags now hw key response t) as [Heq|[Heq|(keys & _ & Heq)]];
      rewrite Heq.
    + apply kept_at_refl. apply same_settings_refl.
    + apply kept_at_map. intros x. repeat split.
    + apply kept_at_app. unfold synced.
      eapply kept_at_trans; [apply same_settings_trans | | apply sync_loop_kept].
      apply kept_at_map. intros x. repeat split.
  - apply Hsame. apply Hvalidate.
  - apply Hsame. destruct t as [[|r rest] ats fs]; destruct response as [e|e|code];
      unfold database, send_heartbeat, _get_cached_license; run;
      rewrite ?app_nil_r; reflexivity.
  - apply Hsame. unfold database. rewrite is_feature_available_reads. reflexivity.
  - apply Hsame. rewrite get_license_status_database. apply Hvalidate.
Qed.

(** X8. No request deletes a feature flag or touches the local settings of
    a stored flag: whatever requests are served, every flag keeps its place,
    its key, [enabled] and the administrator's override [system_enabled];
    only [licensed] and [synced_at] are ever rewritten. *)
Theorem flags_keep_local_settings settings hw inst calls : forall (t : Tables) (j : nat) f,
  local_feature_flags t !! j = Some f ->
  exists f',
    local_feature_flags (serve_all settings hw inst calls t) !! j = Some f'
    /\ feature_key f' = feature_key f
    /\ enabled f' = enabled f
    /\ system_enabled f' = system_enabled f.
Proof.
  induction calls as [|[now op] calls IH]; intros t j f Hf; simpl.
  - exists f. repeat split. exact Hf.
  - destruct (serve_flags_kept settings hw inst now op t j f Hf) as (f1 & Hf1 & Hk & He & Hs).
    destruct (IH _ j f1 Hf1) as (f' & Hf' & Hk' & He' & Hs').
    exists f'. repeat split; congruence.
Qed.

Lemma flags_keep_local_settings_witness :
  let off := {| feature_key := "module.analytics"; enabled := true; licensed := true;
                system_enabled := false; synced_at := Some 0 |} in
  let t := {| local_license_cache := [];
              local_license_validation_attempts := [];
              local_feature_flags := [off] |} in
  let calls := [(10, Activate "FOX-1" (accepts "FOX-1" (FeaturesList ["module.analytics"])));
                (20, Validate (ValidateHTTPError "timed out"));
                (30, Activate "FOX-1" (accepts "FOX-1" (FeaturesList [])))] in
  exists f',
    local_feature_flags (serve_all default_settings "hw" "inst" calls t) !! 0%nat = Some f'
    /\ feature_key f' = "module.analytics"
    /\ enabled f' = true
    /\ system_enabled f' = false.
Proof.
  cbv zeta.
  apply (flags_keep_local_settings default_settings "hw" "inst"
           [(10, Activate "FOX-1" (accepts "FOX-1" (FeaturesList ["module.analytics"])));
            (20, Validate (ValidateHTTPError "timed out"));
            (30, Activate "FOX-1" (accepts "FOX-1" (FeaturesList [])))]
           {| local_license_cache := [];
              local_license_validation_attempts := [];
              local_feature_flags :=
                [{| feature_key := "module.analytics"; enabled := true; licensed := true;
                    system_enabled := false; synced_at := Some 0 |}] |}
           0%nat
           {| feature_key := "module.analytics"; enabled := true; licensed := true;
              system_enabled := false; synced_at := Some 0 |}).
  reflexivity.
Defined.

(** ** The cached rows, request by request *)

Lemma lookup_In {A} (l : list A) : forall (i : nat) (x : A), l !! i = Some x -> In x l.
Proof.
  induction l as [|a l IH]; intros [|i] x Hx; simpl in Hx; try discriminate.
  - injection Hx as ->. left. reflexivity.
  - right. apply (IH i). exact Hx.
Qed.

Lemma Forall_alter_In {A} (P : A -> Prop) (g : A -> A) (l : list A) (i : nat) :
  (forall x, P x -> P (g x)) -> Forall P l -> Forall P (alter g i l).
Proof.
  intros Hg Hl. apply List.Forall_forall. intros y Hy.
  rewrite List.Forall_forall in Hl.
  destruct (in_alter_inv g l i y Hy) as [Hin|(x & Hx & ->)].
  - apply Hl. exact Hin.
  - apply Hg. apply Hl. apply (lookup_In l i). exact Hx.
Qed.

(** The answer of the authority carries the license [d] under the key [k]. *)
Lemma activation_licenses_detail now hw key response (t : Tables) :
  local_license_cache (fst (activation now hw key response t)) = local_license_cache t
  \/ exists k d e,
       response = ActivateBody true (Some d) e
       /\ licenseKey d = Some k
       /\ local_license_cache (fst (activation now hw key response t))
          = upsert_license now k d (local_license_cache t).
Proof.
  unfold activation, local_failure.
  destruct response as [e|e|[] [d|] err]; try (left; reflexivity).
  - destruct (licenseKey d) as [k|] eqn:Hk.
    + right. exists k, d, err. split; [reflexivity|]. split; [exact Hk|].
      destruct (feature_keys d) as [keys|]; [|reflexivity].
      destruct (sync_flush_ok now keys _); reflexivity.
    + left. reflexivity.
  - destruct err; left; reflexivity.
  - destruct err; left; reflexivity.
Qed.

Lemma send_heartbeat_licenses hw inst now response (t : Tables) :
  local_license_cache (database (send_heartbeat now response (new_client hw inst t)))
  = match local_license_cache t with
    | [] => []
    | r :: rest =>
        match response with
        | HeartbeatReturned _ => touched now r
        | _ => r
        end :: rest
    end.
Proof.
  destruct t as [[|r rest] ats fs]; destruct response as [e|e|code];
    unfold database, send_heartbeat, _get_cached_license, touched; run;
    rewrite ?app_nil_r; reflexivity.
Qed.

(** A property of the cached rows that the five ways of writing a row keep,
    and that a new row has, holds after every request. *)
Lemma serve_rows settings hw inst (P : LocalLicenseCache -> Prop) :
  (forall now r, P r -> P (grace_started settings now r)) ->
  (forall now r, P r -> P (validated now r)) ->
  (forall now r, P r -> P (touched now r)) ->
  (forall now d r, P r -> P (reactivated now d r)) ->
  (forall now k d, P (activated now k d)) ->
  forall now op (t : Tables),
    Forall P (local_license_cache t) ->
    Forall P (local_license_cache (serve settings hw inst now op t)).
Proof.
  intros Hstart Hvalid Htouch Hagain Hnew now op t Ht.
  assert (Hvalidate : forall response,
             Forall P (local_license_cache
                         (database (validate_license settings now response
                                      (new_client hw inst t))))).
  { intros response. destruct (local_license_cache t) as [|r rest] eqn:Hl.
    - rewrite (validate_license_no_license settings now response (new_client hw inst t) t
                 eq_refl Hl).
      change (Forall P (local_license_cache t)). rewrite Hl. constructor.
    - destruct (validate_license_cases settings hw inst now response t r rest Hl)
        as (r' & new & res & Heq & Hr').
      rewrite Heq. simpl. inversion Ht as [|? ? Hr Hrest]; subst.
      constructor; [|exact Hrest].
      destruct Hr' as [->|[->|[->| ->]]]; auto. }
  destruct op as [key response|response|response|key|response]; simpl.
  - rewrite activate_license_database.
    destruct (activation_licenses_detail now hw key response t)
      as [Heq|(k & d & e & _ & _ & Heq)]; rewrite Heq; [exact Ht|].
    unfold upsert_license.
    destruct (find_index (fun r => String.eqb (license_key r) k) (local_license_cache t)).
    + apply Forall_alter_In; [intros x; apply Hagain | exact Ht].
    + apply Forall_app. split; [exact Ht | constructor; [apply Hnew | constructor]].
  - apply Hvalidate.
  - rewrite send_heartbeat_licenses.
    destruct (local_license_cache t) as [|r rest]; [constructor|].
    inversion Ht as [|? ? Hr Hrest]; subst.
    constructor; [|exact Hrest]. destruct response; auto.
  - unfold database. rewrite is_feature_available_reads. exact Ht.
  - rewrite get_license_status_database. apply Hvalidate.
Qed.

(** X9. The grace bookkeeping stays consistent.  If every cached record in
    grace period has both grace timestamps, the expiry being the start plus
    [OFFLINE_GRACE_PERIOD_HOURS], then this still holds after any sequence of
    requests; it holds on an installation that starts without a license. *)
Theorem grace_bookkeeping_is_consistent settings hw inst calls : forall t : Tables,
  Forall (grace_consistent settings) (local_license_cache t) ->
  Forall (grace_consistent settings)
    (local_license_cache (serve_all settings hw inst calls t)).
Proof.
  induction calls as [|[now op] calls IH]; intros t Ht; simpl; [exact Ht|].
  apply IH. apply serve_rows; try assumption.
  - intros now' r _ _. exists now'. split; reflexivity.
  - intros now' r _ H. discriminate.
  - intros now' r H. exact H.
  - intros now' d r H. exact H.
  - intros now' k d H. discriminate.
Qed.

Lemma grace_bookkeeping_is_consistent_witness :
  Forall (grace_consistent default_settings)
    (local_license_cache
       (serve_all default_settings "hw" "inst"
          [(0, Activate "FOX-1" (accepts "FOX-1" (FeaturesList [])));
           (days 31, Validate (ValidateHTTPError "timed out"));
           (days 32, GetLicenseStatus (ValidateBody false None))]
          no_tables)).
Proof.
  apply (grace_bookkeeping_is_consistent default_settings "hw" "inst"
           [(0, Activate "FOX-1" (accepts "FOX-1" (FeaturesList [])));
            (days 31, Validate (ValidateHTTPError "timed out"));
            (days 32, GetLicenseStatus (ValidateBody false None))]
           no_tables).
  constructor.
Defined.

(** ** Activation and the other rows *)

(** A cached row after an activation: itself, or itself re-activated by an
    accepted license that carries its key. *)
Lemma activation_rows now hw key response (t : Tables) (i : nat) r :
  local_license_cache t !! i = Some r ->
  exists r',
    local_license_cache (fst (activation now hw key response t)) !! i = Some r'
    /\ (r' = r
        \/ exists d e,
             response = ActivateBody true (Some d) e
             /\ licenseKey d = Some (license_key r)
             /\ r' = reactivated now d r).
Proof.
  intros Hr.
  destruct (activation_licenses_detail now hw key response t)
    as [Heq|(k & d & e & Hresp & Hk & Heq)]; rewrite Heq.
  - exists r. split; [exact Hr | left; reflexivity].
  - unfold upsert_license.
    destruct (find_index (fun x => String.eqb (license_key x) k) (local_license_cache t))
      as [j|] eqn:Hfind.
    + destruct (decide (j = i)) as [->|Hne].
      * destruct (find_index_lookup _ _ _ Hfind) as (x & Hx & Hkey).
        rewrite Hr in Hx. injection Hx as <-. apply String.eqb_eq in Hkey.
        exists (reactivated now d r).
        split; [rewrite list_lookup_alter_eq, Hr; reflexivity|].
        right. exists d, e. rewrite Hkey. repeat split; assumption.
      * exists r. split; [|left; reflexivity].
        rewrite list_lookup_alter_ne by exact Hne. exact Hr.
    + exists r. split; [|left; reflexivity]. apply lookup_app_l_Some. exact Hr.
Qed.

(** X10. An activation writes at most one cached row.  Every row that was
    cached keeps its place; it is unchanged unless the authority accepted
    the activation with a license carrying that row's key, in which case it
    is that row re-activated; and the table grows by at most one row. *)
Theorem activation_touches_one_row hw inst (t : Tables) now key response (i : nat) r :
  local_license_cache t !! i = Some r ->
  let out := activate_license now key response (new_client hw inst t) in
  (exists r',
      local_license_cache (database out) !! i = Some r'
      /\ (r' = r
          \/ exists d e,
               response = ActivateBody true (Some d) e
               /\ licenseKey d = Some (license_key r)
               /\ r' = reactivated now d r))
  /\ (length (local_license_cache t) <= length (local_license_cache (database out))
      <= S (length (local_license_cache t)))%nat.
Proof.
  intros Hr. cbv zeta. rewrite activate_license_database. split.
  - apply activation_rows. exact Hr.
  - destruct (activation_licenses_detail now hw key response t)
      as [Heq|(k & d & e & _ & _ & Heq)]; rewrite Heq; [lia|].
    unfold upsert_license.
    destruct (find_index (fun x => String.eqb (license_key x) k) (local_license_cache t)).
    + rewrite length_alter. lia.
    + rewrite length_app. simpl. lia.
Qed.

Lemma activation_touches_one_row_witness :
  let a := sample_license "FOX-A" 100 true (Some 200) (Some 300) in
  let b := sample_license "FOX-B" 500 false None None in
  let t := {| local_license_cache := [a; b];
              local_license_validation_attempts := [];
              local_feature_flags := [] |} in
  let out := activate_license 1000 "FOX-B" (accepts "FOX-B" (FeaturesList []))
               (new_client "hw" "inst" t) in
  (exists r',
      local_license_cache (database out) !! 0%nat = Some r'
      /\ (r' = a
          \/ exists d e,
               accepts "FOX-B" (FeaturesList []) = ActivateBody true (Some d) e
               /\ licenseKey d = Some (license_key a)
               /\ r' = reactivated 1000 d a))
  /\ (2 <= length (local_license_cache (database out)) <= 3)%nat.
Proof.
  cbv zeta.
  apply (activation_touches_one_row "hw" "inst"
           {| local_license_cache :=
                [sample_license "FOX-A" 100 true (Some 200) (Some 300);
                 sample_license "FOX-B" 500 false None None];
              local_license_validation_attempts := [];
              local_feature_flags := [] |}
           1000 "FOX-B" (accepts "FOX-B" (FeaturesList [])) 0%nat
           (sample_license "FOX-A" 100 true (Some 200) (Some 300))).
  reflexivity.
Defined.

(** X11. Activating another key does not replace the cached license.  When
    a license is cached and the authority accepts an activation under a
    different key, the new license is stored in a row of its own and the row
    that [_get_cached_license] returns is the old one, unchanged: a later
    validation that is not confirmed is decided on the old record, whenever
    a grace period started then would expire at a datetime that Python
    represents. *)
Theorem second_key_keeps_cached_license settings hw inst (t : Tables) now key response
    d m k r now' response' :
  cached_license_of t = Some r ->
  snd (activate_license now key response (new_client hw inst t)) = Return (Activated d m) ->
  licenseKey d = Some k ->
  k <> license_key r ->
  authority_confirms response' = false ->
  let out := activate_license now key response (new_client hw inst t) in
  cached_license_of (database out) = Some r
  /\ (exists r',
         In r' (local_license_cache (database out))
         /\ license_key r' = k
         /\ license_data r' = d
         /\ valid_until r' = now + days 30)
  /\ (representable now' ->
      representable (now' + hours (OFFLINE_GRACE_PERIOD_HOURS settings)) ->
      exists res,
        snd (validate_license settings now' response' (new_client hw inst (database out)))
        = Return res
        /\ valid res = tolerated now' r).
Proof.
  intros Hc Hout Hk Hne Hf. cbv zeta.
  destruct (cached_license_cons t r Hc) as (rest & Hl).
  assert (Hhead : cached_license_of
                    (database (activate_license now key response (new_client hw inst t)))
                  = Some r).
  { rewrite activate_license_database.
    destruct (activation_rows now hw key response t 0%nat r) as (r' & Hr' & Hcase).
    { rewrite Hl. reflexivity. }
    unfold cached_license_of.
    destruct (local_license_cache (fst (activation now hw key response t))) as [|x xs];
      simpl in Hr'; [discriminate|].
    injection Hr' as ->. simpl.
    destruct Hcase as [->|(d' & e & Hresp & Hk' & _)]; [reflexivity|].
    exfalso.
    rewrite (activate_license_outcome now hw inst) in Hout. rewrite Hresp in Hout.
    unfold activation in Hout. rewrite Hk' in Hout.
    destruct (feature_keys d') as [keys|]; simpl in Hout; [|discriminate].
    destruct (sync_flush_ok now keys _); simpl in Hout; [|discriminate].
    injection Hout as -> _. rewrite Hk in Hk'. injection Hk' as ->. apply Hne. reflexivity. }
  split; [exact Hhead|]. split.
  - destruct (activate_license_accepted now hw inst key response t d m Hout)
      as (k' & keys & Hk' & _ & Hlic & _).
    rewrite Hk in Hk'. injection Hk' as <-. rewrite Hlic.
    destruct (upsert_license_row now k d (local_license_cache t))
      as (r' & Hin & Hrk & Hrd & Hrv & _).
    exists r'. repeat split; assumption.
  - intros _ _.
    destruct (unconfirmed_validation_decision settings hw inst
                (database (activate_license now key response (new_client hw inst t)))
                now' response' r Hhead Hf) as (res & Hres & Hvalid & _).
    exists res. split; assumption.
Qed.

Lemma second_key_keeps_cached_license_witness :
  let a := sample_license "FOX-A" 100 true (Some 200) (Some 300) in
  let out := activate_license 1000 "FOX-B" (accepts "FOX-B" (FeaturesList []))
               (new_client "hw" "inst" (sample_tables a)) in
  cached_license_of (database out) = Some a
  /\ (exists r',
         In r' (local_license_cache (database out))
         /\ license_key r' = "FOX-B"
         /\ license_data r' = sample_payload "FOX-B" (FeaturesList [])
         /\ valid_until r' = 1000 + days 30)
  /\ exists res,
       snd (validate_license default_settings 2000 (ValidateHTTPError "timed out")
              (new_client "hw" "inst" (database out)))
       = Return res
       /\ valid res = false.
Proof.
  cbv zeta.
  destruct (second_key_keeps_cached_license default_settings "hw" "inst"
              (sample_tables (sample_license "FOX-A" 100 true (Some 200) (Some 300)))
              1000 "FOX-B" (accepts "FOX-B" (FeaturesList []))
              (sample_payload "FOX-B" (FeaturesList [])) "License activated successfully"
              "FOX-B" (sample_license "FOX-A" 100 true (Some 200) (Some 300))
              2000 (ValidateHTTPError "timed out"))
    as (Hold & Hnew & Hlater).
  - reflexivity.
  - vm_compute. reflexivity.
  - reflexivity.
  - discriminate.
  - reflexivity.
  - split; [exact Hold|]. split; [exact Hnew|].
    apply Hlater; unfold representable, hours; simpl; lia.
Defined.

(** ** The unique keys *)

Lemma map_alter_same {A B} (f : A -> B) (g : A -> A) (l : list A) (i : nat) :
  (forall x, f (g x) = f x) -> map f (alter g i l) = map f l.
Proof.
  intros Hg. revert i. induction l as [|a l IH]; intros [|i]; try reflexivity.
  - change (alter g 0%nat (a :: l)) with (g a :: l). simpl. rewrite Hg. reflexivity.
  - change (alter g (S i) (a :: l)) with (a :: alter g i l). simpl. rewrite IH. reflexivity.
Qed.

Lemma existsb_eqb_In (k : string) (l : list string) :
  existsb (String.eqb k) l = true <-> In k l.
Proof.
  rewrite existsb_exists. split.
  - intros (x & Hx & Heq). apply String.eqb_eq in Heq. subst. exact Hx.
  - intros H. exists k. split; [exact H | apply String.eqb_refl].
Qed.

(** What [unique_insert] checks. *)
Lemma unique_insert_sound (fresh : list string) : forall present,
  unique_insert present fresh = true ->
  List.NoDup fresh /\ (forall k, In k fresh -> ~ In k present).
Proof.
  induction fresh as [|k fresh IH]; intros present H; simpl in H.
  - split; [constructor | intros k []].
  - apply andb_true_iff in H. destruct H as [Hk Hrest].
    apply negb_true_iff in Hk.
    destruct (IH (k :: present) Hrest) as [Hnd Hdis]. split.
    + constructor; [|exact Hnd]. intros Hin. apply (Hdis k Hin). left. reflexivity.
    + intros k' [<-|Hin] Hp.
      * apply existsb_eqb_In in Hp. congruence.
      * apply (Hdis k' Hin). right. exact Hp.
Qed.

Lemma unique_insert_complete (fresh : list string) : forall present,
  List.NoDup fresh -> (forall k, In k fresh -> ~ In k present) ->
  unique_insert present fresh = true.
Proof.
  induction fresh as [|k fresh IH]; intros present Hnd Hdis; simpl; [reflexivity|].
  inversion Hnd as [|? ? Hk Hnd']; subst.
  apply andb_true_iff. split.
  - apply negb_true_iff. destruct (existsb (String.eqb k) present) eqn:He; [|reflexivity].
    exfalso. apply existsb_eqb_In in He. apply (Hdis k); [left; reflexivity | exact He].
  - apply IH; [exact Hnd'|]. intros k' Hin [<-|Hp].
    + apply Hk. exact Hin.
    + apply (Hdis k'); [right; exact Hin | exact Hp].
Qed.

Lemma NoDup_app_fresh (present fresh : list string) :
  List.NoDup present -> List.NoDup fresh -> (forall k, In k fresh -> ~ In k present) ->
  List.NoDup (present ++ fresh).
Proof.
  intros Hp Hf Hdis. induction present as [|a present IH]; simpl; [exact Hf|].
  inversion Hp as [|? ? Ha Hp']; subst. constructor.
  - intros Hin. apply in_app_iff in Hin. destruct Hin as [Hin|Hin].
    + apply Ha. exact Hin.
    + apply (Hdis a Hin). left. reflexivity.
  - apply IH; [exact Hp'|]. intros k Hk Hin. apply (Hdis k Hk). right. exact Hin.
Qed.

Lemma sync_loop_keys now keys : forall fs ps,
  map feature_key (fst (sync_loop now keys fs ps)) = map feature_key fs.
Proof.
  unfold sync_loop. induction keys as [|key keys IH]; intros fs ps; simpl; [reflexivity|].
  unfold sync_step at 2. simpl.
  destruct (find_index (fun f => String.eqb (feature_key f) key) fs) as [i|].
  - rewrite IH. apply map_alter_same. reflexivity.
  - apply IH.
Qed.

Lemma synced_keys now keys (t : Tables) :
  map feature_key (fst (synced now keys t)) = flag_keys t.
Proof.
  unfold synced, flag_keys. rewrite sync_loop_keys, map_map. reflexivity.
Qed.

(** The keys after one request: the keys before, followed by new ones. *)
Lemma serve_keys settings hw inst now op (t : Tables) :
  exists more_licenses more_flags,
    license_keys (serve settings hw inst now op t) = (license_keys t ++ more_licenses)%list
    /\ flag_keys (serve settings hw inst now op t) = (flag_keys t ++ more_flags)%list
    /\ List.NoDup more_licenses /\ (forall k, In k more_licenses -> ~ In k (license_keys t))
    /\ List.NoDup more_flags /\ (forall k, In k more_flags -> ~ In k (flag_keys t)).
Proof.
  assert (Hnone : forall t' : Tables,
             license_keys t' = license_keys t -> flag_keys t' = flag_keys t ->
             exists more_licenses more_flags,
               license_keys t' = (license_keys t ++ more_licenses)%list
               /\ flag_keys t' = (flag_keys t ++ more_flags)%list
               /\ List.NoDup more_licenses
               /\ (forall k, In k more_licenses -> ~ In k (license_keys t))
               /\ List.NoDup more_flags /\ (forall k, In k more_flags -> ~ In k (flag_keys t))).
  { intros t' Hl Hf. exists [], []. rewrite !app_nil_r.
    repeat split; try assumption; try constructor; intros k []. }
  assert (Hvalidate : forall response,
             license_keys (database (validate_license settings now response
                                       (new_client hw inst t))) = license_keys t
             /\ flag_keys (database (validate_license settings now response
                                       (new_client hw inst t))) = flag_keys t).
  { intros response. unfold license_keys, flag_keys.
    destruct (local_license_cache t) as [|r rest] eqn:Hl.
    - rewrite (validate_license_no_license settings now response (new_client hw inst t) t
                 eq_refl Hl).
      change (map license_key (local_license_cache t) = []
              /\ map feature_key (local_feature_flags t)
                 = map feature_key (local_feature_flags t)).
      rewrite Hl. split; reflexivity.
    - destruct (validate_license_cases settings hw inst now response t r rest Hl)
        as (r' & new & res & Heq & Hr').
      rewrite Heq. simpl. split; [|reflexivity].
      destruct Hr' as [->|[->|[->| ->]]]; reflexivity. }
  destruct op as [key response|response|response|key|response]; simpl.
  - rewrite activate_license_database.
    assert (Hlic : exists more,
               license_keys (fst (activation now hw key response t))
               = (license_keys t ++ more)%list
               /\ List.NoDup more /\ (forall k, In k more -> ~ In k (license_keys t))).
    { unfold license_keys.
      destruct (activation_licenses_detail now hw key response t)
        as [Heq|(k & d & e & _ & _ & Heq)]; rewrite Heq.
      - exists []. rewrite app_nil_r. repeat split; [constructor | intros k []].
      - unfold upsert_license.
        destruct (find_index (fun r => String.eqb (license_key r) k)
                    (local_license_cache t)) as [i|] eqn:Hfind.
        + exists []. rewrite app_nil_r, map_alter_same by reflexivity.
          repeat split; [constructor | intros k' []].
        + exists [k]. rewrite map_app. split; [reflexivity|].
          split; [constructor; [intros []|constructor]|].
          intros k' [<-|[]] Hin.
          apply find_index_none in Hfind. rewrite <- existsb_key_map in Hfind.
          apply existsb_eqb_In in Hin. congruence. }
    assert (Hflag : exists more,
               flag_keys (fst (activation now hw key response t))
               = (flag_keys t ++ more)%list
               /\ List.NoDup more /\ (forall k, In k more -> ~ In k (flag_keys t))).
    { unfold flag_keys at 1.
      destruct (activation_flags now hw key response t)
        as [Heq|[Heq|(keys & Hok & Heq)]]; rewrite Heq.
      - exists []. rewrite app_nil_r. repeat split; [constructor | intros k []].
      - exists []. rewrite app_nil_r, map_map.
        repeat split; [constructor | intros k []].
      - exists (map feature_key (snd (synced now keys t))).
        rewrite map_app, synced_keys. split; [reflexivity|].
        unfold sync_flush_ok in Hok. rewrite synced_keys in Hok.
        apply unique_insert_sound. exact Hok. }
    destruct Hlic as (ml & Hl & Hlnd & Hldis). destruct Hflag as (mf & Hf & Hfnd & Hfdis).
    exists ml, mf. repeat split; assumption.
  - destruct (Hvalidate response) as [Hl Hf]. apply Hnone; assumption.
  - apply Hnone.
    + unfold license_keys. rewrite send_heartbeat_licenses.
      destruct (local_license_cache t) as [|r rest]; [reflexivity|].
      destruct response; reflexivity.
    + unfold flag_keys.
      destruct t as [[|r rest] ats fs]; destruct response as [e|e|code];
        unfold database, send_heartbeat, _get_cached_license; run;
        rewrite ?app_nil_r; reflexivity.
  - unfold database. rewrite is_feature_available_reads. apply Hnone; reflexivity.
  - rewrite get_license_status_database.
    destruct (Hvalidate response) as [Hl Hf]. apply Hnone; assumption.
Qed.

(** X12. The keys of the cached licenses and of the feature flags only
    grow: after any sequence of requests the list of license keys and the
    list of feature keys are the lists before, in the same order, followed
    by new keys; and if the keys of a table were pairwise different before,
    they still are.  No request removes or renames a row, and none stores
    the same key twice. *)
Theorem keys_only_grow settings hw inst calls : forall t : Tables,
  (exists more, license_keys (serve_all settings hw inst calls t)
                = (license_keys t ++ more)%list)
  /\ (exists more, flag_keys (serve_all settings hw inst calls t)
                   = (flag_keys t ++ more)%list)
  /\ (List.NoDup (license_keys t) -> List.NoDup (license_keys (serve_all settings hw inst calls t)))
  /\ (List.NoDup (flag_keys t) -> List.NoDup (flag_keys (serve_all settings hw inst calls t))).
Proof.
  induction calls as [|[now op] calls IH]; intros t; simpl.
  - split; [exists []; rewrite app_nil_r; reflexivity|].
    split; [exists []; rewrite app_nil_r; reflexivity|]. split; intros H; exact H.
  - destruct (serve_keys settings hw inst now op t)
      as (ml & mf & Hl & Hf & Hlnd & Hldis & Hfnd & Hfdis).
    destruct (IH (serve settings hw inst now op t)) as ((ml' & Hl') & (mf' & Hf') & Hn & Hn').
    split; [exists (ml ++ ml')%list; rewrite Hl', Hl, app_assoc; reflexivity|].
    split; [exists (mf ++ mf')%list; rewrite Hf', Hf, app_assoc; reflexivity|].
    split; intros Hnd.
    + apply Hn. rewrite Hl. apply NoDup_app_fresh; assumption.
    + apply Hn'. rewrite Hf. apply NoDup_app_fresh; assumption.
Qed.

Lemma keys_only_grow_witness :
  let calls := [(0, Activate "FOX-A" (accepts "FOX-A" (FeaturesList ["module.x"])));
                (10, Activate "FOX-B" (accepts "FOX-B" (FeaturesList ["module.y"; "module.x"])));
                (20, Activate "FOX-A" (accepts "FOX-A" (FeaturesList [])))] in
  List.NoDup (license_keys (serve_all default_settings "hw" "inst" calls no_tables))
  /\ List.NoDup (flag_keys (serve_all default_settings "hw" "inst" calls no_tables)).
Proof.
  cbv zeta.
  destruct (keys_only_grow default_settings "hw" "inst"
              [(0, Activate "FOX-A" (accepts "FOX-A" (FeaturesList ["module.x"])));
               (10, Activate "FOX-B"
                      (accepts "FOX-B" (FeaturesList ["module.y"; "module.x"])));
               (20, Activate "FOX-A" (accepts "FOX-A" (FeaturesList [])))]
              no_tables) as (_ & _ & Hl & Hf).
  split; [apply Hl | apply Hf]; constructor.
Defined.

(** ** When an activation raises *)

(** The keys of the flags that the loop of [_sync_feature_flags] leaves
    pending: those it had, followed by every key of the list that no loaded
    flag carries, as often as the list names it. *)
Lemma sync_loop_pending_keys now keys : forall fs ps,
  map feature_key (snd (sync_loop now keys fs ps))
  = (map feature_key ps
     ++ List.filter (fun k => negb (existsb (String.eqb k) (map feature_key fs))) keys)%list.
Proof.
  unfold sync_loop. induction keys as [|key keys IH]; intros fs ps; simpl.
  - rewrite app_nil_r. reflexivity.
  - unfold sync_step at 2. simpl. rewrite existsb_key_map.
    destruct (find_index (fun f => String.eqb (feature_key f) key) fs) as [i|] eqn:Hfind.
    + destruct (find_index_lookup _ _ _ Hfind) as (x & Hx & Hp).
      assert (Hex : existsb (fun f => String.eqb (feature_key f) key) fs = true).
      { apply existsb_exists. exists x. split; [apply (lookup_In fs i); exact Hx | exact Hp]. }
      rewrite Hex. simpl.
      rewrite IH. rewrite (map_alter_same feature_key (relicensed now)) by reflexivity.
      reflexivity.
    + rewrite (find_index_none _ _ Hfind). simpl.
      rewrite IH, map_app, <- app_assoc. reflexivity.
Qed.

Lemma sync_flush_ok_repeated now (t : Tables) k l1 l2 l3 :
  ~ In k (flag_keys t) ->
  sync_flush_ok now (l1 ++ k :: l2 ++ k :: l3) t = false.
Proof.
  intros Hnew. destruct (sync_flush_ok now _ t) eqn:Hok; [exfalso|reflexivity].
  unfold sync_flush_ok in Hok. apply unique_insert_sound in Hok. destruct Hok as [Hnd _].
  unfold synced in Hnd. rewrite sync_loop_pending_keys in Hnd. simpl in Hnd.
  rewrite map_map in Hnd. simpl in Hnd.
  assert (Hk : negb (existsb (String.eqb k)
                       (map (fun f => feature_key f) (local_feature_flags t))) = true).
  { apply negb_true_iff.
    destruct (existsb (String.eqb k) (map (fun f => feature_key f) (local_feature_flags t)))
      eqn:He; [|reflexivity].
    exfalso. apply Hnew. apply existsb_eqb_In in He. exact He. }
  rewrite List.filter_app in Hnd. simpl in Hnd. rewrite Hk in Hnd.
  rewrite List.filter_app in Hnd. simpl in Hnd. rewrite Hk in Hnd.
  apply List.NoDup_remove_2 in Hnd. apply Hnd.
  apply in_or_app. right. apply in_or_app. right. left. reflexivity.
Qed.

(** X13. A feature key named twice makes [activate_license] raise.  When the
    authority accepts an activation with a license that has a key and whose
    [enabledFeatures] names twice a feature that has no stored flag, the two
    turns of the loop each add a flag ([autoflush=False] hides the first
    from the query of the second), the commit of the flags violates the
    unique key, the log entry of the [except] branch cannot be committed,
    and [PendingRollbackError] leaves [activate_license]: the feature flags
    and the audit table are as before, and the heartbeat is not started. *)
Theorem repeated_new_feature_makes_activation_raise hw inst (t : Tables) now key d e
    licensed_key k l1 l2 l3 :
  licenseKey d = Some licensed_key ->
  enabledFeatures d = FeaturesList (l1 ++ k :: l2 ++ k :: l3) ->
  ~ In k (flag_keys t) ->
  let out := activate_license now key (ActivateBody true (Some d) e)
               (new_client hw inst t) in
  snd out = Raise (Exception "PendingRollbackError")
  /\ local_feature_flags (database out) = local_feature_flags t
  /\ local_license_validation_attempts (database out)
     = local_license_validation_attempts t
  /\ scheduler_running (fst out) = false
  /\ requests (fst out) = ["/licenses/activate"].
Proof.
  intros Hkey Hfeatures Hnew. cbv zeta.
  destruct (activate_license_client now hw inst key (ActivateBody true (Some d) e) t)
    as [Hrun Hreq].
  rewrite Hrun, Hreq, activate_license_database, activate_license_outcome.
  unfold activation. rewrite Hkey. unfold feature_keys. rewrite Hfeatures.
  rewrite sync_flush_ok_repeated by exact Hnew.
  repeat split.
Qed.

Lemma repeated_new_feature_makes_activation_raise_witness :
  let t := {| local_license_cache := [];
              local_license_validation_attempts := [];
              local_feature_flags := [sample_flag "module.analytics" true] |} in
  let out := activate_license 0 "FOX-A"
               (accepts "FOX-A" (FeaturesList ["module.analytics"; "module.x"; "module.x"]))
               (new_client "hw" "inst" t) in
  snd out = Raise (Exception "PendingRollbackError")
  /\ local_feature_flags (database out) = local_feature_flags t
  /\ local_license_validation_attempts (database out)
     = local_license_validation_attempts t
  /\ scheduler_running (fst out) = false
  /\ requests (fst out) = ["/licenses/activate"].
Proof.
  apply (repeated_new_feature_makes_activation_raise "hw" "inst"
           {| local_license_cache := [];
              local_license_validation_attempts := [];
              local_feature_flags := [sample_flag "module.analytics" true] |}
           0 "FOX-A"
           (sample_payload "FOX-A" (FeaturesList ["module.analytics"; "module.x"; "module.x"]))
           ErrorAbsent "FOX-A" "module.x" ["module.analytics"] [] []).
  - reflexivity.
  - reflexivity.
  - simpl. intros [H|[]]. discriminate H.
Defined.

(** ** From activation to feature checks *)

Lemma find_app_first {A} (p : A -> bool) (l l' : list A) :
  find p (l ++ l') = match find p l with Some x => Some x | None => find p l' end.
Proof.
  induction l as [|a l IH]; simpl; [reflexivity|]. destruct (p a); [reflexivity | exact IH].
Qed.

Lemma find_map_same {A} (p : A -> bool) (g : A -> A) (l : list A) :
  (forall x, p (g x) = p x) -> find p (map g l) = option_map g (find p l).
Proof.
  intros Hg. induction l as [|a l IH]; simpl; [reflexivity|].
  rewrite Hg. destruct (p a); [reflexivity | exact IH].
Qed.

Lemma find_alter_first {A} (p : A -> bool) (g : A -> A) (l : list A) : forall i : nat,
  (forall x, p (g x) = p x) ->
  find_index p l = Some i ->
  find p (alter g i l) = option_map g (find p l).
Proof.
  induction l as [|a l IH]; intros i Hg Hi; simpl in Hi; [discriminate|].
  destruct (p a) eqn:Ha.
  - injection Hi as <-. change (alter g 0%nat (a :: l)) with (g a :: l).
    simpl. rewrite Hg, Ha. reflexivity.
  - destruct (find_index p l) as [j|] eqn:Hj; [|discriminate]. injection Hi as <-.
    change (alter g (S j) (a :: l)) with (a :: alter g j l). simpl. rewrite Ha.
    apply IH; [exact Hg | reflexivity].
Qed.

Lemma find_alter_other {A} (q : A -> bool) (g : A -> A) (l : list A) :
  forall (i : nat) (x : A),
    (forall y, q (g y) = q y) ->
    l !! i = Some x -> q x = false ->
    find q (alter g i l) = find q l.
Proof.
  induction l as [|a l IH]; intros [|i] x Hg Hx Hq; simpl in Hx; try discriminate.
  - injection Hx as ->. change (alter g 0%nat (x :: l)) with (g x :: l).
    simpl. rewrite Hg, Hq. reflexivity.
  - change (alter g (S i) (a :: l)) with (a :: alter g i l). simpl.
    destruct (q a); [reflexivity|]. apply (IH i x); assumption.
Qed.

Lemma find_index_find_none {A} (p : A -> bool) (l : list A) :
  find_index p l = None -> find p l = None.
Proof.
  intros H. pose proof (find_index_find p l) as Hf. rewrite H in Hf. exact Hf.
Qed.

Lemma find_index_some_existsb {A} (p : A -> bool) (l : list A) (i : nat) :
  find_index p l = Some i -> existsb p l = true.
Proof.
  intros H. destruct (find_index_lookup p l i H) as (x & Hx & Hp).
  apply existsb_exists. exists x. split; [apply (lookup_In l i); exact Hx | exact Hp].
Qed.

Lemma relicensed_twice now (o : option LocalFeatureFlag) :
  option_map (relicensed now) (option_map (relicensed now) o) = option_map (relicensed now) o.
Proof. destruct o; reflexivity. Qed.

Lemma sync_step_flag_loaded now fs ps key k :
  flag_of k (fst (sync_step now (fs, ps) key))
  = if String.eqb k key then option_map (relicensed now) (flag_of k fs) else flag_of k fs.
Proof.
  unfold sync_step, flag_of. simpl.
  destruct (String.eqb k key) eqn:Hk.
  - apply String.eqb_eq in Hk. subst key.
    destruct (find_index (fun f => String.eqb (feature_key f) k) fs) as [i|] eqn:Hfind; simpl.
    + apply find_alter_first; [reflexivity | exact Hfind].
    + rewrite (find_index_find_none _ _ Hfind). reflexivity.
  - destruct (find_index (fun f => String.eqb (feature_key f) key) fs) as [i|] eqn:Hfind;
      simpl; [|reflexivity].
    destruct (find_index_lookup _ _ _ Hfind) as (x & Hx & Hkey).
    apply String.eqb_eq in Hkey.
    apply (find_alter_other _ _ fs i x); [reflexivity | exact Hx|].
    rewrite Hkey, String.eqb_sym. exact Hk.
Qed.

Lemma sync_step_flag_pending now fs ps key k :
  flag_of k (snd (sync_step now (fs, ps) key))
  = match flag_of k ps with
    | Some p => Some p
    | None =>
        if String.eqb k key && negb (existsb (fun f => String.eqb (feature_key f) k) fs)
        then Some (new_flag now k) else None
    end.
Proof.
  unfold sync_step, flag_of. simpl.
  destruct (find_index (fun f => String.eqb (feature_key f) key) fs) as [i|] eqn:Hfind; simpl.
  - destruct (find (fun f => String.eqb (feature_key f) k) ps); [reflexivity|].
    destruct (String.eqb k key) eqn:Hk; [|reflexivity].
    apply String.eqb_eq in Hk. subst key.
    rewrite (find_index_some_existsb _ _ _ Hfind). reflexivity.
  - rewrite find_app_first.
    destruct (find (fun f => String.eqb (feature_key f) k) ps); [reflexivity|].
    simpl. rewrite (String.eqb_sym key k).
    destruct (String.eqb k key) eqn:Hk; [|reflexivity].
    apply String.eqb_eq in Hk. subst key.
    rewrite (find_index_none _ _ Hfind). reflexivity.
Qed.

Lemma sync_step_has_key now fs ps key k :
  existsb (fun f => String.eqb (feature_key f) k) (fst (sync_step now (fs, ps) key))
  = existsb (fun f => String.eqb (feature_key f) k) fs.
Proof.
  rewrite <- !existsb_key_map. f_equal.
  unfold sync_step. simpl.
  destruct (find_index (fun f => String.eqb (feature_key f) key) fs); simpl; [|reflexivity].
  apply map_alter_same. reflexivity.
Qed.

Lemma sync_loop_flag_loaded now keys k : forall fs ps,
  flag_of k (fst (sync_loop now keys fs ps))
  = if existsb (String.eqb k) keys
    then option_map (relicensed now) (flag_of k fs)
    else flag_of k fs.
Proof.
  unfold sync_loop. induction keys as [|key keys IH]; intros fs ps; simpl; [reflexivity|].
  pose proof (sync_step_flag_loaded now fs ps key k) as Hstep.
  destruct (sync_step now (fs, ps) key) as [fs1 ps1]. simpl in Hstep.
  rewrite IH, Hstep.
  destruct (String.eqb k key); destruct (existsb (String.eqb k) keys); simpl;
    rewrite ?relicensed_twice; reflexivity.
Qed.

Lemma sync_loop_flag_pending now keys k : forall fs ps,
  flag_of k (snd (sync_loop now keys fs ps))
  = match flag_of k ps with
    | Some p => Some p
    | None =>
        if existsb (String.eqb k) keys
           && negb (existsb (fun f => String.eqb (feature_key f) k) fs)
        then Some (new_flag now k) else None
    end.
Proof.
  unfold sync_loop. induction keys as [|key keys IH]; intros fs ps; simpl.
  - destruct (flag_of k ps); reflexivity.
  - pose proof (sync_step_flag_pending now fs ps key k) as Hstep.
    pose proof (sync_step_has_key now fs ps key k) as Hkeys.
    destruct (sync_step now (fs, ps) key) as [fs1 ps1]. simpl in Hstep, Hkeys.
    rewrite IH, Hstep, Hkeys.
    destruct (flag_of k ps); [reflexivity|].
    destruct (String.eqb k key); destruct (existsb (String.eqb k) keys);
      destruct (existsb (fun f => String.eqb (feature_key f) k) fs); reflexivity.
Qed.

(** The value of a feature check, from the flag table. *)
Lemma is_feature_available_value settings hw inst key (t : Tables) :
  snd (is_feature_available settings key (new_client hw inst t))
  = Return match flag_of key (local_feature_flags t) with
           | Some f => licensed f && system_enabled f
           | None => ALLOW_UNLICENSED_CORE_FEATURES settings && _is_core_feature key
           end.
Proof.
  destruct t as [ls ats fs]. unfold is_feature_available, flag_of. run.
  pose proof (find_index_find (fun f => String.eqb (feature_key f) key) fs) as Hfind.
  destruct (find_index (fun f => String.eqb (feature_key f) key) fs) as [i|].
  - destruct Hfind as [Hi [f Hf]]. run. rewrite Hi, Hf. reflexivity.
  - rewrite Hfind.
    match goal with |- context [if ?b then _ else _] => destruct b end; reflexivity.
Qed.

(** X14. What an activation licenses is what the feature check reports.
    After a successful activation with the list [enabledFeatures], a feature
    that had a stored flag is available exactly when it is in the list and
    the administrator's [system_enabled] of that flag is set; a feature
    without a stored flag is available when it is in the list (its flag is
    created switched on), and otherwise only as an unlicensed core feature. *)
Theorem licensed_features_become_available settings hw inst (t : Tables) now key response
    d m keys k :
  snd (activate_license now key response (new_client hw inst t)) = Return (Activated d m) ->
  feature_keys d = Some keys ->
  let out := activate_license now key response (new_client hw inst t) in
  snd (is_feature_available settings k (new_client hw inst (database out)))
  = Return match flag_of k (local_feature_flags t) with
           | Some f => existsb (String.eqb k) keys && system_enabled f
           | None =>
               existsb (String.eqb k) keys
               || (ALLOW_UNLICENSED_CORE_FEATURES settings && _is_core_feature k)
           end.
Proof.
  intros Hout Hkeys. cbv zeta.
  destruct (activate_license_accepted now hw inst key response t d m Hout)
    as (k0 & keys0 & _ & Hkeys0 & _ & _ & Hflags).
  rewrite Hkeys in Hkeys0. injection Hkeys0 as <-.
  rewrite is_feature_available_value, Hflags. f_equal.
  unfold flag_of at 1. rewrite find_app_first.
  change (find (fun f => String.eqb (feature_key f) k) (fst (synced now keys t)))
    with (flag_of k (fst (synced now keys t))).
  change (find (fun f => String.eqb (feature_key f) k) (snd (synced now keys t)))
    with (flag_of k (snd (synced now keys t))).
  unfold synced. rewrite sync_loop_flag_loaded, sync_loop_flag_pending.
  unfold flag_of at 1 2 3.
  rewrite (find_map_same _ unlicensed) by reflexivity.
  assert (Hex : existsb (fun f => String.eqb (feature_key f) k)
                  (map unlicensed (local_feature_flags t))
                = match flag_of k (local_feature_flags t) with
                  | Some _ => true
                  | None => false
                  end).
  { unfold flag_of. induction (local_feature_flags t) as [|a l IH]; simpl; [reflexivity|].
    destruct (String.eqb (feature_key a) k); [reflexivity | exact IH]. }
  rewrite Hex. unfold flag_of.
  destruct (find (fun f => String.eqb (feature_key f) k) (local_feature_flags t)) as [f|];
    destruct (existsb (String.eqb k) keys); simpl; reflexivity.
Qed.

Lemma licensed_features_become_available_witness :
  let off := {| feature_key := "module.analytics"; enabled := true; licensed := true;
                system_enabled := false; synced_at := Some 0 |} in
  let t := {| local_license_cache := [];
              local_license_validation_attempts := [];
              local_feature_flags := [off; sample_flag "module.export" true] |} in
  let response := accepts "FOX-1" (FeaturesList ["module.analytics"; "module.maps"]) in
  let after := database (activate_license 10 "FOX-1" response (new_client "hw" "inst" t)) in
  snd (is_feature_available default_settings "module.analytics"
         (new_client "hw" "inst" after)) = Return false
  /\ snd (is_feature_available default_settings "module.maps"
            (new_client "hw" "inst" after)) = Return true
  /\ snd (is_feature_available default_settings "module.export"
            (new_client "hw" "inst" after)) = Return false.
Proof.
  cbv zeta.
  pose proof (fun k =>
                licensed_features_become_available default_settings "hw" "inst"
                  {| local_license_cache := [];
                     local_license_validation_attempts := [];
                     local_feature_flags :=
                       [{| feature_key := "module.analytics"; enabled := true;
                           licensed := true; system_enabled := false;
                           synced_at := Some 0 |};
                        sample_flag "module.export" true] |}
                  10 "FOX-1"
                  (accepts "FOX-1" (FeaturesList ["module.analytics"; "module.maps"]))
                  (sample_payload "FOX-1" (FeaturesList ["module.analytics"; "module.maps"]))
                  "License activated successfully"
                  ["module.analytics"; "module.maps"] k eq_refl eq_refl) as H.
  split; [exact (H "module.analytics")|].
  split; [exact (H "module.maps") | exact (H "module.export")].
Defined.

(** ** The status *)

Lemma get_license_status_after settings now response (c c' : LicenseClient) res r' rest' :
  _get_cached_license c = (c, Return (Some 0%nat)) ->
  validate_license settings now response c = (c', Return res) ->
  local_license_cache (rows (db c')) = r' :: rest' ->
  get_license_status settings now response c = (c', Return (status_of res r')).
Proof.
  intros Hq Hv Hr. unfold get_license_status, bind. rewrite Hq, Hv.
  unfold load_license, read_db, bind, status_of, licensed_status. rewrite Hr. simpl.
  destruct (valid res); reflexivity.
Qed.

(** The status of an installation with a cached license, from its validation. *)
Lemma get_license_status_cached settings hw inst now response (t : Tables) r rest :
  local_license_cache t = r :: rest ->
  exists r' res,
    snd (validate_license settings now response (new_client hw inst t)) = Return res
    /\ local_license_cache
         (database (validate_license settings now response (new_client hw inst t)))
       = r' :: rest
    /\ snd (get_license_status settings now response (new_client hw inst t))
       = Return (status_of res r').
Proof.
  intros Hl.
  destruct (validate_license_cases settings hw inst now response t r rest Hl)
    as (r' & new & res & Heq & _).
  exists r', res. rewrite Heq. split; [reflexivity|]. split; [reflexivity|].
  erewrite get_license_status_after; [reflexivity | | exact Heq | reflexivity].
  destruct t as [ls ats fs]. simpl in Hl. subst ls. reflexivity.
Qed.

(** X15. [get_license_status] always goes through a validation: without a
    cached license it answers "No license activated" without posting a
    request or writing; with one it leaves the client, its requests and the
    database exactly as [validate_license] does, so that asking for the
    status posts one validation request and can start a grace period.  It
    returns a status whenever a grace period started at [now] would expire
    at a datetime that Python represents, for the answers of the authority
    of the kinds embedded, whose [isValid] is missing or a boolean. *)
Theorem status_goes_through_validation settings hw inst (t : Tables) now response :
  (let c := new_client hw inst (with_licenses [] t) in
   get_license_status settings now response c
   = (c, Return (StatusNoLicense "No license activated")))
  /\ (representable now ->
      representable (now + hours (OFFLINE_GRACE_PERIOD_HOURS settings)) ->
      exists s,
        snd (get_license_status settings now response (new_client hw inst t)) = Return s)
  /\ fst (get_license_status settings now response (new_client hw inst t))
     = fst (validate_license settings now response (new_client hw inst t))
  /\ (forall r rest,
         local_license_cache t = r :: rest ->
         representable now ->
         representable (now + hours (OFFLINE_GRACE_PERIOD_HOURS settings)) ->
         exists s,
           snd (get_license_status settings now response (new_client hw inst t)) = Return s
           /\ s <> StatusNoLicense "No license activated"
           /\ requests (fst (get_license_status settings now response
                               (new_client hw inst t)))
              = ["/licenses/validate"]).
Proof.
  split; [|split; [|split]].
  - destruct t as [ls ats fs]. cbv zeta.
    unfold get_license_status, _get_cached_license. run. reflexivity.
  - intros _ _. destruct (local_license_cache t) as [|r rest] eqn:Hl.
    + destruct t as [ls ats fs]. simpl in Hl. subst ls.
      unfold get_license_status, _get_cached_license. run. eexists. reflexivity.
    + destruct (get_license_status_cached settings hw inst now response t r rest Hl)
        as (r' & res & _ & _ & Hs).
      eexists. exact Hs.
  - apply get_license_status_client.
  - intros r rest Hl _ _.
    destruct (get_license_status_cached settings hw inst now response t r rest Hl)
      as (r' & res & _ & _ & Hs).
    exists (status_of res r'). split; [exact Hs|]. split.
    + unfold status_of, licensed_status. destruct (valid res); discriminate.
    + rewrite get_license_status_client.
      destruct (validate_license_cases settings hw inst now response t r rest Hl)
        as (r'' & new & res' & Heq & _).
      rewrite Heq. reflexivity.
Qed.

Lemma status_goes_through_validation_witness :
  let t := sample_tables (sample_license "FOX-1" 100 false None None) in
  exists s,
    snd (get_license_status default_settings 200 (ValidateHTTPError "timed out")
           (new_client "hw" "inst" t)) = Return s
    /\ s <> StatusNoLicense "No license activated"
    /\ requests (fst (get_license_status default_settings 200
                        (ValidateHTTPError "timed out") (new_client "hw" "inst" t)))
       = ["/licenses/validate"].
Proof.
  cbv zeta.
  destruct (status_goes_through_validation default_settings "hw" "inst"
              (sample_tables (sample_license "FOX-1" 100 false None None)) 200
              (ValidateHTTPError "timed out")) as (_ & _ & _ & Hcached).
  apply (Hcached (sample_license "FOX-1" 100 false None None) []).
  - reflexivity.
  - unfold representable. lia.
  - unfold representable, hours. simpl. lia.
Defined.



(** ** The hardware fingerprint *)

Lemma byte_at_bits (n e j : Z) :
  0 <= e -> 0 <= j ->
  Z.testbit (Z.land (Z.shiftr n e) 255) j
  = if j <? 8 then Z.testbit n (j + e) else false.
Proof.
  intros He Hj. change 255 with (Z.ones 8). rewrite Z.land_ones by lia.
  destruct (j <? 8) eqn:Hlt.
  - apply Z.ltb_lt in Hlt. rewrite Z.mod_pow2_bits_low by lia.
    apply Z.shiftr_spec. exact Hj.
  - apply Z.ltb_ge in Hlt. apply Z.mod_pow2_bits_high. lia.
Qed.

Lemma byte_at_range (n e : Z) : 0 <= Z.land (Z.shiftr n e) 255 < 256.
Proof.
  change 255 with (Z.ones 8). rewrite Z.land_ones by lia.
  apply Z.mod_pos_bound. reflexivity.
Qed.

Lemma low_bits_eq (n n' k : Z) :
  0 <= k ->
  n mod 2 ^ k = n' mod 2 ^ k <-> (forall i, 0 <= i < k -> Z.testbit n i = Z.testbit n' i).
Proof.
  intros Hk. split.
  - intros Heq i Hi.
    rewrite <- (Z.mod_pow2_bits_low n k i) by lia.
    rewrite <- (Z.mod_pow2_bits_low n' k i) by lia.
    rewrite Heq. reflexivity.
  - intros Hbits. apply Z.bits_inj'. intros i Hi.
    destruct (Z_lt_le_dec i k) as [Hlt|Hge].
    + rewrite !Z.mod_pow2_bits_low by lia. apply Hbits. lia.
    + rewrite !Z.mod_pow2_bits_high by lia. reflexivity.
Qed.

(** The groups of the rendering: the byte at each shift. *)
Lemma byte_at_low_bits (n n' e : Z) :
  0 <= e <= 10 ->
  n mod 2 ^ 18 = n' mod 2 ^ 18 ->
  Z.land (Z.shiftr n e) 255 = Z.land (Z.shiftr n' e) 255.
Proof.
  intros He Heq. apply Z.bits_inj'. intros j Hj.
  rewrite !byte_at_bits by lia.
  destruct (j <? 8) eqn:Hlt; [|reflexivity].
  apply Z.ltb_lt in Hlt.
  apply (proj1 (low_bits_eq n n' 18 ltac:(lia)) Heq). lia.
Qed.



Lemma in_bytes (b : Z) : 0 <= b < 256 -> In b all_bytes.
Proof.
  intros Hb. unfold all_bytes. apply in_map_iff. exists (Z.to_nat b). split; [lia|].
  apply in_seq. lia.
Qed.

Lemma format_02x_two (b : Z) :
  0 <= b < 256 -> exists c1 c2, format_02x b = String c1 (String c2 "").
Proof.
  intros Hb.
  assert (Hall : forallb (fun b => match format_02x b with
                                   | String _ (String _ "") => true
                                   | _ => false
                                   end) all_bytes = true) by (vm_compute; reflexivity).
  rewrite forallb_forall in Hall. specialize (Hall b (in_bytes b Hb)).
  destruct (format_02x b) as [|c1 [|c2 [|c3 s]]]; try discriminate.
  exists c1, c2. reflexivity.
Qed.

Lemma format_02x_inj (b b' : Z) :
  0 <= b < 256 -> 0 <= b' < 256 -> format_02x b = format_02x b' -> b = b'.
Proof.
  intros Hb Hb' Heq.
  assert (Hall : forallb (fun b => forallb (fun b' =>
                   implb (String.eqb (format_02x b) (format_02x b')) (b =? b')) all_bytes)
                   all_bytes = true) by (vm_compute; reflexivity).
  rewrite forallb_forall in Hall. specialize (Hall b (in_bytes b Hb)).
  rewrite forallb_forall in Hall. specialize (Hall b' (in_bytes b' Hb')).
  rewrite Heq, String.eqb_refl in Hall. simpl in Hall. apply Z.eqb_eq. exact Hall.
Qed.

(** The rendering is made of the bytes at the shifts 10, 8, .., 0. *)
Lemma mac_groups (n n' : Z) :
  mac n = mac n' ->
  forall e, In e [0; 2; 4; 6; 8; 10] ->
            Z.land (Z.shiftr n e) 255 = Z.land (Z.shiftr n' e) 255.
Proof.
  unfold mac. cbn [map rev app join].
  intros Heq.
  assert (Hgroups : forall e, exists c1 c2 c1' c2',
             format_02x (Z.land (Z.shiftr n e) 255) = String c1 (String c2 "")
             /\ format_02x (Z.land (Z.shiftr n' e) 255) = String c1' (String c2' "")).
  { intros e.
    destruct (format_02x_two _ (byte_at_range n e)) as (c1 & c2 & H1).
    destruct (format_02x_two _ (byte_at_range n' e)) as (c1' & c2' & H2).
    exists c1, c2, c1', c2'. split; assumption. }
  destruct (Hgroups 0) as (a1 & a2 & a1' & a2' & Ha & Ha').
  destruct (Hgroups 2) as (b1 & b2 & b1' & b2' & Hb & Hb').
  destruct (Hgroups 4) as (c1 & c2 & c1' & c2' & Hc & Hc').
  destruct (Hgroups 6) as (d1 & d2 & d1' & d2' & Hd & Hd').
  destruct (Hgroups 8) as (e1 & e2 & e1' & e2' & He & He').
  destruct (Hgroups 10) as (f1 & f2 & f1' & f2' & Hf & Hf').
  assert (Hstr : format_02x (Z.land (Z.shiftr n 0) 255)
                 = format_02x (Z.land (Z.shiftr n' 0) 255)
                 /\ format_02x (Z.land (Z.shiftr n 2) 255)
                    = format_02x (Z.land (Z.shiftr n' 2) 255)
                 /\ format_02x (Z.land (Z.shiftr n 4) 255)
                    = format_02x (Z.land (Z.shiftr n' 4) 255)
                 /\ format_02x (Z.land (Z.shiftr n 6) 255)
                    = format_02x (Z.land (Z.shiftr n' 6) 255)
                 /\ format_02x (Z.land (Z.shiftr n 8) 255)
                    = format_02x (Z.land (Z.shiftr n' 8) 255)
                 /\ format_02x (Z.land (Z.shiftr n 10) 255)
                    = format_02x (Z.land (Z.shiftr n' 10) 255)).
  { rewrite Ha, Ha', Hb, Hb', Hc, Hc', Hd, Hd', He, He', Hf, Hf' in *.
    cbn in Heq. injection Heq as -> -> -> -> -> -> -> -> -> -> -> ->.
    repeat split; reflexivity. }
  destruct Hstr as (H0 & H2 & H4 & H6 & H8 & H10).
  intros e Hin. simpl in Hin.
  destruct Hin as [<-|[<-|[<-|[<-|[<-|[<-|[]]]]]]];
    apply format_02x_inj; auto using byte_at_range.
Qed.

(** X17. The MAC address that goes into the hardware fingerprint is built
    with the shifts 0, 2, .., 10 of [range(0, 2*6, 2)], not 0, 8, .., 40: it
    is a string of 17 characters that renders exactly the low 18 bits of
    [uuid.getnode()].  Two nodes have the same rendering if and only if they
    agree modulo 2^18, and then they have the same fingerprint whatever the
    hash function is. *)
Theorem fingerprint_reads_18_bits_of_the_node (node node' : Z) :
  (mac node = mac node' <-> node mod 2 ^ 18 = node' mod 2 ^ 18)
  /\ String.length (mac node) = 17%nat
  /\ (node mod 2 ^ 18 = node' mod 2 ^ 18 ->
      forall sha256_hexdigest cpu_count system machine,
        get_hardware_fingerprint sha256_hexdigest node cpu_count system machine
        = get_hardware_fingerprint sha256_hexdigest node' cpu_count system machine).
Proof.
  assert (Hmac : node mod 2 ^ 18 = node' mod 2 ^ 18 -> mac node = mac node').
  { intros Heq. unfold mac. cbn [map].
    rewrite (byte_at_low_bits node node' 0), (byte_at_low_bits node node' 2),
      (byte_at_low_bits node node' 4), (byte_at_low_bits node node' 6),
      (byte_at_low_bits node node' 8), (byte_at_low_bits node node' 10)
      by (exact Heq || lia).
    reflexivity. }
  split; [split; [|exact Hmac]|split].
  - intros Heq. pose proof (mac_groups node node' Heq) as Hg.
    apply low_bits_eq; [lia|]. intros i Hi.
    assert (Hbit : forall e j, In e [0; 2; 4; 6; 8; 10] -> 0 <= j < 8 ->
                     Z.testbit node (j + e) = Z.testbit node' (j + e)).
    { intros e j Hin Hj.
      assert (He : 0 <= e) by (simpl in Hin; lia).
      pose proof (byte_at_bits node e j He ltac:(lia)) as H1.
      pose proof (byte_at_bits node' e j He ltac:(lia)) as H2.
      assert (Hlt : (j <? 8) = true) by (apply Z.ltb_lt; lia).
      rewrite Hlt in H1, H2. rewrite <- H1, <- H2, (Hg e Hin). reflexivity. }
    destruct (Z_lt_le_dec i 8) as [H8|H8].
    + replace i with (i + 0) by lia. apply Hbit; [simpl; auto | lia].
    + destruct (Z_lt_le_dec i 16) as [H16|H16].
      * replace i with ((i - 8) + 8) by lia. apply Hbit; [simpl; auto 10 | lia].
      * replace i with ((i - 10) + 10) by lia. apply Hbit; [simpl; auto 10 | lia].
  - unfold mac. cbn [map rev app join].
    destruct (format_02x_two _ (byte_at_range node 0)) as (a1 & a2 & ->).
    destruct (format_02x_two _ (byte_at_range node 2)) as (b1 & b2 & ->).
    destruct (format_02x_two _ (byte_at_range node 4)) as (c1 & c2 & ->).
    destruct (format_02x_two _ (byte_at_range node 6)) as (d1 & d2 & ->).
    destruct (format_02x_two _ (byte_at_range node 8)) as (e1 & e2 & ->).
    destruct (format_02x_two _ (byte_at_range node 10)) as (f1 & f2 & ->).
    reflexivity.
  - intros Heq sha cpu system machine. unfold get_hardware_fingerprint.
    rewrite (Hmac Heq). reflexivity.
Qed.

Lemma fingerprint_reads_18_bits_of_the_node_witness :
  mac 18838586676582 = "15:55:55:56:59:66"
  /\ forall sha256_hexdigest cpu_count system machine,
       get_hardware_fingerprint sha256_hexdigest 18838586676582 cpu_count system machine
       = get_hardware_fingerprint sha256_hexdigest 187723562636646 cpu_count system machine.
Proof.
  split; [vm_compute; reflexivity|].
  apply (proj2 (proj2 (fingerprint_reads_18_bits_of_the_node
                         18838586676582 187723562636646))).
  reflexivity.
Defined.

(** ** The installation id *)

Lemma installation_id_found uuid4 now table :
  let out := system_config._get_or_create_installation_id uuid4 now table in
  exists c,
    find (fun c => String.eqb (system_config.key c) "installation_id") (fst out) = Some c
    /\ system_config.value c = snd out.
Proof.
  cbv zeta. unfold system_config._get_or_create_installation_id.
  destruct (find _ table) as [c|] eqn:Hfind; simpl.
  - exists c. split; [exact Hfind | reflexivity].
  - exists {| system_config.key := "installation_id"; system_config.value := uuid4;
              system_config.updated_at := Some now |}.
    split; [|reflexivity]. rewrite find_app_first, Hfind. reflexivity.
Qed.

Lemma installation_id_kept uuid4 now table c :
  find (fun c => String.eqb (system_config.key c) "installation_id") table = Some c ->
  system_config._get_or_create_installation_id uuid4 now table
  = (table, system_config.value c).
Proof.
  intros Hfind. unfold system_config._get_or_create_installation_id.
  rewrite Hfind. reflexivity.
Qed.

Lemma installation_ids_kept calls table c :
  find (fun c => String.eqb (system_config.key c) "installation_id") table = Some c ->
  List.Forall (fun id => id = system_config.value c)
    (system_config.installation_ids calls table).
Proof.
  intros Hfind. induction calls as [|[u now] calls IH]; simpl.
  - constructor.
  - rewrite (installation_id_kept u now table c Hfind).
    constructor; [reflexivity | exact IH].
Qed.

(** X18. The installation id is created once.  The first construction of a
    client stores the uuid it drew, after the rows that [system_config]
    already has; from then on every construction returns that same id and
    writes nothing, whatever uuid and time it is given, and a stored id is
    never replaced by a new uuid. *)
Theorem installation_id_is_created_once uuid4 now table calls :
  let first := system_config._get_or_create_installation_id uuid4 now table in
  (forall uuid4' now',
      system_config._get_or_create_installation_id uuid4' now' (fst first) = first)
  /\ List.Forall (fun id => id = snd first)
       (system_config.installation_ids calls (fst first))
  /\ (exists added, fst first = (table ++ added)%list /\ (length added <= 1)%nat)
  /\ (snd first = uuid4
      \/ exists c, In c table /\ system_config.key c = "installation_id"
                   /\ system_config.value c = snd first).
Proof.
  cbv zeta.
  destruct (installation_id_found uuid4 now table) as (c & Hfind & Hval).
  split; [|split; [|split]].
  - intros u' now'. rewrite (installation_id_kept u' now' _ c Hfind), Hval.
    destruct (system_config._get_or_create_installation_id uuid4 now table). reflexivity.
  - rewrite <- Hval. apply installation_ids_kept. exact Hfind.
  - unfold system_config._get_or_create_installation_id.
    destruct (find _ table) as [c0|]; simpl.
    + exists []. rewrite app_nil_r. split; [reflexivity | simpl; lia].
    + eexists. split; [reflexivity | simpl; lia].
  - unfold system_config._get_or_create_installation_id.
    destruct (find _ table) as [c0|] eqn:Hf; simpl.
    + right. exists c0. apply find_some in Hf. destruct Hf as [Hin Hkey].
      apply String.eqb_eq in Hkey. repeat split; assumption.
    + left. reflexivity.
Qed.

(** ** The endpoints *)

Lemma send_heartbeat_returns hw inst (t : Tables) now response :
  snd (send_heartbeat now response (new_client hw inst t)) = Return tt.
Proof.
  destruct t as [[|r0 rest0] ats fs]; destruct response as [e|e|code0];
    unfold send_heartbeat, _get_cached_license; run; reflexivity.
Qed.

(** X19. The heartbeat endpoint reports success whatever happened.  On every
    database and for every outcome of the collection and of the post, the
    handler answers [{"success": True, "message": "Heartbeat sent"}]: also
    when no license is cached, in which case nothing was posted or written,
    and when the post raised, in which case the database is as before. *)
Theorem heartbeat_endpoint_always_reports_success hw inst (t : Tables) now response :
  snd (main.send_heartbeat hw inst now response t)
  = main.Respond {| models.success := true; models.message := "Heartbeat sent" |}
  /\ (cached_license_of t = None ->
      fst (main.send_heartbeat hw inst now response t) = new_client hw inst t)
  /\ (forall e, response = HeartbeatHTTPError e ->
                persisted (db (fst (main.send_heartbeat hw inst now response t))) = t).
Proof.
  unfold main.send_heartbeat.
  pose proof (send_heartbeat_returns hw inst t now response) as Hret.
  destruct (send_heartbeat now response (new_client hw inst t)) as [c' o] eqn:Hout.
  simpl in Hret. subst o. split; [reflexivity|]. split.
  - intros Hnone. destruct t as [[|r rest] ats fs]; [|discriminate].
    revert Hout. unfold send_heartbeat, _get_cached_license. run.
    intros Hout. injection Hout as <-. reflexivity.
  - intros e ->. destruct t as [[|r rest] ats fs];
      revert Hout; unfold send_heartbeat, _get_cached_license; run;
      intros Hout; injection Hout as <-; reflexivity.
Qed.

Lemma heartbeat_endpoint_always_reports_success_witness :
  main.send_heartbeat "hw" "inst" 200 (HeartbeatHTTPError "timed out") no_tables
  = (new_client "hw" "inst" no_tables,
     main.Respond {| models.success := true; models.message := "Heartbeat sent" |}).
Proof.
  destruct (heartbeat_endpoint_always_reports_success "hw" "inst" no_tables 200
              (HeartbeatHTTPError "timed out")) as (Hanswer & Hnone & _).
  rewrite <- Hanswer, <- (Hnone eq_refl).
  destruct (main.send_heartbeat "hw" "inst" 200 (HeartbeatHTTPError "timed out") no_tables).
  reflexivity.
Defined.

(** The outcome of an activation that is not accepted: a failure whose
    message the audit table holds when anything was logged, or the exception
    of a session that a failed flush has closed. *)
Lemma activation_not_accepted now hw key response (t : Tables) :
  match snd (activation now hw key response t) with
  | Return (Activated d m) => True
  | Return (ActivationFailed error) =>
      local_license_validation_attempts (fst (activation now hw key response t))
      = local_license_validation_attempts t
      \/ local_license_validation_attempts (fst (activation now hw key response t))
         = (local_license_validation_attempts t
            ++ [attempt now hw key "failed" (Some error)])%list
  | Raise e => e = Exception "PendingRollbackError"
  end.
Proof.
  unfold activation, local_failure.
  destruct response as [e|e|[] [d|] err]; simpl; auto.
  - destruct (licenseKey d) as [k|]; simpl; auto.
    destruct (feature_keys d) as [keys|]; simpl; auto.
    destruct (sync_flush_ok now keys _); simpl; auto.
  - destruct err as [|m|]; simpl; auto.
  - destruct err as [|m|]; simpl; auto.
Qed.

(** X20. What the activation endpoint answers.  A body is returned only for
    an activation that the authority accepted: it says success, the key of
    the license it carries is then in the cache and the audit table ends
    with a [success] attempt for the requested key.  Every failure that the
    client reports becomes an [HTTPException] with status 400 whose detail is
    the error, and the audit table has then gained nothing or one [failed]
    attempt with that same error.  The only exception that escapes is the
    one of a session closed by a failed flush. *)
Theorem activation_endpoint_answers hw inst (t : Tables) now key response :
  let out := main.activate_license hw inst now key response t in
  match snd out with
  | main.Respond body =>
      exists d k,
        body = Activated d "License activated successfully"
        /\ licenseKey d = Some k
        /\ In k (license_keys (persisted (db (fst out))))
        /\ last (local_license_validation_attempts (persisted (db (fst out))))
           = Some (attempt now hw key "success" None)
        /\ scheduler_running (fst out) = true
  | main.HTTPException status_code detail =>
      status_code = 400
      /\ scheduler_running (fst out) = false
      /\ (local_license_validation_attempts (persisted (db (fst out)))
          = local_license_validation_attempts t
          \/ local_license_validation_attempts (persisted (db (fst out)))
             = (local_license_validation_attempts t
                ++ [attempt now hw key "failed" (Some detail)])%list)
  | main.Unhandled e => e = Exception "PendingRollbackError"
  end.
Proof.
  cbv zeta. unfold main.activate_license.
  pose proof (activate_license_database now hw inst key response t) as Hdb.
  pose proof (activate_license_outcome now hw inst key response t) as Hres.
  destruct (activate_license_client now hw inst key response t) as [Hrun _].
  pose proof (activation_not_accepted now hw key response t) as Hfail.
  pose proof (activation_accepted now hw key response t) as Hacc.
  unfold database in Hdb.
  destruct (activate_license now key response (new_client hw inst t)) as [c' o].
  simpl in Hdb, Hres, Hrun. rewrite <- Hres in Hfail, Hacc, Hrun. rewrite <- Hdb in Hfail, Hacc.
  destruct o as [[d m|error]|e]; simpl.
  - destruct (Hacc d m eq_refl) as (k & keys & Hk & Hkeys & Ht).
    assert (Hm : m = "License activated successfully").
    { revert Hres. unfold activation, local_failure.
      destruct response as [e|e|[] [d'|] err]; simpl; try discriminate.
      - destruct (licenseKey d'); simpl; try discriminate.
        destruct (feature_keys d'); simpl; try discriminate.
        destruct (sync_flush_ok _ _ _); simpl; try discriminate.
        intros H. injection H as _ <-. reflexivity.
      - destruct err; simpl; discriminate.
      - destruct err; simpl; discriminate. }
    exists d, k. rewrite Ht. subst m. split; [reflexivity|]. split; [exact Hk|].
    split; [|split; [|exact Hrun]].
    + unfold license_keys. simpl.
      destruct (upsert_license_row now k d (local_license_cache t))
        as (r & Hin & Hkey & _).
      apply in_map_iff. exists r. split; [exact Hkey | exact Hin].
    + simpl. apply last_snoc.
  - split; [reflexivity|]. split; [exact Hrun | exact Hfail].
  - exact Hfail.
Qed.

Lemma activation_endpoint_answers_witness :
  snd (main.activate_license "hw" "inst" 100 "FOX-1" (ActivateHTTPError "timed out")
         no_tables)
  = main.HTTPException 400 "HTTP error during activation: timed out".
Proof.
  pose proof (activation_endpoint_answers "hw" "inst" no_tables 100 "FOX-1"
                (ActivateHTTPError "timed out")) as H.
  cbv zeta in H.
  destruct (snd (main.activate_license "hw" "inst" 100 "FOX-1"
                   (ActivateHTTPError "timed out") no_tables)) as [body|code detail|e] eqn:Hout.
  - vm_compute in Hout. discriminate Hout.
  - destruct H as (-> & _ & _). vm_compute in Hout. injection Hout as <-. reflexivity.
  - vm_compute in Hout. discriminate Hout.
Defined.
